(** * hugo-update-lastmod: a shallow embedding of [bin/hugo-update-lastmod.mjs]

    The script exists in two generations that keep a cache and share most
    of their helpers: the timestamp generation (cache version 2, fingerprint
    [mtimeMs]) and the checksum generation (cache version 3, fingerprint
    [hash]).  The shared helpers are embedded once; the two
    [scanImagesForBundle] / [processBundle] / [main] live in the modules
    [Mtime] and [Hash].  An older generation takes the date from the git
    history and has no cache nor dry run; it lives in the module [Git].

    Conventions of the embedding
    - a JavaScript string is the list of its UTF-16 code units ([list N]);
    - a JavaScript object used as a dictionary is a [gmap];
    - numbers that the script only counts or compares are integers ([Z]);
    - the file system, the cache object, the statistics object and the
      console are threaded through an explicit state; an exception is a
      [Throw] result that skips the rest of the computation;
    - paths are strings; [path.resolve] and [path.relative] are functions
      of the environment. *)

From Stdlib Require Import ZArith NArith Ascii String DecimalString Lia.
From stdpp Require Import gmap list.

Local Open Scope Z_scope.

(** ** JavaScript strings *)

Module JS.

Abbreviation str := (list N).

(** A string literal of the script, as code units. *)
Definition lit (s : string) : str :=
  List.map N_of_ascii (list_ascii_of_string s).

Definition nl : N := 10%N.
Definition dquote : N := 34%N.

(** [WhiteSpace] and [LineTerminator] of ECMA-262: what [trim()] strips and
    what [\s] matches. *)
Definition isWhiteSpace (c : N) : bool :=
  ((9 <=? c) && (c <=? 13) || (c =? 32) || (c =? 160) || (c =? 5760)
   || (8192 <=? c) && (c <=? 8202) || (c =? 8232) || (c =? 8233)
   || (c =? 8239) || (c =? 8287) || (c =? 12288) || (c =? 65279))%N.

Fixpoint dropWhile {A} (p : A -> bool) (l : list A) : list A :=
  match l with
  | [] => []
  | x :: l' => if p x then dropWhile p l' else l
  end.

Definition trimStart (s : str) : str := dropWhile isWhiteSpace s.
Definition trimEnd (s : str) : str := reverse (dropWhile isWhiteSpace (reverse s)).
Definition trim (s : str) : str := trimEnd (trimStart s).

(** [s.startsWith(p)] *)
Fixpoint startsWith (s p : str) : bool :=
  match p, s with
  | [], _ => true
  | _ :: _, [] => false
  | a :: p', b :: s' => (a =? b)%N && startsWith s' p'
  end.

(** [s.endsWith(p)] *)
Definition endsWith (s p : str) : bool := startsWith (reverse s) (reverse p).

(** [s.split] at the line feed. *)
Fixpoint split_nl (s : str) : list str :=
  match s with
  | [] => [[]]
  | c :: s' =>
      if (c =? nl)%N then [] :: split_nl s'
      else match split_nl s' with
           | l :: ls => (c :: l) :: ls
           | [] => [[c]]
           end
  end.

(** [a.join] with the line feed. *)
Fixpoint join_nl (ls : list str) : str :=
  match ls with
  | [] => []
  | [l] => l
  | l :: ls' => l ++ nl :: join_nl ls'
  end.

(** [a.slice(start, end)], with the relative indexing of ECMA-262. *)
Definition relIndex (k len : Z) : Z :=
  if k <? 0 then Z.max (len + k) 0 else Z.min k len.

Definition slice {A} (l : list A) (start stop : Z) : list A :=
  let len := Z.of_nat (length l) in
  let from := relIndex start len in
  let to := relIndex stop len in
  take (Z.to_nat (to - from)) (drop (Z.to_nat from) l).

Definition slice_from {A} (l : list A) (start : Z) : list A :=
  slice l start (Z.of_nat (length l)).

(** [s.replace(/^lastmod:\s*/, empty)] *)
Definition replace_lastmod_prefix (s : str) : str :=
  if startsWith s (lit "lastmod:")
  then dropWhile isWhiteSpace (drop 8 s)
  else s.

(** The global replacement of the double quote by the empty string. *)
Definition remove_dquotes (s : str) : str :=
  List.filter (fun c => negb (c =? dquote)%N) s.

(** The relational operators on strings compare code units
    lexicographically; a proper prefix is smaller. *)
Fixpoint str_ltb (a b : str) : bool :=
  match a, b with
  | _, [] => false
  | [], _ :: _ => true
  | x :: a', y :: b' =>
      if (x <? y)%N then true
      else if (y <? x)%N then false
      else str_ltb a' b'
  end.

Definition str_gtb (a b : str) : bool := str_ltb b a.

Definition str_eqb (a b : str) : bool := bool_decide (a = b).

End JS.

Import JS.

(** ** Configuration *)

Record Config := {
  targetDirs : list str;
  extensions : list str;
  maxDepth : Z;
  frontmatterDelim : str;
  gitAdd : bool
}.

(** [const FRONTMATTER_DELIM = CONFIG.frontmatterDelim || ---] *)
Definition FRONTMATTER_DELIM (CONFIG : Config) : str :=
  match frontmatterDelim CONFIG with
  | [] => lit "---"
  | d => d
  end.

(** ** Descriptor editor: [parseFrontmatter] and [buildNewContent] *)

Record Frontmatter := {
  currentLastmod : str;
  fmLines : list str;
  bodyLines : list str;
  valid : bool
}.

Section Descriptor.

Variable DELIM : str.

Definition isLastmodLine (line : str) : bool := startsWith line (lit "lastmod:").

(** [lines.map((line, i) => (line.trim() === DELIM ? i : -1)).filter((i) => i !== -1)] *)
Definition delimIndices (lines : list str) : list Z :=
  List.filter (fun i => negb (i =? -1))
    (imap (fun i line => if str_eqb (trim line) DELIM then Z.of_nat i else -1) lines).

(** The [for] loop that extracts the value of the first [lastmod:] line. *)
Fixpoint extractLastmod (lines : list str) : str :=
  match lines with
  | [] => []
  | line :: rest =>
      if isLastmodLine line
      then trim (remove_dquotes (replace_lastmod_prefix line))
      else extractLastmod rest
  end.

Definition parseFrontmatter (content : str) : Frontmatter :=
  let lines := split_nl content in
  let fmIdx := delimIndices lines in
  match fmIdx with
  | fmStart :: fmEnd :: _ =>
      if fmEnd <=? fmStart
      then {| currentLastmod := []; fmLines := []; bodyLines := lines; valid := false |}
      else
        let fm := slice lines (fmStart + 1) fmEnd in
        let body := slice_from lines (fmEnd + 1) in
        {| currentLastmod := extractLastmod fm;
           fmLines := fm; bodyLines := body; valid := true |}
  | _ => {| currentLastmod := []; fmLines := []; bodyLines := lines; valid := false |}
  end.

(** The template literal: lastmod, colon, space, and [newLastmod] between
    double quotes. *)
Definition lastmodLine (newLastmod : str) : str :=
  lit "lastmod: " ++ dquote :: newLastmod ++ [dquote].

(** The replacement loop of [buildNewContent]: the state is the pair of
    [newFm] and [replaced]. *)
Definition replaceStep (newLastmod : str) (st : list str * bool) (line : str)
  : list str * bool :=
  let '(newFm, replaced) := st in
  if negb replaced && isLastmodLine line
  then (newFm ++ [lastmodLine newLastmod], true)
  else (newFm ++ [line], replaced).

Definition newFmLines (fm : list str) (newLastmod : str) : list str :=
  let '(newFm, replaced) := fold_left (replaceStep newLastmod) fm ([], false) in
  if replaced then newFm else newFm ++ [lastmodLine newLastmod].

Definition buildNewContent (fm body : list str) (newLastmod : str) : str :=
  (DELIM ++ [nl]) ++ join_nl (newFmLines fm newLastmod)
    ++ (nl :: DELIM ++ [nl]) ++ join_nl body.

End Descriptor.

(** *** Auxiliary definitions used to state facts about the editor *)

Section DescriptorAux.

Variable DELIM : str.

Definition isDelim (line : str) : bool := str_eqb (trim line) DELIM.

(** The delimiter indices of a list of lines that starts at line [k]. *)
Definition delimIndicesFrom (k : nat) (lines : list str) : list Z :=
  List.filter (fun i => negb (i =? -1))
    (imap (fun i line => if isDelim line then Z.of_nat (k + i) else -1) lines).

(** What the loop of [buildNewContent] computes, by recursion on the header. *)
Fixpoint replaceFirst (fm : list str) (newLastmod : str) : list str :=
  match fm with
  | [] => [lastmodLine newLastmod]
  | l :: rest =>
      if isLastmodLine l then lastmodLine newLastmod :: rest
      else l :: replaceFirst rest newLastmod
  end.

End DescriptorAux.

(** Joining no line and joining one empty line both give the empty string. *)
Definition orEmptyLine (ls : list str) : list str :=
  match ls with [] => [[]] | _ => ls end.


(** ** Inventories and the diff engine *)

(** One image entry: the fingerprint [fp] ([mtimeMs] in the timestamp
    generation, [hash] in the checksum generation) and the [size] field,
    [e_size]. *)
Record Entry (F : Type) := { fp : F; e_size : Z }.
Arguments fp {F} _.
Arguments e_size {F} _.

Record DiffResult := { added : Z; changed : Z; deleted : Z }.

Section Diff.

Context {F : Type} `{EqDecision F}.

(** The first loop of [diffImages]: one step for one key of [currKeys]. *)
Definition diffStep (prevKeys : gset str) (prevImages currentImages : gmap str (Entry F))
    (key : str) (acc : Z * Z) : Z * Z :=
  let '(added, changed) := acc in
  if decide (key ∉ prevKeys) then (added + 1, changed)
  else
    match prevImages !! key, currentImages !! key with
    | Some prev, Some curr =>
        if decide (fp prev <> fp curr \/ e_size prev <> e_size curr)
        then (added, changed + 1) else (added, changed)
    | _, _ => (added, changed)
    end.

(** The second loop: one step for one key of [prevKeys]. *)
Definition deletedStep (currKeys : gset str) (key : str) (deleted : Z) : Z :=
  if decide (key ∉ currKeys) then deleted + 1 else deleted.

Definition diffImages (prevImages currentImages : gmap str (Entry F)) : DiffResult :=
  let prevKeys : gset str := dom prevImages in
  let currKeys : gset str := dom currentImages in
  let '(added, changed) :=
    set_fold (diffStep prevKeys prevImages currentImages) (0, 0) currKeys in
  let deleted := set_fold (deletedStep currKeys) 0 prevKeys in
  {| added := added; changed := changed; deleted := deleted |}.

End Diff.

(** ** Dates

    A [Date] object is its time value: milliseconds since the epoch, as an
    integer.  The getters follow the day and time arithmetic of ECMA-262
    (section "Date Objects"); the local time zone is the environment's map
    from an instant to the offset of local time, in whole minutes east of
    UTC. *)

Module JSDate.

Definition msPerDay : Z := 86400000.
Definition msPerHour : Z := 3600000.
Definition msPerMinute : Z := 60000.
Definition msPerSecond : Z := 1000.

Definition Day (t : Z) : Z := t / msPerDay.

Definition DaysInYear (y : Z) : Z :=
  if negb (y mod 4 =? 0) then 365
  else if negb (y mod 100 =? 0) then 366
  else if negb (y mod 400 =? 0) then 365
  else 366.

Definition DayFromYear (y : Z) : Z :=
  365 * (y - 1970) + (y - 1969) / 4 - (y - 1901) / 100 + (y - 1601) / 400.

(** The year of a day number: the largest [y] with [DayFromYear y <= d]
    (see [YearFromDay_spec]), computed on the 400-year cycle from 2001. *)
Definition YearFromDay (d : Z) : Z :=
  let n := d - 11323 in
  let q400 := n / 146097 in
  let r400 := n mod 146097 in
  let q100 := Z.min (r400 / 36524) 3 in
  let r100 := r400 - q100 * 36524 in
  let q4 := r100 / 1461 in
  let r4 := r100 mod 1461 in
  let q1 := Z.min (r4 / 365) 3 in
  2001 + 400 * q400 + 100 * q100 + 4 * q4 + q1.

Definition YearFromTime (t : Z) : Z := YearFromDay (Day t).

Definition InLeapYear (t : Z) : Z :=
  if DaysInYear (YearFromTime t) =? 366 then 1 else 0.

Definition DayWithinYear (t : Z) : Z := Day t - DayFromYear (YearFromTime t).

Definition MonthFromTime (t : Z) : Z :=
  let d := DayWithinYear t in
  let leap := InLeapYear t in
  if d <? 31 then 0
  else if d <? 59 + leap then 1
  else if d <? 90 + leap then 2
  else if d <? 120 + leap then 3
  else if d <? 151 + leap then 4
  else if d <? 181 + leap then 5
  else if d <? 212 + leap then 6
  else if d <? 243 + leap then 7
  else if d <? 273 + leap then 8
  else if d <? 304 + leap then 9
  else if d <? 334 + leap then 10
  else 11.

Definition DateFromTime (t : Z) : Z :=
  let d := DayWithinYear t in
  let leap := InLeapYear t in
  match MonthFromTime t with
  | 0 => d + 1
  | 1 => d - 30
  | 2 => d - 58 - leap
  | 3 => d - 89 - leap
  | 4 => d - 119 - leap
  | 5 => d - 150 - leap
  | 6 => d - 180 - leap
  | 7 => d - 211 - leap
  | 8 => d - 242 - leap
  | 9 => d - 272 - leap
  | 10 => d - 303 - leap
  | _ => d - 333 - leap
  end.

Definition HourFromTime (t : Z) : Z := (t / msPerHour) mod 24.
Definition MinFromTime (t : Z) : Z := (t / msPerMinute) mod 60.
Definition SecFromTime (t : Z) : Z := (t / msPerSecond) mod 60.

Section Local.

(** Offset of local time at the instant [t], in minutes east of UTC. *)
Variable tz : Z -> Z.

Definition LocalTime (t : Z) : Z := t + tz t * msPerMinute.

Definition getFullYear (t : Z) : Z := YearFromTime (LocalTime t).
Definition getMonth (t : Z) : Z := MonthFromTime (LocalTime t).
Definition getDate (t : Z) : Z := DateFromTime (LocalTime t).
Definition getHours (t : Z) : Z := HourFromTime (LocalTime t).
Definition getMinutes (t : Z) : Z := MinFromTime (LocalTime t).
Definition getSeconds (t : Z) : Z := SecFromTime (LocalTime t).
Definition getTimezoneOffset (t : Z) : Z := (t - LocalTime t) / msPerMinute.

End Local.

End JSDate.

(** The code unit of a decimal digit. *)
Definition digit (d : Z) : N := (48 + Z.to_N d)%N.

(** The decimal digits of a natural number, most significant first; [fuel]
    bounds their number. *)
Fixpoint digitsOf (fuel : nat) (n : Z) : str :=
  match fuel with
  | O => []
  | S fuel' =>
      (if n <? 10 then [] else digitsOf fuel' (n / 10)) ++ [digit (n mod 10)]
  end.

(** [String(n)] for an integer [n]: the decimal digits, with a minus sign
    for a negative number.  A number has no more decimal than binary digits
    (see [digitsOf_fuel]). *)
Definition Number_toString (n : Z) : str :=
  if n <? 0 then lit "-" ++ digitsOf (S (Z.to_nat (Z.log2 (- n)))) (- n)
  else digitsOf (S (Z.to_nat (Z.log2 n))) n.

(** [s.padStart(2, zero)] *)
Definition padStart2 (s : str) : str :=
  replicate (2 - length s) 48%N ++ s.

Section Format.

Variable tz : Z -> Z.

Definition pad (n : Z) : str := padStart2 (Number_toString n).

Definition formatLocalISO (date : Z) : str :=
  let year := JSDate.getFullYear tz date in
  let month := pad (JSDate.getMonth tz date + 1) in
  let day := pad (JSDate.getDate tz date) in
  let hour := pad (JSDate.getHours tz date) in
  let minute := pad (JSDate.getMinutes tz date) in
  let second := pad (JSDate.getSeconds tz date) in
  let offsetMinutes := - JSDate.getTimezoneOffset tz date in
  let sign := if 0 <=? offsetMinutes then lit "+" else lit "-" in
  let abs := Z.abs offsetMinutes in
  let offH := pad (abs / 60) in
  let offM := pad (abs mod 60) in
  Number_toString year ++ lit "-" ++ month ++ lit "-" ++ day ++ lit "T"
    ++ hour ++ lit ":" ++ minute ++ lit ":" ++ second
    ++ sign ++ offH ++ lit ":" ++ offM.

End Format.

(** [isNewerISO]: an empty string is falsy. *)
Definition isNewerISO (newVal currentVal : str) : bool :=
  match currentVal with
  | [] => true
  | _ => str_gtb newVal currentVal
  end.


(** *** Auxiliary definitions used to state facts about the format *)

(** The six decimal fields of the formatted local time, most significant
    first. *)
Definition dateFields (tz : Z -> Z) (date : Z) : list Z :=
  [ JSDate.getFullYear tz date; JSDate.getMonth tz date + 1;
    JSDate.getDate tz date; JSDate.getHours tz date;
    JSDate.getMinutes tz date; JSDate.getSeconds tz date ].

(** Lexicographic order on lists of integers. *)
Fixpoint lexZ_ltb (a b : list Z) : bool :=
  match a, b with
  | x :: a', y :: b' =>
      if x <? y then true else if y <? x then false else lexZ_ltb a' b'
  | _, _ => false
  end.

(** The whole second an instant lies in. *)
Definition secondOf (t : Z) : Z := t / 1000.

(** The offset part of the formatted string. *)
Definition offsetSuffix (offsetMinutes : Z) : str :=
  (if 0 <=? offsetMinutes then lit "+" else lit "-")
    ++ pad (Z.abs offsetMinutes / 60) ++ lit ":" ++ pad (Z.abs offsetMinutes mod 60).

(** ** The environment and the state of a run *)

Inductive DirentKind := KindFile | KindDirectory | KindOther.

(** A directory entry as [readdir] yields it with [withFileTypes]. *)
Record Dirent := { name : str; kind : DirentKind }.

(** What the script reads of an [fs.Stats] object. *)
Record FileStat := { st_isDirectory : bool; st_mtimeMs : Z; st_size : Z }.

(** The part of the world that a run only reads.  A function into [option]
    is a call that throws (or a promise that rejects) on [None]. *)
Record World := {
  glob : str -> list str;
  statSync : str -> option FileStat;
  readdir : str -> option (list Dirent);
  hashFile : str -> option str;
  (** whether [fs.writeFile] succeeds on the path *)
  canWrite : str -> bool;
  (** [path.resolve] and [path.relative(process.cwd(), _)] *)
  resolve : str -> str;
  relative : str -> str;
  toLowerCase : str -> str;
  (** the offset of local time, in minutes east of UTC *)
  tz : Z -> Z;
  (** the reading of the clock while the bundle is processed *)
  now : str -> Z
}.

Inductive Error :=
  | ReaddirError (path : str)
  | ReadFileError (path : str)
  | WriteFileError (path : str).

(** The return point of [processBundle] that a bundle reaches. *)
Inductive Terminal := Skipped | NoImages | Unchanged | InvalidDescriptor | Updated.

Record Stats := {
  totalBundles : Z;
  updatedBundles : Z;
  unchangedBundles : Z;
  noImageBundles : Z;
  totalAdded : Z;
  totalChanged : Z;
  totalDeleted : Z
}.

Definition zeroStats : Stats :=
  {| totalBundles := 0; updatedBundles := 0; unchangedBundles := 0;
     noImageBundles := 0; totalAdded := 0; totalChanged := 0; totalDeleted := 0 |}.

(** The updates of the [stats] object. *)
Definition addDiff (d : DiffResult) (st : Stats) : Stats :=
  {| totalBundles := totalBundles st; updatedBundles := updatedBundles st;
     unchangedBundles := unchangedBundles st; noImageBundles := noImageBundles st;
     totalAdded := totalAdded st + added d;
     totalChanged := totalChanged st + changed d;
     totalDeleted := totalDeleted st + deleted d |}.

Definition incrNoImage (st : Stats) : Stats :=
  {| totalBundles := totalBundles st; updatedBundles := updatedBundles st;
     unchangedBundles := unchangedBundles st;
     noImageBundles := noImageBundles st + 1;
     totalAdded := totalAdded st; totalChanged := totalChanged st;
     totalDeleted := totalDeleted st |}.

Definition incrUnchanged (st : Stats) : Stats :=
  {| totalBundles := totalBundles st; updatedBundles := updatedBundles st;
     unchangedBundles := unchangedBundles st + 1;
     noImageBundles := noImageBundles st;
     totalAdded := totalAdded st; totalChanged := totalChanged st;
     totalDeleted := totalDeleted st |}.

Definition incrUpdated (st : Stats) : Stats :=
  {| totalBundles := totalBundles st; updatedBundles := updatedBundles st + 1;
     unchangedBundles := unchangedBundles st;
     noImageBundles := noImageBundles st;
     totalAdded := totalAdded st; totalChanged := totalChanged st;
     totalDeleted := totalDeleted st |}.

Definition incrTotal (st : Stats) : Stats :=
  {| totalBundles := totalBundles st + 1; updatedBundles := updatedBundles st;
     unchangedBundles := unchangedBundles st;
     noImageBundles := noImageBundles st;
     totalAdded := totalAdded st; totalChanged := totalChanged st;
     totalDeleted := totalDeleted st |}.

(** A file of the store: readable text, or present and unreadable. *)
Inductive FileContent := Text (content : str) | Unreadable.

Inductive Result (A : Type) := Ok (a : A) | Throw (e : Error).
Arguments Ok {A} _.
Arguments Throw {A} _.

(** [path.join] of a directory and a name; [path.sep] is the slash. *)
Definition path_join (dir name : str) : str := dir ++ lit "/" ++ name.

(** [dir.endsWith(path.sep) ? dir.slice(0, -1) : dir] *)
Definition cleanDir (dir : str) : str :=
  if endsWith dir (lit "/") then slice dir 0 (-1) else dir.

Section Run.

Context {F : Type}.

(** One bundle of the cache; a bundle read from the cache file may lack
    its [images]. *)
Record Bundle := { images : option (gmap str (Entry F)) }.

(** The cache file: unreadable or not JSON, or a JSON object with its
    [version] and [bundles]. *)
Inductive CacheFile :=
  | CacheGarbage
  | CacheJson (version : Z) (bundles : option (gmap str Bundle)).

(** What a run does to the outside, and what it prints, in order. *)
Inductive Event :=
  | LogHeader
  | LogCacheReset
  | LogCacheReadError
  | LogNoIndex (relDir : str)
  | LogNoImages (relDir : str)
  | LogInvalid (relIndexFile : str)
  | LogCurrent (relIndexFile currentLastmod : str) (d : DiffResult)
  | LogUpdate (relIndexFile currentLastmod newLastmod : str) (d : DiffResult)
  | LogDryRunNote (relIndexFile : str)
  | LogNoneFound
  | LogDryRunCache
  | LogFooter (stats : Stats)
  | LogUnexpected (e : Error)
  | CacheSet (relDir : str) (b : Bundle)
  | WriteDescriptor (indexFile content : str)
  | GitAdd (relIndexFile : str)
  | WriteCache (c : CacheFile).

(** The state of a run: the descriptor files, the cache file, the [cache]
    object, the [stats] object, and the events so far (latest last). *)
Record State := {
  files : gmap str FileContent;
  cacheFile : option CacheFile;
  cache : gmap str Bundle;
  stats : Stats;
  trace : list Event
}.

Definition M (A : Type) : Type := State -> Result A * State.

#[global] Instance M_ret : MRet M := fun A a s => (Ok a, s).
#[global] Instance M_bind : MBind M := fun A B f m s =>
  match m s with
  | (Ok a, s') => f a s'
  | (Throw e, s') => (Throw e, s')
  end.

Definition throw {A} (e : Error) : M A := fun s => (Throw e, s).
Definition get : M State := fun s => (Ok s, s).
Definition modify (f : State -> State) : M unit := fun s => (Ok tt, f s).

(** Updates of one component of the state. *)
Definition withEvent (s : State) (ev : Event) : State :=
  {| files := files s; cacheFile := cacheFile s; cache := cache s;
     stats := stats s; trace := trace s ++ [ev] |}.

Definition withStats (s : State) (st : Stats) : State :=
  {| files := files s; cacheFile := cacheFile s; cache := cache s;
     stats := st; trace := trace s |}.

Definition withCache (s : State) (c : gmap str Bundle) : State :=
  {| files := files s; cacheFile := cacheFile s; cache := c;
     stats := stats s; trace := trace s |}.

Definition withFiles (s : State) (f : gmap str FileContent) : State :=
  {| files := f; cacheFile := cacheFile s; cache := cache s;
     stats := stats s; trace := trace s |}.

Definition withCacheFile (s : State) (cf : option CacheFile) : State :=
  {| files := files s; cacheFile := cf; cache := cache s;
     stats := stats s; trace := trace s |}.

Definition emit (ev : Event) : M unit := modify (fun s => withEvent s ev).

Definition modifyStats (f : Stats -> Stats) : M unit :=
  modify (fun s => withStats s (f (stats s))).

(** [cache.bundles[relDir] = b] *)
Definition cacheSet (relDir : str) (b : Bundle) : M unit :=
  modify (fun s =>
    withEvent (withCache s (<[relDir := b]> (cache s))) (CacheSet relDir b)).

Definition existsSync (path : str) : M bool :=
  s ← get; mret (bool_decide (is_Some (files s !! path))).

(** [await fs.readFile(path, utf8)] *)
Definition readFile (path : str) : M str :=
  s ← get;
  match files s !! path with
  | Some (Text content) => mret content
  | _ => throw (ReadFileError path)
  end.

Section WithWorld.

Variable w : World.

(** [await fs.writeFile(indexFile, content, utf8)] on a descriptor *)
Definition writeDescriptor (indexFile content : str) : M unit :=
  if canWrite w indexFile then
    modify (fun s =>
      withEvent (withFiles s (<[indexFile := Text content]> (files s)))
        (WriteDescriptor indexFile content))
  else throw (WriteFileError indexFile).

(** [await fs.writeFile(CACHE_PATH, JSON.stringify(...), utf8)] *)
Definition writeCacheFile (CACHE_PATH : str) (c : CacheFile) : M unit :=
  if canWrite w CACHE_PATH then
    modify (fun s => withEvent (withCacheFile s (Some c)) (WriteCache c))
  else throw (WriteFileError CACHE_PATH).

(** *** Inventory scanner: [getImageFiles] *)

Variable EXTENSIONS : list str.

(** [EXTENSIONS.some((ext) => low.endsWith(dot + ext))] *)
Definition hasImageExtension (entryName : str) : bool :=
  let low := toLowerCase w entryName in
  existsb (fun ext => endsWith low (lit "." ++ ext)) EXTENSIONS.

(** The inner function [walk]; [files] is the array that it pushes to.
    [fuel] bounds the nesting of the calls; [getImageFiles] passes enough
    (see [walk_fuel]), and [None] marks its exhaustion. *)
Fixpoint walk (fuel : nat) (maxDepth : Z) (current : str) (depth : Z)
    (found : list str) : option (Result (list str)) :=
  match readdir w current with
  | None => Some (Throw (ReaddirError current))
  | Some entries =>
      (fix loop (entries : list Dirent) (found : list str)
         : option (Result (list str)) :=
         match entries with
         | [] => Some (Ok found)
         | entry :: rest =>
             let full := path_join current (name entry) in
             match kind entry with
             | KindFile =>
                 if hasImageExtension (name entry)
                 then loop rest (found ++ [relative w full])
                 else loop rest found
             | KindDirectory =>
                 if depth + 1 <? maxDepth then
                   match fuel with
                   | O => None
                   | S fuel' =>
                       match walk fuel' maxDepth full (depth + 1) found with
                       | Some (Ok found') => loop rest found'
                       | other => other
                       end
                   end
                 else loop rest found
             | KindOther => loop rest found
             end
         end) entries found
  end.

Definition getImageFiles (dir : str) (maxDepth : Z) : M (list str) :=
  match walk (Z.to_nat maxDepth) maxDepth dir 0 [] with
  | Some (Ok found) => mret found
  | Some (Throw e) => throw e
  | None => mret []
  end.

(** A loop over a list whose body may throw: [for (const x of l) ...] with
    a loop-carried value. *)
Fixpoint forEach {A B} (l : list A) (body : B -> A -> M B) (b : B) : M B :=
  match l with
  | [] => mret b
  | x :: rest => b' ← body b x; forEach rest body b'
  end.

End WithWorld.

(** The cache object after the top-level load of the cache file. *)
Definition loadCache (CACHE_VERSION : Z) (file : option CacheFile)
  : gmap str Bundle * list Event :=
  match file with
  | None => (∅, [])
  | Some CacheGarbage => (∅, [LogCacheReadError])
  | Some (CacheJson version (Some bundles)) =>
      if version =? CACHE_VERSION then (bundles, []) else (∅, [LogCacheReset])
  | Some (CacheJson version None) => (∅, [LogCacheReset])
  end.

(** The state in which [main] starts. *)
Definition initialState (CACHE_VERSION : Z) (files0 : gmap str FileContent)
    (cacheFile0 : option CacheFile) : State :=
  let '(bundles, events) := loadCache CACHE_VERSION cacheFile0 in
  {| files := files0; cacheFile := cacheFile0; cache := bundles;
     stats := zeroStats; trace := events |}.

(** [main().catch(...)], with the exit code of the process. *)
Definition runMain (main : M unit) (s : State) : Z * State :=
  match main s with
  | (Ok _, s') => (0, s')
  | (Throw e, s') => (1, withEvent s' (LogUnexpected e))
  end.

End Run.

Arguments Bundle : clear implicits.
Arguments CacheFile : clear implicits.
Arguments Event : clear implicits.
Arguments State : clear implicits.
Arguments M : clear implicits.

(** *** Auxiliary definitions used to state facts about runs *)

Section RunAux.

Context {F : Type}.

(** The stores that a list of events leaves behind. *)
Definition replayCache (evs : list (Event F)) (c : gmap str (Bundle F))
  : gmap str (Bundle F) :=
  fold_left (fun c ev => match ev with CacheSet k b => <[k := b]> c | _ => c end) evs c.

Definition replayFiles (evs : list (Event F)) (f : gmap str FileContent)
  : gmap str FileContent :=
  fold_left (fun f ev =>
    match ev with WriteDescriptor p t => <[p := Text t]> f | _ => f end) evs f.

Definition replayCacheFile (evs : list (Event F)) (cf : option (CacheFile F))
  : option (CacheFile F) :=
  fold_left (fun cf ev => match ev with WriteCache c => Some c | _ => cf end) evs cf.

(** The assignments to [cache.bundles] among the events, in order. *)
Definition cacheSets (evs : list (Event F)) : list (str * Bundle F) :=
  omap (fun ev => match ev with CacheSet k b => Some (k, b) | _ => None end) evs.

(** [emits P m]: whatever the state, [m] appends events that all satisfy
    [P], and changes the descriptor files, the cache object and the cache
    file exactly as these events say. *)
Definition emits (P : Event F -> Prop) {A} (m : M F A) : Prop :=
  forall s, exists evs,
    trace (snd (m s)) = trace s ++ evs /\
    Forall P evs /\
    cache (snd (m s)) = replayCache evs (cache s) /\
    files (snd (m s)) = replayFiles evs (files s) /\
    cacheFile (snd (m s)) = replayCacheFile evs (cacheFile s).

Definition isWriteCache (ev : Event F) : Prop :=
  match ev with WriteCache _ => True | _ => False end.

Definition isWriteDescriptor (ev : Event F) : Prop :=
  match ev with WriteDescriptor _ _ => True | _ => False end.

Definition isLogFooter (ev : Event F) : Prop :=
  match ev with LogFooter _ => True | _ => False end.

Definition isCacheSetOf (keys : str -> Prop) (ev : Event F) : Prop :=
  match ev with CacheSet k _ => keys k | _ => True end.

(** The events of the processing of the bundle [relDir]: no cache file
    write, no footer, assignments to the cache under the key [relDir] only,
    and no descriptor write in a dry run. *)
Definition bundleEvents (keys : str -> Prop) (dry : bool) (ev : Event F) : Prop :=
  ~ isWriteCache ev /\ ~ isLogFooter ev /\ isCacheSetOf keys ev /\
  (dry = true -> ~ isWriteDescriptor ev).

End RunAux.

(** ** The timestamp generation (cache version 2) *)

Module Mtime.

Definition CACHE_VERSION : Z := 2.
Definition CACHE_PATH : str := lit ".hugo-update-lastmod.cache.json".

Abbreviation mtimeMs := (@fp Z).

Section Script.

Variable CONFIG : Config.
Variable DRY_RUN : bool.
Variable w : World.

Definition TARGET_DIRS : list str := targetDirs CONFIG.
Definition EXTENSIONS : list str := List.map (toLowerCase w) (extensions CONFIG).
Definition MAXDEPTH : Z := maxDepth CONFIG.
Definition GIT_ADD_ENABLED : bool := gitAdd CONFIG.

(** The loop of [scanImagesForBundle]: a file whose [statSync] throws is
    skipped. *)
Definition scanStep (result : gmap str (Entry Z)) (rel : str) : gmap str (Entry Z) :=
  match statSync w (resolve w rel) with
  | Some st => <[rel := {| fp := st_mtimeMs st; e_size := st_size st |}]> result
  | None => result
  end.

Definition scanImagesForBundle (absDir : str) (maxDepth : Z)
  : M Z (gmap str (Entry Z)) :=
  found ← getImageFiles w EXTENSIONS absDir maxDepth;
  mret (fold_left scanStep found ∅).

(** What [scanImagesForBundle] returns; it reads the world only. *)
Definition inventoryOf (absDir : str) : Result (gmap str (Entry Z)) :=
  match walk w EXTENSIONS (Z.to_nat MAXDEPTH) MAXDEPTH absDir 0 [] with
  | Some (Ok found) => Ok (fold_left scanStep found ∅)
  | Some (Throw e) => Throw e
  | None => Ok ∅
  end.

(** The directories that [main] visits, in order. *)
Definition allDirs : list str := concat (List.map (glob w) TARGET_DIRS).

(** The cache key of a directory that [main] visits. *)
Definition relDirOf (dir : str) : str := relative w (resolve w (cleanDir dir)).

(** The cache keys of the directories that [main] visits. *)
Definition visited (k : str) : Prop := exists dir, dir ∈ allDirs /\ k = relDirOf dir.

(** Step 3 of [processBundle]: the loop for [maxMtimeMs]. *)
Definition maxMtimeStep (currentImages : gmap str (Entry Z)) (maxMtimeMs : Z)
    (key : str) : Z :=
  match currentImages !! key with
  | Some e => if maxMtimeMs <? mtimeMs e then mtimeMs e else maxMtimeMs
  | None => maxMtimeMs
  end.

Definition maxMtime (currentImages : gmap str (Entry Z)) : Z :=
  fold_left (maxMtimeStep currentImages) (elements (dom currentImages)) 0.

(** [m] is the maximum modification timestamp over the entries of an
    inventory. *)
Definition isMaxMtime (m : Z) (currentImages : gmap str (Entry Z)) : Prop :=
  (exists key e, currentImages !! key = Some e /\ mtimeMs e = m) /\
  (forall key e, currentImages !! key = Some e -> mtimeMs e <= m).

(** [cache.bundles[relDir] || { images: {} }], then [.images || {}] *)
Definition prevImagesOf (cache : gmap str (Bundle Z)) (relDir : str)
  : gmap str (Entry Z) :=
  match cache !! relDir with
  | Some {| images := Some imgs |} => imgs
  | _ => ∅
  end.

Definition processBundle (absDir : str) : M Z Terminal :=
  let relDir := relative w absDir in
  let indexFile := path_join absDir (lit "index.md") in
  let relIndexFile := relative w indexFile in
  present ← existsSync indexFile;
  if negb present then
    emit (LogNoIndex relDir);; mret Skipped
  else
    (* 1. *)
    currentImages ← scanImagesForBundle absDir MAXDEPTH;
    let currentKeys := elements (dom currentImages) in
    if (length currentKeys =? 0)%nat then
      emit (LogNoImages relDir);;
      modifyStats incrNoImage;;
      cacheSet relDir {| images := Some ∅ |};;
      mret NoImages
    else
      (* 2. *)
      s ← get;
      let prevImages := prevImagesOf (cache s) relDir in
      let d := diffImages prevImages currentImages in
      modifyStats (addDiff d);;
      (* 3. *)
      let maxMtimeMs := maxMtime currentImages in
      let newLastmod := formatLocalISO (tz w) maxMtimeMs in
      (* 4. *)
      raw ← readFile indexFile;
      let fm := parseFrontmatter (FRONTMATTER_DELIM CONFIG) raw in
      if negb (valid fm) then
        emit (LogInvalid relIndexFile);;
        cacheSet relDir {| images := Some currentImages |};;
        mret InvalidDescriptor
      else
        (* 5. *)
        let shouldUpdateLastmod := isNewerISO newLastmod (currentLastmod fm) in
        terminal ←
          (if negb shouldUpdateLastmod then
             emit (LogCurrent relIndexFile (currentLastmod fm) d);;
             modifyStats incrUnchanged;;
             mret Unchanged
           else
             modifyStats incrUpdated;;
             emit (LogUpdate relIndexFile (currentLastmod fm) newLastmod d);;
             (if DRY_RUN then emit (LogDryRunNote relIndexFile)
              else
                let newContent :=
                  buildNewContent (FRONTMATTER_DELIM CONFIG)
                    (fmLines fm) (bodyLines fm) newLastmod in
                writeDescriptor w indexFile newContent;;
                (if GIT_ADD_ENABLED then emit (GitAdd relIndexFile) else mret tt));;
             mret Updated);
        (* 6. *)
        cacheSet relDir {| images := Some currentImages |};;
        mret terminal.

(** The failures of the processing of one bundle that the claims name:
    a directory of the bundle cannot be listed; the descriptor cannot be
    read; the descriptor is to be rewritten and cannot be written. *)
Definition bundleFailure (absDir : str) (s : State Z) (e : Error) : Prop :=
  let indexFile := path_join absDir (lit "index.md") in
  is_Some (files s !! indexFile) /\
  (inventoryOf absDir = Throw e
   \/ exists currentImages,
        inventoryOf absDir = Ok currentImages /\ currentImages <> ∅ /\
        ((files s !! indexFile = Some Unreadable /\ e = ReadFileError indexFile)
         \/ exists raw,
              files s !! indexFile = Some (Text raw) /\
              valid (parseFrontmatter (FRONTMATTER_DELIM CONFIG) raw) = true /\
              isNewerISO (formatLocalISO (tz w) (maxMtime currentImages))
                (currentLastmod (parseFrontmatter (FRONTMATTER_DELIM CONFIG) raw)) = true /\
              DRY_RUN = false /\ canWrite w indexFile = false /\
              e = WriteFileError indexFile)).

(** The body of the inner loop of [main]; the loop-carried value is
    [anyFound]. *)
Definition mainStep (anyFound : bool) (dir : str) : M Z bool :=
  match statSync w dir with
  | None => mret anyFound
  | Some statsDir =>
      if negb (st_isDirectory statsDir) then mret anyFound
      else
        modifyStats incrTotal;;
        let clean := cleanDir dir in
        let absDir := resolve w clean in
        processBundle absDir;;
        mret true
  end.

Definition main : M Z unit :=
  emit LogHeader;;
  anyFound ← forEach TARGET_DIRS
    (fun anyFound pattern => forEach (glob w pattern) mainStep anyFound) false;
  (if negb anyFound then emit LogNoneFound else mret tt);;
  s ← get;
  writeCacheFile w CACHE_PATH (CacheJson CACHE_VERSION (Some (cache s)));;
  s' ← get;
  emit (LogFooter (stats s')).

(** The whole script: load the cache, run [main], exit. *)
Definition script (files0 : gmap str FileContent) (cacheFile0 : option (CacheFile Z))
  : Z * State Z :=
  runMain main (initialState CACHE_VERSION files0 cacheFile0).

End Script.

End Mtime.

(** ** The checksum generation (cache version 3) *)

Module Hash.

Definition CACHE_VERSION : Z := 3.
Definition CACHE_PATH : str := lit ".hugo-update-lastmod.cache.json".

Abbreviation hash := (@fp str).

Section Script.

Variable CONFIG : Config.
Variable DRY_RUN : bool.
Variable w : World.

Definition TARGET_DIRS : list str := targetDirs CONFIG.
Definition EXTENSIONS : list str := List.map (toLowerCase w) (extensions CONFIG).
Definition MAXDEPTH : Z := maxDepth CONFIG.
Definition GIT_ADD_ENABLED : bool := gitAdd CONFIG.

(** The loop of [scanImagesForBundle]: a file whose [statSync] throws or
    whose [hashFile] rejects is skipped. *)
Definition scanStep (result : gmap str (Entry str)) (rel : str) : gmap str (Entry str) :=
  let abs := resolve w rel in
  match statSync w abs with
  | Some st =>
      match hashFile w abs with
      | Some h => <[rel := {| fp := h; e_size := st_size st |}]> result
      | None => result
      end
  | None => result
  end.

Definition scanImagesForBundle (absDir : str) (maxDepth : Z)
  : M str (gmap str (Entry str)) :=
  found ← getImageFiles w EXTENSIONS absDir maxDepth;
  mret (fold_left scanStep found ∅).

(** What [scanImagesForBundle] returns; it reads the world only. *)
Definition inventoryOf (absDir : str) : Result (gmap str (Entry str)) :=
  match walk w EXTENSIONS (Z.to_nat MAXDEPTH) MAXDEPTH absDir 0 [] with
  | Some (Ok found) => Ok (fold_left scanStep found ∅)
  | Some (Throw e) => Throw e
  | None => Ok ∅
  end.

(** The directories that [main] visits, in order. *)
Definition allDirs : list str := concat (List.map (glob w) TARGET_DIRS).

(** The cache key of a directory that [main] visits. *)
Definition relDirOf (dir : str) : str := relative w (resolve w (cleanDir dir)).

(** The cache keys of the directories that [main] visits. *)
Definition visited (k : str) : Prop := exists dir, dir ∈ allDirs /\ k = relDirOf dir.

(** [cache.bundles[relDir] || { images: {} }], then [.images || {}] *)
Definition prevImagesOf (cache : gmap str (Bundle str)) (relDir : str)
  : gmap str (Entry str) :=
  match cache !! relDir with
  | Some {| images := Some imgs |} => imgs
  | _ => ∅
  end.

Definition processBundle (absDir : str) : M str Terminal :=
  let relDir := relative w absDir in
  let indexFile := path_join absDir (lit "index.md") in
  let relIndexFile := relative w indexFile in
  present ← existsSync indexFile;
  if negb present then
    emit (LogNoIndex relDir);; mret Skipped
  else
    (* 1. *)
    currentImages ← scanImagesForBundle absDir MAXDEPTH;
    let currentKeys := elements (dom currentImages) in
    if (length currentKeys =? 0)%nat then
      emit (LogNoImages relDir);;
      modifyStats incrNoImage;;
      cacheSet relDir {| images := Some ∅ |};;
      mret NoImages
    else
      (* 2. *)
      s ← get;
      let prevImages := prevImagesOf (cache s) relDir in
      let d := diffImages prevImages currentImages in
      modifyStats (addDiff d);;
      let totalImgChanges := added d + changed d + deleted d in
      (* 3. *)
      if totalImgChanges =? 0 then
        raw ← readFile indexFile;
        let fm := parseFrontmatter (FRONTMATTER_DELIM CONFIG) raw in
        (if negb (valid fm) then emit (LogInvalid relIndexFile) else mret tt);;
        emit (LogCurrent relIndexFile (currentLastmod fm) d);;
        modifyStats incrUnchanged;;
        cacheSet relDir {| images := Some currentImages |};;
        mret Unchanged
      else
        (* 4. *)
        raw ← readFile indexFile;
        let fm := parseFrontmatter (FRONTMATTER_DELIM CONFIG) raw in
        if negb (valid fm) then
          emit (LogInvalid relIndexFile);;
          cacheSet relDir {| images := Some currentImages |};;
          mret InvalidDescriptor
        else
          let newLastmod := formatLocalISO (tz w) (now w relDir) in
          let shouldUpdateLastmod := isNewerISO newLastmod (currentLastmod fm) in
          terminal ←
            (if negb shouldUpdateLastmod then
               emit (LogCurrent relIndexFile (currentLastmod fm) d);;
               modifyStats incrUnchanged;;
               mret Unchanged
             else
               modifyStats incrUpdated;;
               emit (LogUpdate relIndexFile (currentLastmod fm) newLastmod d);;
               (if DRY_RUN then emit (LogDryRunNote relIndexFile)
                else
                  let newContent :=
                    buildNewContent (FRONTMATTER_DELIM CONFIG)
                      (fmLines fm) (bodyLines fm) newLastmod in
                  writeDescriptor w indexFile newContent;;
                  (if GIT_ADD_ENABLED then emit (GitAdd relIndexFile) else mret tt));;
               mret Updated);
          cacheSet relDir {| images := Some currentImages |};;
          mret terminal.

(** The failures of the processing of one bundle that the claims name:
    a directory of the bundle cannot be listed; the descriptor cannot be
    read; the descriptor is to be rewritten and cannot be written. *)
Definition bundleFailure (absDir : str) (s : State str) (e : Error) : Prop :=
  let relDir := relative w absDir in
  let indexFile := path_join absDir (lit "index.md") in
  is_Some (files s !! indexFile) /\
  (inventoryOf absDir = Throw e
   \/ exists currentImages,
        inventoryOf absDir = Ok currentImages /\ currentImages <> ∅ /\
        ((files s !! indexFile = Some Unreadable /\ e = ReadFileError indexFile)
         \/ exists raw,
              let d := diffImages (prevImagesOf (cache s) relDir) currentImages in
              files s !! indexFile = Some (Text raw) /\
              (added d + changed d + deleted d =? 0) = false /\
              valid (parseFrontmatter (FRONTMATTER_DELIM CONFIG) raw) = true /\
              isNewerISO (formatLocalISO (tz w) (now w relDir))
                (currentLastmod (parseFrontmatter (FRONTMATTER_DELIM CONFIG) raw)) = true /\
              DRY_RUN = false /\ canWrite w indexFile = false /\
              e = WriteFileError indexFile)).

(** The body of the inner loop of [main]; the loop-carried value is
    [anyFound]. *)
Definition mainStep (anyFound : bool) (dir : str) : M str bool :=
  match statSync w dir with
  | None => mret anyFound
  | Some statsDir =>
      if negb (st_isDirectory statsDir) then mret anyFound
      else
        modifyStats incrTotal;;
        let clean := cleanDir dir in
        let absDir := resolve w clean in
        processBundle absDir;;
        mret true
  end.

Definition main : M str unit :=
  emit LogHeader;;
  anyFound ← forEach TARGET_DIRS
    (fun anyFound pattern => forEach (glob w pattern) mainStep anyFound) false;
  (if negb anyFound then emit LogNoneFound else mret tt);;
  (if negb DRY_RUN then
     s ← get;
     writeCacheFile w CACHE_PATH (CacheJson CACHE_VERSION (Some (cache s)))
   else emit LogDryRunCache);;
  s' ← get;
  emit (LogFooter (stats s')).

(** The whole script: load the cache, run [main], exit. *)
Definition script (files0 : gmap str FileContent) (cacheFile0 : option (CacheFile str))
  : Z * State str :=
  runMain main (initialState CACHE_VERSION files0 cacheFile0).

End Script.

End Hash.

(** ** Auxiliary definitions used to state further facts *)


Section DiffAux.

Context {F : Type} `{EqDecision F}.

(** Whether the key has an entry on both sides and the two entries differ
    in the fingerprint or in the size. *)
Definition entryChanged (prevImages currentImages : gmap str (Entry F)) (key : str)
  : bool :=
  match prevImages !! key, currentImages !! key with
  | Some prev, Some curr =>
      bool_decide (fp prev <> fp curr \/ e_size prev <> e_size curr)
  | _, _ => false
  end.

(** The keys of the entries that changed. *)
Definition changedKeys (prevImages currentImages : gmap str (Entry F)) : gset str :=
  filter (fun key => Is_true (entryChanged prevImages currentImages key))
    (dom currentImages).

End DiffAux.

Section ScanAux.

Variable w : World.
Variable EXTENSIONS : list str.
Variable maxDepth : Z.

(** The loop of [walk] over the entries of [current], with the recursive
    call as a parameter (see [walk_eq]). *)
Fixpoint walkLoop (rec : str -> Z -> list str -> option (Result (list str)))
    (current : str) (depth : Z) (entries : list Dirent) (found : list str)
  : option (Result (list str)) :=
  match entries with
  | [] => Some (Ok found)
  | entry :: rest =>
      let full := path_join current (name entry) in
      match kind entry with
      | KindFile =>
          if hasImageExtension w EXTENSIONS (name entry)
          then walkLoop rec current depth rest (found ++ [relative w full])
          else walkLoop rec current depth rest found
      | KindDirectory =>
          if depth + 1 <? maxDepth then
            match rec full (depth + 1) found with
            | Some (Ok found') => walkLoop rec current depth rest found'
            | other => other
            end
          else walkLoop rec current depth rest found
      | KindOther => walkLoop rec current depth rest found
      end
  end.

(** [scannedFrom current depth c d]: the call [walk(current, depth)] leads
    to the call [walk(c, d)]. *)
Inductive scannedFrom : str -> Z -> str -> Z -> Prop :=
  | scanned_here current depth : scannedFrom current depth current depth
  | scanned_below current depth entries entry c d :
      readdir w current = Some entries -> entry ∈ entries ->
      kind entry = KindDirectory -> depth + 1 < maxDepth ->
      scannedFrom (path_join current (name entry)) (depth + 1) c d ->
      scannedFrom current depth c d.

(** [rel] is the path of an image file in a directory that
    [walk(current, depth)] lists. *)
Definition foundIn (current : str) (depth : Z) (rel : str) : Prop :=
  exists c d entries entry,
    scannedFrom current depth c d /\ readdir w c = Some entries /\
    entry ∈ entries /\ kind entry = KindFile /\
    hasImageExtension w EXTENSIONS (name entry) = true /\
    rel = relative w (path_join c (name entry)).

(** [e] is the error of a directory that [walk(current, depth)] comes to
    and that cannot be listed. *)
Definition unlistableIn (current : str) (depth : Z) (e : Error) : Prop :=
  exists c d, scannedFrom current depth c d /\ readdir w c = None /\ e = ReaddirError c.

(** The image files among the entries of [current], in order. *)
Definition imageFilesOf (current : str) (entries : list Dirent) : list str :=
  List.map (fun entry => relative w (path_join current (name entry)))
    (List.filter
       (fun entry =>
          match kind entry with
          | KindFile => hasImageExtension w EXTENSIONS (name entry)
          | _ => false
          end) entries).

(** What one entry of [current] contributes. *)
Definition entryYields (current : str) (depth : Z) (entry : Dirent) (rel : str) : Prop :=
  (kind entry = KindFile /\ hasImageExtension w EXTENSIONS (name entry) = true /\
   rel = relative w (path_join current (name entry)))
  \/ (kind entry = KindDirectory /\ depth + 1 < maxDepth /\
      foundIn (path_join current (name entry)) (depth + 1) rel).

(** The specification of a call of [walk], as a property of a function. *)
Definition walkSpec (rec : str -> Z -> list str -> option (Result (list str))) : Prop :=
  forall current depth found,
    match rec current depth found with
    | Some (Ok found') =>
        (exists new, found' = found ++ new /\
           forall rel, rel ∈ new <-> foundIn current depth rel) /\
        (forall e, ~ unlistableIn current depth e)
    | Some (Throw e) => unlistableIn current depth e
    | None => True
    end.

End ScanAux.

(** Whether [main] takes a path for a bundle directory. *)
Definition isBundleDir (w : World) (dir : str) : bool :=
  match statSync w dir with
  | Some statsDir => st_isDirectory statsDir
  | None => false
  end.

(** The descriptor of the bundle that [main] processes for a path. *)
Definition indexFileOf (w : World) (dir : str) : str :=
  path_join (resolve w (cleanDir dir)) (lit "index.md").

(** The counters of the statistics are not negative, and the bundles that
    were updated, unchanged or without images are among the bundles
    counted. *)
Definition statsConsistent (st : Stats) : Prop :=
  0 <= updatedBundles st /\ 0 <= unchangedBundles st /\ 0 <= noImageBundles st /\
  0 <= totalAdded st /\ 0 <= totalChanged st /\ 0 <= totalDeleted st /\
  updatedBundles st + unchangedBundles st + noImageBundles st <= totalBundles st.

(** The counters before and after the processing of one bundle. *)
Definition statsStep (st st' : Stats) : Prop :=
  totalBundles st' = totalBundles st /\
  updatedBundles st <= updatedBundles st' /\
  unchangedBundles st <= unchangedBundles st' /\
  noImageBundles st <= noImageBundles st' /\
  totalAdded st <= totalAdded st' /\ totalChanged st <= totalChanged st' /\
  totalDeleted st <= totalDeleted st' /\
  updatedBundles st' + unchangedBundles st' + noImageBundles st'
    <= updatedBundles st + unchangedBundles st + noImageBundles st + 1.

Section Settled.

Variable CONFIG : Config.
Variable w : World.





End Settled.

(** ** The git generation

    The oldest generation of the script takes the date from the git
    history; it keeps no cache, counts nothing and has no dry run.  Its
    state is the file store alone, threaded explicitly; what it prints is
    determined by the return point that a bundle reaches, the [Outcome]. *)

Module Git.

(** What the script reads of the result of [spawnSync]: the exit status
    ([None] when there is none) and the standard output. *)
Record SpawnResult := { status : option Z; stdout : str }.

(** The return point of [processBundle] that a bundle reaches.  [noImages]
    records the warning for a bundle without images, [gitAdded] the call of
    git add. *)
Inductive Outcome :=
  | NoIndex
  | NoCommit (noImages : bool)
  | Invalid (noImages : bool)
  | Current (noImages : bool) (lastmod : str)
  | Updated (noImages : bool) (current lastmod : str) (gitAdded : bool).

(** This generation pushes the joined path [full], not the path relative
    to the working directory. *)
Definition fullPaths (w : World) : World :=
  {| glob := glob w; statSync := statSync w; readdir := readdir w;
     hashFile := hashFile w; canWrite := canWrite w; resolve := resolve w;
     relative := fun p => p; toLowerCase := toLowerCase w; tz := tz w;
     now := now w |}.

Section Script.

Variable CONFIG : Config.
Variable w : World.
(** [spawnSync(git, args, ...)] *)
Variable spawnGit : list str -> SpawnResult.

Definition TARGET_DIRS : list str := targetDirs CONFIG.
Definition EXTENSIONS : list str := List.map (toLowerCase w) (extensions CONFIG).
Definition MAXDEPTH : Z := maxDepth CONFIG.
Definition GIT_ADD_ENABLED : bool := gitAdd CONFIG.

Definition getImageFiles (dir : str) (maxDepth : Z) : Result (list str) :=
  match walk (fullPaths w) EXTENSIONS (Z.to_nat maxDepth) maxDepth dir 0 [] with
  | Some (Ok found) => Ok found
  | Some (Throw e) => Throw e
  | None => Ok []
  end.

Definition getLastGitCommitDate (dir : str) (images : list str) : option str :=
  let args := [lit "log"; lit "-1"; lit "--format=%cI"; lit "--"; dir] ++ images in
  let res := spawnGit args in
  match status res with
  | Some 0 =>
      match trim (stdout res) with
      | [] => None
      | out => Some out
      end
  | _ => None
  end.

(** The lines between reading the descriptor and writing it are the bodies
    of [parseFrontmatter] and [buildNewContent] of the later generations. *)
Definition processBundle (dir : str) (files : gmap str FileContent)
  : Result Outcome * gmap str FileContent :=
  let indexFile := path_join dir (lit "index.md") in
  match files !! indexFile with
  | None => (Ok NoIndex, files)
  | Some file =>
      match getImageFiles dir MAXDEPTH with
      | Throw e => (Throw e, files)
      | Ok images =>
          let noImages := (length images =? 0)%nat in
          match getLastGitCommitDate dir images with
          | None => (Ok (NoCommit noImages), files)
          | Some lastmod =>
              match file with
              | Unreadable => (Throw (ReadFileError indexFile), files)
              | Text raw =>
                  let fm := parseFrontmatter (FRONTMATTER_DELIM CONFIG) raw in
                  if negb (valid fm) then (Ok (Invalid noImages), files)
                  else if str_eqb (currentLastmod fm) lastmod
                  then (Ok (Current noImages lastmod), files)
                  else
                    let newContent :=
                      buildNewContent (FRONTMATTER_DELIM CONFIG)
                        (fmLines fm) (bodyLines fm) lastmod in
                    if canWrite w indexFile
                    then (Ok (Updated noImages (currentLastmod fm) lastmod GIT_ADD_ENABLED),
                          <[indexFile := Text newContent]> files)
                    else (Throw (WriteFileError indexFile), files)
              end
          end
      end
  end.

(** The loops of [main] over the directories; [log] collects the
    outcomes. *)
Fixpoint mainLoop (dirs : list str) (files : gmap str FileContent)
    (log : list (str * Outcome))
  : Result (list (str * Outcome)) * gmap str FileContent :=
  match dirs with
  | [] => (Ok log, files)
  | dir :: rest =>
      match statSync w dir with
      | None => mainLoop rest files log
      | Some statsDir =>
          if negb (st_isDirectory statsDir) then mainLoop rest files log
          else
            let clean := cleanDir dir in
            match processBundle clean files with
            | (Ok o, files') => mainLoop rest files' (log ++ [(clean, o)])
            | (Throw e, files') => (Throw e, files')
            end
      end
  end.

Definition main (files : gmap str FileContent)
  : Result (list (str * Outcome)) * gmap str FileContent :=
  mainLoop (concat (List.map (glob w) TARGET_DIRS)) files [].

(** [main().catch(...)], with the exit code of the process. *)
Definition script (files : gmap str FileContent) : Z * gmap str FileContent :=
  match main files with
  | (Ok _, files') => (0, files')
  | (Throw _, files') => (1, files')
  end.

End Script.

End Git.

(** ** Concrete worlds used by the examples *)

Module Examples.

(** Lower case on the letters A to Z. *)
Definition asciiLower (s : str) : str :=
  List.map (fun c => if ((65 <=? c) && (c <=? 90))%N then (c + 32)%N else c) s.

Definition config : Config :=
  {| targetDirs := [lit "content/galleries/*/"];
     extensions := [lit "jpg"; lit "png"];
     maxDepth := 1;
     frontmatterDelim := lit "---";
     gitAdd := true |}.

Definition dirA : str := lit "content/galleries/a".
Definition dirB : str := lit "content/galleries/b".
Definition indexA : str := lit "content/galleries/a/index.md".
Definition indexB : str := lit "content/galleries/b/index.md".
Definition imgA : str := lit "content/galleries/a/one.jpg".
Definition imgB : str := lit "content/galleries/b/two.JPG".

Definition fileEntries (image : str) : list Dirent :=
  [ {| name := lit "index.md"; kind := KindFile |};
    {| name := image; kind := KindFile |};
    {| name := lit "notes.txt"; kind := KindFile |};
    {| name := lit "raw"; kind := KindDirectory |} ].

(** Two bundles, [a] and [b], with one image each; UTC.  [listA] tells
    whether the directory of [a] can be listed, [mtimeA] is the modification
    time of the image of [a]. *)
Definition world (listA : bool) (writable : bool) (mtimeA : Z) : World :=
  {| glob := fun pattern =>
       if decide (pattern = lit "content/galleries/*/")
       then [lit "content/galleries/a/"; lit "content/galleries/b/"] else [];
     statSync := fun path =>
       if decide (path = lit "content/galleries/a/") then
         Some {| st_isDirectory := true; st_mtimeMs := 0; st_size := 4096 |}
       else if decide (path = lit "content/galleries/b/") then
         Some {| st_isDirectory := true; st_mtimeMs := 0; st_size := 4096 |}
       else if decide (path = imgA) then
         Some {| st_isDirectory := false; st_mtimeMs := mtimeA; st_size := 100 |}
       else if decide (path = imgB) then
         Some {| st_isDirectory := false; st_mtimeMs := 1748736000500; st_size := 50 |}
       else None;
     readdir := fun path =>
       if decide (path = dirA) then
         if listA then Some (fileEntries (lit "one.jpg")) else None
       else if decide (path = dirB) then Some (fileEntries (lit "two.JPG"))
       else None;
     hashFile := fun path =>
       if decide (path = imgA) then Some (lit "aa11")
       else if decide (path = imgB) then Some (lit "bb22") else None;
     canWrite := fun _ => writable;
     resolve := fun p => p;
     relative := fun p => p;
     toLowerCase := asciiLower;
     tz := fun _ => 0;
     now := fun _ => 1750000000000 |}.

Definition descriptor (lastmod : str) : str :=
  join_nl [lit "---"; lit "title: Gallery"; lastmodLine lastmod; lit "---"; lit "Text"].

(** A descriptor with two lines in front of its first delimiter. *)
Definition descriptorWithPreamble : str :=
  join_nl [lit "<!-- draft -->"; lit ""; lit "---"; lit "title: Gallery";
           lit "---"; lit "Text"].

Definition oldLastmod : str := lit "2024-01-01T00:00:00+00:00".

Definition files0 : gmap str FileContent :=
  {[ indexA := Text (descriptor oldLastmod); indexB := Text (descriptor oldLastmod) ]}.

(** The same store with the descriptor of [a] unreadable. *)
Definition filesUnreadableA : gmap str FileContent :=
  {[ indexA := Unreadable; indexB := Text (descriptor oldLastmod) ]}.

(** A cache file with the entry of a bundle that is gone from the tree. *)
Definition goneDir : str := lit "content/galleries/gone".

Definition loaded0 : gmap str (Bundle Z) :=
  {[ goneDir := {| images := Some {[ lit "content/galleries/gone/x.jpg" :=
                                      {| fp := 1700000000000; e_size := 7 |} ]} |} ]}.

(** The image of [a] is older than the epoch by one second, and the
    descriptor of [a] carries exactly that time. *)
Definition beforeEpoch : str := lit "1969-12-31T23:59:59+00:00".

Definition filesBeforeEpoch : gmap str FileContent :=
  {[ indexA := Text (descriptor beforeEpoch) ]}.

End Examples.

(** ** Further data used by the examples *)

Module MoreExamples.

Import Examples.

(** The two bundles, with the image of [a] modified on 2025-06-01. *)
Definition world0 : World := world true true 1748736000000.


(** The inventory of [a] in the checksum generation. *)
Definition hashInventoryA : gmap str (Entry str) :=
  {[ imgA := {| fp := lit "aa11"; e_size := 100 |} ]}.

(** A git history that answers every query with one date, and a directory
    that is no git repository. *)
Definition gitDate : str := lit "2025-06-01T10:00:00+02:00".

Definition gitAnswers : list str -> Git.SpawnResult :=
  fun _ => {| Git.status := Some 0; Git.stdout := gitDate ++ [nl] |}.

Definition gitFails : list str -> Git.SpawnResult :=
  fun _ => {| Git.status := Some 128; Git.stdout := [] |}.

End MoreExamples.

(** ** Facts about lines *)

Section LineFacts.

Lemma split_nl_nonempty s : split_nl s <> [].
Proof.
  destruct s as [|c s]; simpl; [done|].
  destruct (c =? nl)%N; [done|]. by destruct (split_nl s).
Qed.

Lemma split_nl_no_nl s : Forall (fun l => nl ∉ l) (split_nl s).
Proof.
  induction s as [|c s IH]; simpl.
  - constructor; [apply not_elem_of_nil | constructor].
  - destruct (N.eqb_spec c nl) as [->|Hc].
    + constructor; [apply not_elem_of_nil | done].
    + destruct (split_nl s) as [|l ls].
      * constructor; [|constructor].
        apply not_elem_of_cons; split; [done | apply not_elem_of_nil].
      * apply Forall_cons in IH as [Hl Hls]. constructor; [|done].
        apply not_elem_of_cons; split; [done | done].
Qed.

Lemma split_nl_line a b :
  nl ∉ a -> split_nl (a ++ nl :: b) = a :: split_nl b.
Proof.
  induction a as [|c a IH]; intros Ha; simpl.
  - done.
  - apply not_elem_of_cons in Ha as [Hc Ha].
    destruct (N.eqb_spec c nl) as [->|_]; [done|].
    by rewrite IH.
Qed.

Lemma split_nl_last a : nl ∉ a -> split_nl a = [a].
Proof.
  induction a as [|c a IH]; intros Ha; simpl; [done|].
  apply not_elem_of_cons in Ha as [Hc Ha].
  destruct (N.eqb_spec c nl) as [->|_]; [done|].
  by rewrite IH.
Qed.

Lemma split_join ls :
  ls <> [] -> Forall (fun l => nl ∉ l) ls -> split_nl (join_nl ls) = ls.
Proof.
  induction ls as [|l ls IH]; [done|]. intros _ Hall.
  inversion Hall as [|? ? Hl Hls]; subst.
  destruct ls as [|l' ls].
  - simpl. by apply split_nl_last.
  - change (join_nl (l :: l' :: ls)) with (l ++ nl :: join_nl (l' :: ls)).
    rewrite split_nl_line by done. by rewrite IH.
Qed.

Lemma join_split s : join_nl (split_nl s) = s.
Proof.
  induction s as [|c s IH]; simpl; [done|].
  destruct (N.eqb_spec c nl) as [->|Hc].
  - pose proof (split_nl_nonempty s) as Hne.
    destruct (split_nl s) as [|l ls]; [done|].
    simpl in *. by rewrite IH.
  - pose proof (split_nl_nonempty s) as Hne.
    destruct (split_nl s) as [|l ls]; [done|].
    destruct ls; simpl in *; by rewrite <- IH.
Qed.

Lemma join_nl_cons l ls :
  ls <> [] -> join_nl (l :: ls) = l ++ nl :: join_nl ls.
Proof. by destruct ls. Qed.

Lemma join_nl_orEmptyLine ls : join_nl (orEmptyLine ls) = join_nl ls.
Proof. by destruct ls. Qed.

Lemma orEmptyLine_nonempty ls : orEmptyLine ls <> [].
Proof. by destruct ls. Qed.

End LineFacts.

(** ** Facts about [trim] *)

Section TrimFacts.

Lemma dropWhile_sublist {A} (p : A -> bool) l x : x ∈ dropWhile p l -> x ∈ l.
Proof.
  induction l as [|y l IH]; simpl; [done|].
  destruct (p y); set_solver.
Qed.

Lemma dropWhile_idem {A} (p : A -> bool) l :
  dropWhile p (dropWhile p l) = dropWhile p l.
Proof.
  induction l as [|y l IH]; simpl; [done|].
  destruct (p y) eqn:E; [done|]. simpl. by rewrite E.
Qed.

Lemma dropWhile_head_false {A} (p : A -> bool) x l :
  p x = false -> dropWhile p (x :: l) = x :: l.
Proof. intros H. simpl. by rewrite H. Qed.

Lemma trim_elem c s : c ∈ trim s -> c ∈ s.
Proof.
  unfold trim, trimEnd, trimStart. intros H.
  rewrite elem_of_reverse in H. apply dropWhile_sublist in H.
  rewrite elem_of_reverse in H. by apply dropWhile_sublist in H.
Qed.

(** A string that starts and ends with a non-blank code unit is its own trim. *)
Lemma trim_fixed a s b :
  isWhiteSpace a = false -> isWhiteSpace b = false ->
  trim (a :: s ++ [b]) = a :: s ++ [b].
Proof.
  intros Ha Hb. unfold trim, trimStart, trimEnd.
  rewrite dropWhile_head_false by done.
  change (a :: s ++ [b]) with ((a :: s) ++ [b]).
  rewrite reverse_snoc, dropWhile_head_false by done.
  by rewrite reverse_cons, reverse_involutive.
Qed.

Lemma dropWhile_snoc_false {A} (p : A -> bool) l x :
  p x = false -> exists l', dropWhile p (l ++ [x]) = l' ++ [x].
Proof.
  intros Hx. induction l as [|z l IH]; simpl.
  - rewrite Hx. by exists [].
  - destruct (p z) eqn:Ez; [done|]. by exists (z :: l).
Qed.

Lemma dropWhile_head {A} (p : A -> bool) l :
  match dropWhile p l with [] => True | x :: _ => p x = false end.
Proof.
  induction l as [|y l IH]; simpl; [done|].
  destruct (p y) eqn:E; [done|]. simpl. done.
Qed.

(** The result of [trim] does not start with a blank. *)
Lemma trimStart_trim s : trimStart (trim s) = trim s.
Proof.
  unfold trim, trimEnd, trimStart.
  pose proof (dropWhile_head isWhiteSpace s) as Hhd.
  destruct (dropWhile isWhiteSpace s) as [|c t]; [done|].
  rewrite reverse_cons.
  destruct (dropWhile_snoc_false isWhiteSpace (reverse t) c Hhd) as [l' ->].
  rewrite reverse_snoc. by apply dropWhile_head_false.
Qed.

Lemma trim_idem s : trim (trim s) = trim s.
Proof.
  unfold trim at 1. rewrite trimStart_trim.
  unfold trim, trimEnd. rewrite reverse_involutive, dropWhile_idem. done.
Qed.

End TrimFacts.

(** ** Facts about the descriptor editor *)

Section DescriptorFacts.

Variable DELIM : str.

Local Abbreviation isDelim := (isDelim DELIM).
Local Abbreviation delimIndicesFrom := (delimIndicesFrom DELIM).

Lemma delimIndices_from lines : delimIndices DELIM lines = delimIndicesFrom 0 lines.
Proof. done. Qed.

Lemma delimIndicesFrom_cons k l ls :
  delimIndicesFrom k (l :: ls) =
  (if isDelim l then [Z.of_nat k] else []) ++ delimIndicesFrom (S k) ls.
Proof.
  unfold delimIndicesFrom. rewrite imap_cons. simpl.
  replace (k + 0)%nat with k by lia.
  assert (Heq : imap ((fun (i : nat) (line : str) =>
                if isDelim line then Z.of_nat (k + i) else -1) ∘ S) ls
          = imap (fun (i : nat) (line : str) =>
                if isDelim line then Z.of_nat (S k + i) else -1) ls).
  { apply imap_ext. intros i x _. simpl.
    replace (k + S i)%nat with (S (k + i)) by lia. done. }
  rewrite Heq. destruct (isDelim l); simpl; [|done].
  destruct (Z.eqb_spec (Z.of_nat k) (-1)); [lia | done].
Qed.

Lemma delimIndicesFrom_skip k pre rest :
  Forall (fun l => isDelim l = false) pre ->
  delimIndicesFrom k (pre ++ rest) = delimIndicesFrom (k + length pre) rest.
Proof.
  revert k. induction pre as [|l pre IH]; intros k Hpre; simpl.
  - f_equal. lia.
  - apply Forall_cons in Hpre as [Hl Hpre].
    rewrite delimIndicesFrom_cons, Hl, IH by done. simpl.
    f_equal. lia.
Qed.

(** The first delimiter index determines a delimiter-free prefix. *)
Lemma delimIndicesFrom_first k lines a rest :
  delimIndicesFrom k lines = a :: rest ->
  exists pre d post,
    lines = pre ++ d :: post /\
    Forall (fun l => isDelim l = false) pre /\ isDelim d = true /\
    a = Z.of_nat (k + length pre) /\
    rest = delimIndicesFrom (k + length pre + 1) post.
Proof.
  revert k. induction lines as [|l ls IH]; intros k H; [done|].
  rewrite delimIndicesFrom_cons in H.
  destruct (isDelim l) eqn:El; simpl in H.
  - inversion H; subst. exists [], l, ls. simpl.
    replace (k + 0)%nat with k by lia.
    replace (k + 1)%nat with (S k) by lia. done.
  - destruct (IH _ H) as (pre & d & post & -> & Hpre & Hd & -> & ->).
    exists (l :: pre), d, post. simpl.
    split; [done|]. split; [by constructor|]. split; [done|].
    split; f_equal; lia.
Qed.

Lemma slice_middle {A} (pre fm post : list A) (d : A) :
  slice (pre ++ d :: fm ++ post) (Z.of_nat (length pre) + 1)
        (Z.of_nat (length pre + 1 + length fm)) = fm.
Proof.
  unfold slice, relIndex.
  rewrite !length_app. simpl length. rewrite !length_app.
  repeat match goal with |- context [?a <? 0] => destruct (Z.ltb_spec a 0); [lia|] end.
  rewrite !Z.min_l by lia.
  replace (Z.to_nat (Z.of_nat (length pre) + 1)) with (length (pre ++ [d]))
    by (rewrite length_app; simpl; lia).
  replace (pre ++ d :: fm ++ post) with ((pre ++ [d]) ++ fm ++ post)
    by (by rewrite <- app_assoc).
  rewrite drop_app_length.
  replace (Z.to_nat _) with (length fm) by lia.
  by rewrite take_app_length.
Qed.

Lemma slice_from_tail {A} (pre post : list A) :
  slice_from (pre ++ post) (Z.of_nat (length pre)) = post.
Proof.
  unfold slice_from, slice, relIndex. rewrite !length_app.
  repeat match goal with |- context [?a <? 0] => destruct (Z.ltb_spec a 0); [lia|] end.
  rewrite !Z.min_l by lia. rewrite Nat2Z.id, drop_app_length.
  apply take_ge. lia.
Qed.

(** [parseFrontmatter] on a text whose lines are: a delimiter-free preamble,
    a delimiter, a delimiter-free header, a delimiter, and a body. *)
Lemma parseFrontmatter_lines content pre d1 fm d2 body :
  split_nl content = pre ++ d1 :: fm ++ d2 :: body ->
  Forall (fun l => isDelim l = false) pre -> isDelim d1 = true ->
  Forall (fun l => isDelim l = false) fm -> isDelim d2 = true ->
  parseFrontmatter DELIM content =
    {| currentLastmod := extractLastmod fm; fmLines := fm;
       bodyLines := body; valid := true |}.
Proof.
  intros Hlines Hpre Hd1 Hfm Hd2. unfold parseFrontmatter.
  rewrite Hlines, delimIndices_from.
  rewrite delimIndicesFrom_skip, delimIndicesFrom_cons, Hd1 by done.
  rewrite delimIndicesFrom_skip, delimIndicesFrom_cons, Hd2 by done.
  cbn [app].
  match goal with
  | |- context [if ?a <=? ?b then _ else _] => destruct (Z.leb_spec a b); [lia|]
  end.
  assert (Hfm' : forall x y,
    x = Z.of_nat (length pre) + 1 -> y = Z.of_nat (length pre + 1 + length fm) ->
    slice (pre ++ d1 :: fm ++ d2 :: body) x y = fm).
  { intros x y -> ->. apply (slice_middle pre fm (d2 :: body) d1). }
  assert (Hbody' : forall x,
    x = Z.of_nat (length (pre ++ d1 :: fm ++ [d2])) ->
    slice_from (pre ++ d1 :: fm ++ d2 :: body) x = body).
  { intros x ->.
    replace (pre ++ d1 :: fm ++ d2 :: body) with ((pre ++ d1 :: fm ++ [d2]) ++ body).
    - apply slice_from_tail.
    - rewrite <- !app_assoc. simpl. by rewrite <- !app_assoc. }
  rewrite Hfm' by lia. rewrite Hbody'; [done|].
  rewrite !length_app. simpl. rewrite !length_app. simpl. lia.
Qed.

(** Conversely a valid parse exhibits that shape. *)
Lemma parseFrontmatter_valid content :
  valid (parseFrontmatter DELIM content) = true ->
  exists pre d1 d2,
    split_nl content =
      pre ++ d1 :: fmLines (parseFrontmatter DELIM content)
          ++ d2 :: bodyLines (parseFrontmatter DELIM content) /\
    Forall (fun l => isDelim l = false) pre /\ isDelim d1 = true /\
    Forall (fun l => isDelim l = false) (fmLines (parseFrontmatter DELIM content)) /\
    isDelim d2 = true /\
    currentLastmod (parseFrontmatter DELIM content)
      = extractLastmod (fmLines (parseFrontmatter DELIM content)).
Proof.
  intros Hv.
  assert (Hshape : exists pre d1 fm d2 body,
    split_nl content = pre ++ d1 :: fm ++ d2 :: body /\
    Forall (fun l => isDelim l = false) pre /\ isDelim d1 = true /\
    Forall (fun l => isDelim l = false) fm /\ isDelim d2 = true).
  { unfold parseFrontmatter in Hv. rewrite delimIndices_from in Hv.
    destruct (delimIndicesFrom 0 (split_nl content)) as [|a [|b rest]] eqn:E;
      [done|done|].
    apply delimIndicesFrom_first in E
      as (pre & d1 & post & Hl & Hpre & Hd1 & _ & Hrest).
    symmetry in Hrest. apply delimIndicesFrom_first in Hrest
      as (fm & d2 & body & -> & Hfm & Hd2 & _ & _).
    by exists pre, d1, fm, d2, body. }
  destruct Hshape as (pre & d1 & fm & d2 & body & Hl & Hpre & Hd1 & Hfm & Hd2).
  rewrite (parseFrontmatter_lines _ _ _ _ _ _ Hl Hpre Hd1 Hfm Hd2). simpl.
  by exists pre, d1, d2.
Qed.

(** A delimiter that some line matches is trimmed and has no line feed. *)
Lemma isDelim_DELIM_trim d : isDelim d = true -> trim DELIM = DELIM.
Proof.
  unfold isDelim, str_eqb. intros H. apply bool_decide_eq_true in H.
  rewrite <- H. apply trim_idem.
Qed.

Lemma isDelim_DELIM_no_nl d : nl ∉ d -> isDelim d = true -> nl ∉ DELIM.
Proof.
  unfold isDelim, str_eqb. intros Hd H. apply bool_decide_eq_true in H.
  rewrite <- H. intros Hin. by apply trim_elem in Hin.
Qed.

Lemma isDelim_DELIM : trim DELIM = DELIM -> isDelim DELIM = true.
Proof. intros H. unfold isDelim, str_eqb. by apply bool_decide_eq_true. Qed.

(** *** The replacement loop *)

Lemma fold_replaceStep_done X fm acc :
  fold_left (replaceStep X) fm (acc, true) = (acc ++ fm, true).
Proof.
  revert acc. induction fm as [|l fm IH]; intros acc; simpl.
  - by rewrite app_nil_r.
  - rewrite IH. by rewrite <- app_assoc.
Qed.

Lemma newFmLines_acc X fm acc :
  (let '(newFm, replaced) := fold_left (replaceStep X) fm (acc, false) in
   if replaced then newFm else newFm ++ [lastmodLine X])
  = acc ++ replaceFirst fm X.
Proof.
  revert acc. induction fm as [|l fm IH]; intros acc; simpl; [done|].
  destruct (isLastmodLine l) eqn:El.
  - rewrite fold_replaceStep_done. by rewrite <- app_assoc.
  - rewrite IH. by rewrite <- app_assoc.
Qed.

Lemma newFmLines_replaceFirst fm X : newFmLines fm X = replaceFirst fm X.
Proof. unfold newFmLines. apply (newFmLines_acc X fm []). Qed.

Lemma isLastmodLine_lastmodLine X : isLastmodLine (lastmodLine X) = true.
Proof. done. Qed.

Lemma replaceFirst_nonempty fm X : replaceFirst fm X <> [].
Proof. destruct fm as [|l fm]; simpl; [done|]. by destruct (isLastmodLine l). Qed.

Lemma replaceFirst_Forall (P : str -> Prop) fm X :
  Forall P fm -> P (lastmodLine X) -> Forall P (replaceFirst fm X).
Proof.
  intros Hfm HX. induction Hfm as [|l fm Hl Hfm IH]; simpl.
  - by constructor.
  - destruct (isLastmodLine l); by constructor.
Qed.



Lemma extractLastmod_replaceFirst fm X :
  extractLastmod (replaceFirst fm X)
  = trim (remove_dquotes (replace_lastmod_prefix (lastmodLine X))).
Proof.
  induction fm as [|l fm IH]; simpl; [done|].
  destruct (isLastmodLine l) eqn:El; simpl; [done|]. by rewrite El.
Qed.

Lemma replace_lastmod_prefix_lastmodLine X :
  replace_lastmod_prefix (lastmodLine X) = dquote :: X ++ [dquote].
Proof. done. Qed.

Lemma remove_dquotes_id X : dquote ∉ X -> remove_dquotes X = X.
Proof.
  induction X as [|c X IH]; intros H; simpl; [done|].
  apply not_elem_of_cons in H as [Hc HX].
  destruct (N.eqb_spec c dquote) as [->|_]; [done|]. simpl. by rewrite IH.
Qed.

Lemma remove_dquotes_quoted X :
  dquote ∉ X -> remove_dquotes (dquote :: X ++ [dquote]) = X.
Proof.
  intros H. unfold remove_dquotes. simpl. rewrite List.filter_app. simpl.
  rewrite app_nil_r. by apply remove_dquotes_id.
Qed.

Lemma lastmodLine_no_nl X : nl ∉ X -> nl ∉ lastmodLine X.
Proof.
  intros H. unfold lastmodLine. rewrite elem_of_app, elem_of_cons, elem_of_app.
  intros [Hin|[Hin|[Hin|Hin]]]; [|done|done|].
  - vm_compute in Hin. repeat (apply elem_of_cons in Hin as [Hin|Hin]; [done|]).
    by apply elem_of_nil in Hin.
  - apply elem_of_cons in Hin as [Hin|Hin]; [done|]. by apply elem_of_nil in Hin.
Qed.

Lemma trim_lastmodLine X : trim (lastmodLine X) = lastmodLine X.
Proof.
  unfold lastmodLine.
  change (lit "lastmod: " ++ dquote :: X ++ [dquote])
    with (108%N :: (lit "astmod: " ++ dquote :: X) ++ [dquote]).
  by apply trim_fixed.
Qed.

End DescriptorFacts.

(** ** The descriptor editor: rendering and parsing again *)

Section DescriptorRoundTrip.

Variable DELIM : str.

Lemma join_nl_app a b :
  a <> [] -> b <> [] -> join_nl (a ++ b) = join_nl a ++ nl :: join_nl b.
Proof.
  intros Ha Hb. induction a as [|l a IH]; [done|].
  destruct a as [|l' a].
  - simpl app. by rewrite join_nl_cons.
  - change ((l :: l' :: a) ++ b) with (l :: ((l' :: a) ++ b)).
    rewrite join_nl_cons by done.
    rewrite (join_nl_cons l (l' :: a)) by done.
    rewrite IH by done. by rewrite <- app_assoc.
Qed.

(** The text produced by [buildNewContent], as lines. *)
Lemma buildNewContent_join fm body X :
  buildNewContent DELIM fm body X
  = join_nl (DELIM :: replaceFirst fm X ++ DELIM :: orEmptyLine body).
Proof.
  unfold buildNewContent. rewrite newFmLines_replaceFirst.
  pose proof (replaceFirst_nonempty fm X) as Hne.
  rewrite <- (join_nl_orEmptyLine body).
  rewrite join_nl_cons by (by destruct (replaceFirst fm X)).
  rewrite join_nl_app by done.
  rewrite join_nl_cons by apply orEmptyLine_nonempty.
  rewrite <- !app_assoc. simpl. by rewrite <- !app_assoc.
Qed.

Lemma buildNewContent_lines fm body X :
  nl ∉ DELIM -> nl ∉ X ->
  Forall (fun l => nl ∉ l) fm -> Forall (fun l => nl ∉ l) body ->
  split_nl (buildNewContent DELIM fm body X)
  = DELIM :: replaceFirst fm X ++ DELIM :: orEmptyLine body.
Proof.
  intros HD HX Hfm Hbody. rewrite buildNewContent_join.
  apply split_join; [done|].
  constructor; [done|]. apply Forall_app. split.
  - apply replaceFirst_Forall; [done|]. by apply lastmodLine_no_nl.
  - constructor; [done|]. destruct body; simpl; [|done].
    constructor; [apply not_elem_of_nil | constructor].
Qed.

(** Header and body of a valid parse are free of line feeds, the header is
    free of delimiter lines, and the delimiter is one that a line can match. *)
Lemma parseFrontmatter_valid_wf content :
  valid (parseFrontmatter DELIM content) = true ->
  Forall (fun l => nl ∉ l) (fmLines (parseFrontmatter DELIM content)) /\
  Forall (fun l => nl ∉ l) (bodyLines (parseFrontmatter DELIM content)) /\
  Forall (fun l => isDelim DELIM l = false) (fmLines (parseFrontmatter DELIM content)) /\
  (nl ∉ DELIM) /\ trim DELIM = DELIM.
Proof.
  intros Hv.
  destruct (parseFrontmatter_valid DELIM content Hv)
    as (pre & d1 & d2 & Hl & Hpre & Hd1 & Hfm & Hd2 & _).
  pose proof (split_nl_no_nl content) as Hnl. rewrite Hl in Hnl.
  apply Forall_app in Hnl as [_ Hnl].
  apply Forall_cons in Hnl as [Hnd1 Hnl].
  apply Forall_app in Hnl as [Hnfm Hnl].
  apply Forall_cons in Hnl as [Hnd2 Hnbody].
  split; [done|]. split; [done|]. split; [done|]. split.
  - by apply (isDelim_DELIM_no_nl DELIM d1).
  - by apply (isDelim_DELIM_trim DELIM d1).
Qed.

(** Parsing a rendered descriptor. *)
Lemma parse_buildNewContent fm body X :
  nl ∉ DELIM -> trim DELIM = DELIM -> nl ∉ X -> DELIM <> lastmodLine X ->
  Forall (fun l => nl ∉ l) fm -> Forall (fun l => nl ∉ l) body ->
  Forall (fun l => isDelim DELIM l = false) fm ->
  parseFrontmatter DELIM (buildNewContent DELIM fm body X)
  = {| currentLastmod := trim (remove_dquotes (dquote :: X ++ [dquote]));
       fmLines := replaceFirst fm X;
       bodyLines := orEmptyLine body;
       valid := true |}.
Proof.
  intros HD HDt HX HDX Hfm Hbody Hnd.
  rewrite (parseFrontmatter_lines DELIM _ [] DELIM (replaceFirst fm X) DELIM
             (orEmptyLine body)).
  - by rewrite extractLastmod_replaceFirst, replace_lastmod_prefix_lastmodLine.
  - by apply buildNewContent_lines.
  - constructor.
  - by apply isDelim_DELIM.
  - apply replaceFirst_Forall; [done|].
    unfold isDelim, str_eqb. rewrite trim_lastmodLine.
    apply bool_decide_eq_false. congruence.
  - by apply isDelim_DELIM.
Qed.

End DescriptorRoundTrip.

(** ** Facts about the diff engine *)

Section DiffFacts.

Context {F : Type} `{EqDecision F}.

(** The [added] counter of the first loop does not depend on the [changed]
    counter: it counts the keys that are missing from [prevKeys]. *)
Lemma diffStep_added (prevKeys : gset str) (prevImages currentImages : gmap str (Entry F))
    (keys : list str) :
  fst (foldr (diffStep prevKeys prevImages currentImages) (0, 0) keys)
  = foldr (deletedStep prevKeys) 0 keys.
Proof.
  induction keys as [|k keys IH]; simpl; [done|].
  destruct (foldr (diffStep prevKeys prevImages currentImages) (0, 0) keys)
    as [a c] eqn:E.
  simpl in IH. subst a. unfold diffStep, deletedStep.
  destruct (decide (k ∉ prevKeys)); [done|].
  destruct (prevImages !! k), (currentImages !! k); try done.
  by destruct (decide _).
Qed.

Lemma diffImages_added (A B : gmap str (Entry F)) :
  added (diffImages A B) = set_fold (deletedStep (dom A)) 0 (dom B).
Proof.
  unfold diffImages.
  pose proof (diffStep_added (dom A) A B (elements (dom B))) as Hfst.
  unfold set_fold. simpl.
  destruct (foldr (diffStep (dom A) A B) (0, 0) (elements (dom B))) as [a c].
  simpl in *. done.
Qed.

Lemma diffImages_deleted (A B : gmap str (Entry F)) :
  deleted (diffImages A B) = set_fold (deletedStep (dom B)) 0 (dom A).
Proof.
  unfold diffImages.
  by destruct (set_fold (diffStep (dom A) A B) (0, 0) (dom B)).
Qed.

(** What the second loop counts: the keys outside [currKeys]. *)
Lemma deletedStep_count (currKeys prevKeys : gset str) :
  set_fold (deletedStep currKeys) 0 prevKeys
  = Z.of_nat (size (prevKeys ∖ currKeys)).
Proof.
  apply (set_fold_ind_L (fun r X => r = Z.of_nat (size (X ∖ currKeys)))).
  - by rewrite empty_difference_L, size_empty.
  - intros x Y r Hx ->. unfold deletedStep.
    rewrite difference_union_distr_l_L.
    destruct (decide (x ∉ currKeys)) as [Hout|Hin].
    2: { apply dec_stable in Hin.
         rewrite (subseteq_empty_difference_L {[x]} currKeys), (left_id_L ∅ (∪)); [done|].
         by apply singleton_subseteq_l. }
    + rewrite (difference_disjoint_L {[x]} currKeys) by (by apply disjoint_singleton_l).
      rewrite (size_union ({[x]} : gset str) (Y ∖ currKeys)), size_singleton; [lia|].
      apply disjoint_singleton_l. intros Hin. apply elem_of_difference in Hin as [? _].
      done.
Qed.

(** The counts of [diffImages], as sizes of sets of keys. *)
Lemma diffImages_counts (A B : gmap str (Entry F)) :
  added (diffImages A B) = Z.of_nat (size (dom B ∖ dom A)) /\
  deleted (diffImages A B) = Z.of_nat (size (dom A ∖ dom B)).
Proof.
  rewrite diffImages_added, diffImages_deleted, !deletedStep_count. done.
Qed.

End DiffFacts.

(** The scenario of an added image: previous inventory with one image,
    current inventory with that image and a new one. *)
Example diffImages_one_added :
  let a : Entry Z := {| fp := 1700000000000; e_size := 100 |} in
  let b : Entry Z := {| fp := 1700000000001; e_size := 50 |} in
  diffImages {[ lit "a.jpg" := a ]} {[ lit "a.jpg" := a; lit "b.jpg" := b ]}
  = {| added := 1; changed := 0; deleted := 0 |}.
Proof. vm_compute. reflexivity. Qed.

(** The same inventory on both sides: no difference. *)
Lemma diffImages_refl {F : Type} `{EqDecision F} (A : gmap str (Entry F)) :
  diffImages A A = {| added := 0; changed := 0; deleted := 0 |}.
Proof.
  pose proof (diffImages_counts A A) as [Ha Hd].
  rewrite difference_diag_L, size_empty in Ha, Hd.
  assert (Hc : changed (diffImages A A) = 0).
  { unfold diffImages.
    assert (Hfold : forall keys,
      snd (foldr (diffStep (dom A) A A) (0, 0) keys) = 0).
    { induction keys as [|k keys IH]; [done|]. simpl.
      destruct (foldr (diffStep (dom A) A A) (0, 0) keys) as [a c]. simpl in IH.
      subst c. unfold diffStep. destruct (decide (k ∉ dom A)); [done|].
      destruct (A !! k); [|done]. destruct (decide _) as [[?|?]|?]; done. }
    specialize (Hfold (elements (dom A))). unfold set_fold. simpl.
    by destruct (foldr _ _ _). }
  destruct (diffImages A A) as [a c d]. simpl in *. by subst.
Qed.


(** ** Facts about the calendar arithmetic *)

Module JSDateFacts.
Import JSDate.

Lemma DayFromYear_cycle a b c e :
  0 <= b <= 3 -> 0 <= c <= 24 -> 0 <= e <= 3 ->
  DayFromYear (2001 + 400 * a + 100 * b + 4 * c + e)
  = 11323 + 146097 * a + 36524 * b + 1461 * c + 365 * e.
Proof.
  intros Hb Hc He. unfold DayFromYear.
  replace ((2001 + 400 * a + 100 * b + 4 * c + e - 1969) / 4)
    with (8 + 100 * a + 25 * b + c)
    by (apply (Z.div_unique _ _ _ e); lia).
  replace ((2001 + 400 * a + 100 * b + 4 * c + e - 1901) / 100)
    with (1 + 4 * a + b)
    by (apply (Z.div_unique _ _ _ (4 * c + e)); lia).
  replace ((2001 + 400 * a + 100 * b + 4 * c + e - 1601) / 400)
    with (1 + a)
    by (apply (Z.div_unique _ _ _ (100 * b + 4 * c + e)); lia).
  lia.
Qed.

(** [YearFromDay d] is the year whose days contain [d]. *)
Lemma YearFromDay_spec d :
  DayFromYear (YearFromDay d) <= d < DayFromYear (YearFromDay d + 1).
Proof.
  unfold YearFromDay.
  set (n := d - 11323).
  pose proof (Z.div_mod n 146097 ltac:(lia)) as Hn.
  pose proof (Z.mod_pos_bound n 146097 ltac:(lia)) as Hr400.
  set (a := n / 146097) in *. set (r400 := n mod 146097) in *.
  pose proof (Z.div_mod r400 36524 ltac:(lia)) as H100.
  pose proof (Z.mod_pos_bound r400 36524 ltac:(lia)) as Hr100.
  assert (Hq100 : 0 <= r400 / 36524 <= 4).
  { split; [apply Z.div_pos; lia|].
    apply Z.lt_succ_r. apply Z.div_lt_upper_bound; lia. }
  set (b := Z.min (r400 / 36524) 3).
  assert (Hb : 0 <= b <= 3) by (unfold b; lia).
  set (r100 := r400 - b * 36524).
  assert (Hr100' : 0 <= r100 <= 36524) by (unfold r100, b; lia).
  assert (Hr100b : b < 3 -> r100 < 36524) by (unfold r100, b; lia).
  pose proof (Z.div_mod r100 1461 ltac:(lia)) as H4.
  pose proof (Z.mod_pos_bound r100 1461 ltac:(lia)) as Hr4.
  assert (Hc : 0 <= r100 / 1461 <= 24).
  { split; [apply Z.div_pos; lia|].
    apply Z.lt_succ_r. apply Z.div_lt_upper_bound; lia. }
  set (c := r100 / 1461) in *. set (r4 := r100 mod 1461) in *.
  assert (Hq1 : 0 <= r4 / 365 <= 4).
  { split; [apply Z.div_pos; lia|].
    apply Z.lt_succ_r. apply Z.div_lt_upper_bound; lia. }
  pose proof (Z.div_mod r4 365 ltac:(lia)) as H1.
  pose proof (Z.mod_pos_bound r4 365 ltac:(lia)) as Hr1.
  set (e := Z.min (r4 / 365) 3).
  assert (He : 0 <= e <= 3) by (unfold e; lia).
  assert (Hd : d = 11323 + 146097 * a + 36524 * b + 1461 * c + r4)
    by (unfold r100, n in *; lia).
  assert (Hlow : 365 * e <= r4) by (unfold e; lia).
  assert (Hup : e < 3 -> r4 < 365 * (e + 1)) by (unfold e; lia).
  split.
  - rewrite DayFromYear_cycle by done. lia.
  - destruct (Z.eq_dec e 3) as [E3|E3].
    + destruct (Z.eq_dec c 24) as [C24|C24].
      * destruct (Z.eq_dec b 3) as [B3|B3].
        -- replace (2001 + 400 * a + 100 * b + 4 * c + e + 1)
             with (2001 + 400 * (a + 1) + 100 * 0 + 4 * 0 + 0) by lia.
           rewrite DayFromYear_cycle by lia. unfold r100 in *. lia.
        -- replace (2001 + 400 * a + 100 * b + 4 * c + e + 1)
             with (2001 + 400 * a + 100 * (b + 1) + 4 * 0 + 0) by lia.
           rewrite DayFromYear_cycle by lia.
           assert (r100 < 36524) by (apply Hr100b; lia). lia.
      * replace (2001 + 400 * a + 100 * b + 4 * c + e + 1)
          with (2001 + 400 * a + 100 * b + 4 * (c + 1) + 0) by lia.
        rewrite DayFromYear_cycle by lia. lia.
    + replace (2001 + 400 * a + 100 * b + 4 * c + e + 1)
        with (2001 + 400 * a + 100 * b + 4 * c + (e + 1)) by lia.
      rewrite DayFromYear_cycle by lia.
      assert (r4 < 365 * (e + 1)) by (apply Hup; lia). lia.
Qed.

Lemma DayFromYear_succ y : DayFromYear (y + 1) = DayFromYear y + DaysInYear y.
Proof.
  unfold DayFromYear, DaysInYear.
  repeat match goal with
  | |- context [?a =? ?b] => destruct (Z.eqb_spec a b)
  end; simpl; Z.div_mod_to_equations; lia.
Qed.

Lemma DaysInYear_range y : 365 <= DaysInYear y <= 366.
Proof.
  unfold DaysInYear.
  repeat match goal with
  | |- context [?a =? ?b] => destruct (Z.eqb_spec a b)
  end; simpl; lia.
Qed.

Lemma DayFromYear_lt y : DayFromYear y < DayFromYear (y + 1).
Proof. rewrite DayFromYear_succ. pose proof (DaysInYear_range y). lia. Qed.

Lemma DayFromYear_mono y1 y2 : y1 <= y2 -> DayFromYear y1 <= DayFromYear y2.
Proof.
  intros H. replace y2 with (y1 + Z.of_nat (Z.to_nat (y2 - y1))) by lia.
  induction (Z.to_nat (y2 - y1)) as [|k IH]; [by rewrite Z.add_0_r|].
  replace (y1 + Z.of_nat (S k)) with (y1 + Z.of_nat k + 1) by lia.
  pose proof (DayFromYear_lt (y1 + Z.of_nat k)). lia.
Qed.

Lemma YearFromDay_mono d1 d2 : d1 <= d2 -> YearFromDay d1 <= YearFromDay d2.
Proof.
  intros H. pose proof (YearFromDay_spec d1) as H1.
  pose proof (YearFromDay_spec d2) as H2.
  destruct (Z_le_gt_dec (YearFromDay d1) (YearFromDay d2)) as [|Hgt]; [done|].
  pose proof (DayFromYear_mono (YearFromDay d2 + 1) (YearFromDay d1) ltac:(lia)).
  lia.
Qed.

Lemma DayWithinYear_range t :
  0 <= DayWithinYear t < DaysInYear (YearFromTime t).
Proof.
  unfold DayWithinYear, YearFromTime.
  pose proof (YearFromDay_spec (Day t)) as H.
  rewrite DayFromYear_succ in H. lia.
Qed.

Lemma InLeapYear_DaysInYear t : DaysInYear (YearFromTime t) = 365 + InLeapYear t.
Proof.
  unfold InLeapYear. pose proof (DaysInYear_range (YearFromTime t)).
  destruct (Z.eqb_spec (DaysInYear (YearFromTime t)) 366); lia.
Qed.

Lemma InLeapYear_range t : 0 <= InLeapYear t <= 1.
Proof.
  unfold InLeapYear. destruct (DaysInYear (YearFromTime t) =? 366); lia.
Qed.

Ltac split_ltb :=
  repeat match goal with
  | |- context [?a <? ?b] => destruct (Z.ltb_spec a b)
  end.

Lemma MonthFromTime_range t : 0 <= MonthFromTime t <= 11.
Proof. unfold MonthFromTime. split_ltb; lia. Qed.

Lemma DateFromTime_range t : 1 <= DateFromTime t <= 31.
Proof.
  pose proof (DayWithinYear_range t) as Hd.
  rewrite InLeapYear_DaysInYear in Hd.
  pose proof (InLeapYear_range t) as Hl.
  unfold DateFromTime, MonthFromTime.
  generalize dependent (DayWithinYear t). generalize dependent (InLeapYear t).
  intros l Hl d Hd. split_ltb; cbv iota beta; lia.
Qed.

(** Year, month and day depend on the day number only, ... *)
Lemma civil_same_day t1 t2 :
  Day t1 = Day t2 ->
  YearFromTime t1 = YearFromTime t2 /\ MonthFromTime t1 = MonthFromTime t2 /\
  DateFromTime t1 = DateFromTime t2.
Proof.
  intros H.
  assert (HY : YearFromTime t1 = YearFromTime t2) by (unfold YearFromTime; by rewrite H).
  assert (HL : InLeapYear t1 = InLeapYear t2) by (unfold InLeapYear; by rewrite HY).
  assert (HD : DayWithinYear t1 = DayWithinYear t2)
    by (unfold DayWithinYear; by rewrite H, HY).
  assert (HM : MonthFromTime t1 = MonthFromTime t2)
    by (unfold MonthFromTime; by rewrite HD, HL).
  split; [done|]. split; [done|].
  unfold DateFromTime. by rewrite HM, HD, HL.
Qed.

(** ... and they order the days lexicographically. *)
Lemma civil_lt_day t1 t2 :
  Day t1 < Day t2 ->
  YearFromTime t1 < YearFromTime t2 \/
  (YearFromTime t1 = YearFromTime t2 /\
   (MonthFromTime t1 < MonthFromTime t2 \/
    (MonthFromTime t1 = MonthFromTime t2 /\ DateFromTime t1 < DateFromTime t2))).
Proof.
  intros H.
  pose proof (YearFromDay_mono (Day t1) (Day t2) ltac:(lia)) as Hmono.
  fold (YearFromTime t1) in Hmono. fold (YearFromTime t2) in Hmono.
  destruct (Z.eq_dec (YearFromTime t1) (YearFromTime t2)) as [HY|HY]; [|left; lia].
  right. split; [done|].
  assert (HL : InLeapYear t1 = InLeapYear t2) by (unfold InLeapYear; by rewrite HY).
  assert (HD : DayWithinYear t1 < DayWithinYear t2)
    by (unfold DayWithinYear; rewrite HY; lia).
  pose proof (InLeapYear_range t2) as Hl.
  unfold DateFromTime, MonthFromTime. rewrite HL.
  generalize dependent (DayWithinYear t1). generalize dependent (DayWithinYear t2).
  generalize dependent (InLeapYear t2). clear.
  intros l _ Hl d2 d1 Hd. split_ltb; cbv iota beta; lia.
Qed.

(** The whole second of an instant, split into day, hour, minute, second. *)
Lemma second_fields t :
  t / 1000 = 86400 * Day t + 3600 * HourFromTime t + 60 * MinFromTime t
             + SecFromTime t /\
  0 <= HourFromTime t < 24 /\ 0 <= MinFromTime t < 60 /\ 0 <= SecFromTime t < 60.
Proof.
  unfold Day, HourFromTime, MinFromTime, SecFromTime,
    msPerDay, msPerHour, msPerMinute, msPerSecond.
  replace 86400000 with (1000 * 86400) by done.
  replace 3600000 with (1000 * 3600) by done.
  replace 60000 with (1000 * 60) by done.
  rewrite <- !Z.div_div by lia.
  generalize (t / 1000). intros s.
  Z.div_mod_to_equations. lia.
Qed.

End JSDateFacts.

(** ** Facts about [formatLocalISO] and the comparison of its results *)

Section FormatFacts.

(** More fuel than there are digits changes nothing. *)
Lemma digitsOf_fuel fuel1 fuel2 n :
  0 <= n < 10 ^ Z.of_nat (S fuel1) -> (fuel1 <= fuel2)%nat ->
  digitsOf (S fuel2) n = digitsOf (S fuel1) n.
Proof.
  revert fuel2 n. induction fuel1 as [|fuel1 IH]; intros fuel2 n Hn Hle.
  - change (10 ^ Z.of_nat 1) with 10 in Hn. cbn [digitsOf].
    destruct (Z.ltb_spec n 10); [done|lia].
  - destruct fuel2 as [|fuel2]; [lia|].
    change (digitsOf (S (S fuel2)) n)
      with ((if n <? 10 then [] else digitsOf (S fuel2) (n / 10)) ++ [digit (n mod 10)]).
    change (digitsOf (S (S fuel1)) n)
      with ((if n <? 10 then [] else digitsOf (S fuel1) (n / 10)) ++ [digit (n mod 10)]).
    destruct (Z.ltb_spec n 10); [done|].
    rewrite (IH fuel2 (n / 10)); [done| |lia].
    rewrite (Nat2Z.inj_succ (S fuel1)), Z.pow_succ_r in Hn by lia.
    split; [apply Z.div_pos; lia|].
    apply Z.div_lt_upper_bound; lia.
Qed.

(** The fuel of [Number_toString] is enough: any larger amount gives the
    same digits. *)
Lemma Number_toString_fuel n fuel :
  0 <= n -> (Z.to_nat (Z.log2 n) <= fuel)%nat ->
  digitsOf (S fuel) n = Number_toString n.
Proof.
  intros Hn Hfuel. unfold Number_toString.
  destruct (Z.ltb_spec n 0); [lia|].
  apply digitsOf_fuel; [|done].
  split; [done|].
  destruct (Z.eq_dec n 0) as [->|Hne]; [done|].
  pose proof (Z.log2_spec n ltac:(lia)) as [_ Hub].
  rewrite Nat2Z.inj_succ, Z2Nat.id by apply Z.log2_nonneg.
  eapply Z.lt_le_trans; [exact Hub|].
  apply Z.pow_le_mono_l. lia.
Qed.

(** The printer agrees with the decimal printer of the standard library. *)
Example Number_toString_decimal :
  List.map Number_toString
    [0; 7; 10; 59; 99; 100; 999; 1000; 1969; 2025; 9999; 10000; 275760; -1; -271821]
  = List.map (fun n => lit (NilZero.string_of_int (Z.to_int n)))
    [0; 7; 10; 59; 99; 100; 999; 1000; 1969; 2025; 9999; 10000; 275760; -1; -271821].
Proof. vm_compute. reflexivity. Qed.

Lemma digitsOf_1 fuel n : 0 <= n < 10 -> digitsOf (S fuel) n = [digit n].
Proof.
  intros Hn. simpl. destruct (Z.ltb_spec n 10); [|lia].
  by rewrite Z.mod_small.
Qed.

Lemma digitsOf_2 fuel n :
  10 <= n < 100 -> digitsOf (S (S fuel)) n = [digit (n / 10); digit (n mod 10)].
Proof.
  intros Hn. cbn [digitsOf]. destruct (Z.ltb_spec n 10); [lia|].
  assert (0 <= n / 10 < 10)
    by (split; [apply Z.div_pos; lia | apply Z.div_lt_upper_bound; lia]).
  destruct (Z.ltb_spec (n / 10) 10); [|lia].
  by rewrite (Z.mod_small (n / 10)).
Qed.

(** The fuel for a number with at least [k] binary digits. *)
Lemma fuel_at_least n k :
  2 ^ Z.of_nat k <= n ->
  exists fuel, S (Z.to_nat (Z.log2 n)) = (S k + fuel)%nat.
Proof.
  intros Hn. exists (Z.to_nat (Z.log2 n) - k)%nat.
  assert (Z.of_nat k <= Z.log2 n); [|lia].
  apply Z.log2_le_pow2; [|done].
  pose proof (Z.pow_pos_nonneg 2 (Z.of_nat k)). lia.
Qed.

Lemma pad_digits n :
  0 <= n <= 99 -> pad n = [digit (n / 10); digit (n mod 10)].
Proof.
  intros Hn. unfold pad, Number_toString.
  destruct (Z.ltb_spec n 0); [lia|].
  destruct (Z_lt_le_dec n 10) as [Hlt|Hge].
  - rewrite digitsOf_1 by lia. rewrite Z.div_small, Z.mod_small by lia. done.
  - destruct (fuel_at_least n 3 ltac:(simpl; lia)) as [fuel ->].
    cbn [Nat.add]. rewrite (digitsOf_2 _ n) by lia. done.
Qed.

Lemma year_digits y :
  1000 <= y <= 9999 ->
  Number_toString y
  = [digit (y / 1000); digit (y / 100 mod 10); digit (y / 10 mod 10); digit (y mod 10)].
Proof.
  intros Hy. unfold Number_toString.
  destruct (Z.ltb_spec y 0); [lia|].
  destruct (fuel_at_least y 9 ltac:(simpl; lia)) as [fuel ->].
  cbn [Nat.add digitsOf].
  assert (H1 : 100 <= y / 10 < 1000)
    by (split; [apply Z.div_le_lower_bound; lia | apply Z.div_lt_upper_bound; lia]).
  assert (H2 : 10 <= y / 10 / 10 < 100)
    by (split; [apply Z.div_le_lower_bound; lia | apply Z.div_lt_upper_bound; lia]).
  assert (H3 : 1 <= y / 10 / 10 / 10 < 10)
    by (split; [apply Z.div_le_lower_bound; lia | apply Z.div_lt_upper_bound; lia]).
  destruct (Z.ltb_spec y 10); [lia|].
  destruct (Z.ltb_spec (y / 10) 10); [lia|].
  destruct (Z.ltb_spec (y / 10 / 10) 10); [lia|].
  destruct (Z.ltb_spec (y / 10 / 10 / 10) 10); [|lia].
  rewrite (Z.mod_small (y / 10 / 10 / 10)) by lia.
  rewrite !Z.div_div by lia. simpl Z.mul. done.
Qed.

Lemma str_ltb_cons x y a b :
  str_ltb (x :: a) (y :: b)
  = if (x <? y)%N then true else if (y <? x)%N then false else str_ltb a b.
Proof. done. Qed.

Lemma str_ltb_irrefl a : str_ltb a a = false.
Proof.
  induction a as [|x a IH]; [done|].
  rewrite str_ltb_cons, N.ltb_irrefl. done.
Qed.

Lemma str_ltb_same_prefix p a b : str_ltb (p ++ a) (p ++ b) = str_ltb a b.
Proof.
  induction p as [|x p IH]; [done|].
  simpl app. rewrite str_ltb_cons, N.ltb_irrefl. done.
Qed.

Lemma str_ltb_digit d1 d2 a b :
  0 <= d1 <= 9 -> 0 <= d2 <= 9 ->
  str_ltb (digit d1 :: a) (digit d2 :: b)
  = if d1 <? d2 then true else if d2 <? d1 then false else str_ltb a b.
Proof.
  intros H1 H2. rewrite str_ltb_cons. unfold digit.
  destruct (N.ltb_spec (48 + Z.to_N d1) (48 + Z.to_N d2)),
    (N.ltb_spec (48 + Z.to_N d2) (48 + Z.to_N d1)),
    (Z.ltb_spec d1 d2), (Z.ltb_spec d2 d1); try done; lia.
Qed.

(** Two-digit fields compare like the numbers they print. *)
Lemma str_ltb_pad m n a b :
  0 <= m <= 99 -> 0 <= n <= 99 ->
  str_ltb (pad m ++ a) (pad n ++ b)
  = if m <? n then true else if n <? m then false else str_ltb a b.
Proof.
  intros Hm Hn. rewrite !pad_digits by done. simpl app.
  rewrite !str_ltb_digit
    by (split; first [apply Z.div_pos; lia | apply Z.mod_pos_bound; lia
                     | apply Z.lt_succ_r, Z.div_lt_upper_bound; lia
                     | pose proof (Z.mod_pos_bound m 10); pose proof (Z.mod_pos_bound n 10); lia]).
  pose proof (Z.div_mod m 10 ltac:(lia)). pose proof (Z.div_mod n 10 ltac:(lia)).
  pose proof (Z.mod_pos_bound m 10 ltac:(lia)).
  pose proof (Z.mod_pos_bound n 10 ltac:(lia)).
  repeat match goal with
  | |- context [?a <? ?b] => destruct (Z.ltb_spec a b)
  end; try done; lia.
Qed.

(** Four-digit years compare like the numbers they print. *)
Lemma str_ltb_year y1 y2 a b :
  1000 <= y1 <= 9999 -> 1000 <= y2 <= 9999 ->
  str_ltb (Number_toString y1 ++ a) (Number_toString y2 ++ b)
  = if y1 <? y2 then true else if y2 <? y1 then false else str_ltb a b.
Proof.
  intros H1 H2. rewrite !year_digits by done. simpl app.
  assert (Hd : forall y, 1000 <= y <= 9999 ->
    0 <= y / 1000 <= 9 /\ 0 <= y / 100 mod 10 <= 9 /\
    0 <= y / 10 mod 10 <= 9 /\ 0 <= y mod 10 <= 9 /\
    y = 1000 * (y / 1000) + 100 * (y / 100 mod 10) + 10 * (y / 10 mod 10) + y mod 10).
  { intros y Hy. Z.div_mod_to_equations. lia. }
  destruct (Hd y1 H1) as (A1 & B1 & C1 & D1 & E1).
  destruct (Hd y2 H2) as (A2 & B2 & C2 & D2 & E2).
  rewrite !str_ltb_digit by done.
  generalize dependent (y1 / 1000). generalize dependent (y1 / 100 mod 10).
  generalize dependent (y1 / 10 mod 10). generalize dependent (y1 mod 10).
  generalize dependent (y2 / 1000). generalize dependent (y2 / 100 mod 10).
  generalize dependent (y2 / 10 mod 10). generalize dependent (y2 mod 10).
  intros. subst y1 y2.
  repeat match goal with
  | |- context [?a <? ?b] => destruct (Z.ltb_spec a b)
  end; try done; lia.
Qed.

Variable tz : Z -> Z.

Lemma getTimezoneOffset_tz t : JSDate.getTimezoneOffset tz t = - tz t.
Proof.
  unfold JSDate.getTimezoneOffset, JSDate.LocalTime, JSDate.msPerMinute.
  replace (t - (t + tz t * 60000)) with (- tz t * 60000) by lia.
  apply Z_div_mult. lia.
Qed.

(** The formatted string: six decimal fields and a suffix that depends on
    the offset only. *)
Lemma formatLocalISO_fields t :
  formatLocalISO tz t
  = Number_toString (JSDate.getFullYear tz t) ++ lit "-"
      ++ pad (JSDate.getMonth tz t + 1) ++ lit "-"
      ++ pad (JSDate.getDate tz t) ++ lit "T"
      ++ pad (JSDate.getHours tz t) ++ lit ":"
      ++ pad (JSDate.getMinutes tz t) ++ lit ":"
      ++ pad (JSDate.getSeconds tz t) ++ offsetSuffix (tz t).
Proof.
  unfold formatLocalISO, offsetSuffix.
  rewrite getTimezoneOffset_tz, Z.opp_involutive. done.
Qed.

Lemma dateFields_ranges t :
  0 <= JSDate.getMonth tz t + 1 <= 99 /\ 0 <= JSDate.getDate tz t <= 99 /\
  0 <= JSDate.getHours tz t <= 99 /\ 0 <= JSDate.getMinutes tz t <= 99 /\
  0 <= JSDate.getSeconds tz t <= 99.
Proof.
  unfold JSDate.getMonth, JSDate.getDate, JSDate.getHours, JSDate.getMinutes,
    JSDate.getSeconds.
  pose proof (JSDateFacts.MonthFromTime_range (JSDate.LocalTime tz t)).
  pose proof (JSDateFacts.DateFromTime_range (JSDate.LocalTime tz t)).
  pose proof (JSDateFacts.second_fields (JSDate.LocalTime tz t)). lia.
Qed.

(** Strings of instants with one offset and four-digit local years compare
    like their fields. *)
Lemma formatLocalISO_ltb t1 t2 :
  tz t1 = tz t2 ->
  1000 <= JSDate.getFullYear tz t1 <= 9999 ->
  1000 <= JSDate.getFullYear tz t2 <= 9999 ->
  str_ltb (formatLocalISO tz t1) (formatLocalISO tz t2)
  = lexZ_ltb (dateFields tz t1) (dateFields tz t2).
Proof.
  intros Htz HY1 HY2.
  rewrite !formatLocalISO_fields, Htz.
  destruct (dateFields_ranges t1) as (M1 & D1 & h1 & m1 & s1).
  destruct (dateFields_ranges t2) as (M2 & D2 & h2 & m2 & s2).
  unfold dateFields, lexZ_ltb.
  rewrite str_ltb_year by done.
  rewrite (str_ltb_same_prefix (lit "-")), str_ltb_pad by done.
  rewrite (str_ltb_same_prefix (lit "-")), str_ltb_pad by done.
  rewrite (str_ltb_same_prefix (lit "T")), str_ltb_pad by done.
  rewrite (str_ltb_same_prefix (lit ":")), str_ltb_pad by done.
  rewrite (str_ltb_same_prefix (lit ":")), str_ltb_pad by done.
  rewrite str_ltb_irrefl. done.
Qed.

(** The fields order the whole seconds of instants with one offset. *)
Lemma dateFields_order t1 t2 :
  tz t1 = tz t2 ->
  lexZ_ltb (dateFields tz t1) (dateFields tz t2) = (secondOf t1 <? secondOf t2).
Proof.
  intros Htz. unfold dateFields, lexZ_ltb, secondOf,
    JSDate.getFullYear, JSDate.getMonth, JSDate.getDate, JSDate.getHours,
    JSDate.getMinutes, JSDate.getSeconds.
  assert (HS : forall t, JSDate.LocalTime tz t / 1000 = t / 1000 + tz t * 60).
  { intros t. unfold JSDate.LocalTime, JSDate.msPerMinute.
    replace (t + tz t * 60000) with (t + tz t * 60 * 1000) by lia.
    apply Z_div_plus. lia. }
  pose proof (HS t1) as HS1. pose proof (HS t2) as HS2. rewrite Htz in HS1.
  destruct (JSDateFacts.second_fields (JSDate.LocalTime tz t1)) as (E1 & h1 & m1 & s1).
  destruct (JSDateFacts.second_fields (JSDate.LocalTime tz t2)) as (E2 & h2 & m2 & s2).
  destruct (Z.lt_trichotomy (JSDate.Day (JSDate.LocalTime tz t1))
              (JSDate.Day (JSDate.LocalTime tz t2))) as [Hlt|[Heq|Hgt]].
  - pose proof (JSDateFacts.civil_lt_day _ _ Hlt) as Hc.
    repeat match goal with
    | |- context [?a <? ?b] => destruct (Z.ltb_spec a b)
    end; try done; lia.
  - destruct (JSDateFacts.civil_same_day _ _ Heq) as (-> & -> & ->).
    repeat match goal with
    | |- context [?a <? ?b] => destruct (Z.ltb_spec a b)
    end; try done; lia.
  - pose proof (JSDateFacts.civil_lt_day _ _ Hgt) as Hc.
    repeat match goal with
    | |- context [?a <? ?b] => destruct (Z.ltb_spec a b)
    end; try done; lia.
Qed.

End FormatFacts.

(** The calendar arithmetic on known dates: leap days, a century without
    leap day, the ends of years, instants before the epoch, offsets east and
    west of UTC. *)
Example formatLocalISO_known_dates :
  List.map (fun '(t, offset) => formatLocalISO (fun _ => offset) t)
    [ (1709164800000, 0); (1709251199999, 0); (4107542400000, 0);
      (4102444799000, 0); (-2208988800000, 0); (-11644473600000, 0);
      (253402300799000, 0); (951868800000, -480); (1704067199000, 345);
      (-1, 0); (-86400001, 0); (946684800000, 0); (978307199999, 0);
      (1078099200000, 60) ]
  = [ lit "2024-02-29T00:00:00+00:00"; lit "2024-02-29T23:59:59+00:00";
      lit "2100-03-01T00:00:00+00:00"; lit "2099-12-31T23:59:59+00:00";
      lit "1900-01-01T00:00:00+00:00"; lit "1601-01-01T00:00:00+00:00";
      lit "9999-12-31T23:59:59+00:00"; lit "2000-02-29T16:00:00-08:00";
      lit "2024-01-01T05:44:59+05:45"; lit "1969-12-31T23:59:59+00:00";
      lit "1969-12-30T23:59:59+00:00"; lit "2000-01-01T00:00:00+00:00";
      lit "2000-12-31T23:59:59+00:00"; lit "2004-03-01T01:00:00+01:00" ].
Proof. vm_compute. reflexivity. Qed.

(** ** Facts about the state monad *)

Section RunFacts.

Context {F : Type}.

(** An object without keys is the empty object. *)
Lemma no_keys_empty {A} (m : gmap str A) :
  (length (elements (dom m)) =? 0)%nat = true -> m = ∅.
Proof.
  intros H. apply Nat.eqb_eq in H. apply dom_empty_inv_L.
  apply leibniz_equiv, elements_empty_inv.
  by destruct (elements (dom m)).
Qed.

Lemma bind_unfold {A B} (m : M F A) (f : A -> M F B) s :
  (m ≫= f) s =
  match m s with
  | (Ok a, s') => f a s'
  | (Throw e, s') => (Throw e, s')
  end.
Proof. done. Qed.

Lemma mret_eq {A} (a : A) (s : State F) : (mret a : M F A) s = (Ok a, s).
Proof. done. Qed.

Lemma throw_eq {A} e (s : State F) : (throw e : M F A) s = (Throw e, s).
Proof. done. Qed.

Lemma get_eq (s : State F) : get s = (Ok s, s).
Proof. done. Qed.

Lemma emit_eq ev (s : State F) : emit ev s = (Ok tt, withEvent s ev).
Proof. done. Qed.

Lemma modifyStats_eq f (s : State F) :
  modifyStats f s = (Ok tt, withStats s (f (stats s))).
Proof. done. Qed.

Lemma cacheSet_eq k b (s : State F) :
  cacheSet k b s
  = (Ok tt, withEvent (withCache s (<[k := b]> (cache s))) (CacheSet k b)).
Proof. done. Qed.

Lemma existsSync_eq path (s : State F) :
  existsSync path s = (Ok (bool_decide (is_Some (files s !! path))), s).
Proof. done. Qed.

Lemma readFile_eq path (s : State F) :
  readFile path s =
  match files s !! path with
  | Some (Text content) => (Ok content, s)
  | _ => (Throw (ReadFileError path), s)
  end.
Proof.
  unfold readFile. rewrite bind_unfold, get_eq.
  by destruct (files s !! path) as [[]|].
Qed.

Lemma writeDescriptor_eq w path content (s : State F) :
  writeDescriptor w path content s =
  if canWrite w path
  then (Ok tt, withEvent (withFiles s (<[path := Text content]> (files s)))
                 (WriteDescriptor path content))
  else (Throw (WriteFileError path), s).
Proof. unfold writeDescriptor. by destruct (canWrite w path). Qed.

Lemma writeCacheFile_eq w path c (s : State F) :
  writeCacheFile w path c s =
  if canWrite w path
  then (Ok tt, withEvent (withCacheFile s (Some c)) (WriteCache c))
  else (Throw (WriteFileError path), s).
Proof. unfold writeCacheFile. by destruct (canWrite w path). Qed.

Lemma bind_ok {A B} (m : M F A) (f : A -> M F B) s a s' :
  m s = (Ok a, s') -> (m ≫= f) s = f a s'.
Proof. intros H. unfold mbind, M_bind. by rewrite H. Qed.

Lemma bind_throw {A B} (m : M F A) (f : A -> M F B) s e s' :
  m s = (Throw e, s') -> (m ≫= f) s = (Throw e, s').
Proof. intros H. unfold mbind, M_bind. by rewrite H. Qed.

Lemma replayCache_app (e1 e2 : list (Event F)) c :
  replayCache (e1 ++ e2) c = replayCache e2 (replayCache e1 c).
Proof. apply fold_left_app. Qed.

Lemma replayFiles_app (e1 e2 : list (Event F)) f :
  replayFiles (e1 ++ e2) f = replayFiles e2 (replayFiles e1 f).
Proof. apply fold_left_app. Qed.

Lemma replayCacheFile_app (e1 e2 : list (Event F)) cf :
  replayCacheFile (e1 ++ e2) cf = replayCacheFile e2 (replayCacheFile e1 cf).
Proof. apply fold_left_app. Qed.

Lemma replayCache_cons (ev : Event F) evs c :
  replayCache (ev :: evs) c
  = replayCache evs (match ev with CacheSet k b => <[k := b]> c | _ => c end).
Proof. done. Qed.

Lemma replayFiles_cons (ev : Event F) evs f :
  replayFiles (ev :: evs) f
  = replayFiles evs
      (match ev with WriteDescriptor p t => <[p := Text t]> f | _ => f end).
Proof. done. Qed.

Lemma replayCacheFile_cons (ev : Event F) evs cf :
  replayCacheFile (ev :: evs) cf
  = replayCacheFile evs (match ev with WriteCache c => Some c | _ => cf end).
Proof. done. Qed.

(** A key without an assignment among the events keeps its entry. *)
Lemma replayCache_other (evs : list (Event F)) c k :
  (forall b, CacheSet k b ∉ evs) -> replayCache evs c !! k = c !! k.
Proof.
  revert c. induction evs as [|ev evs IH]; intros c Hk; [done|].
  rewrite replayCache_cons, IH.
  - destruct ev; try done.
    destruct (decide (relDir = k)) as [->|Hne].
    + exfalso. eapply Hk. by left.
    + by rewrite lookup_insert_ne.
  - intros b Hin. eapply Hk. by right.
Qed.

(** Replaying events never removes an entry. *)
Lemma replayCache_is_Some (evs : list (Event F)) c k :
  is_Some (c !! k) -> is_Some (replayCache evs c !! k).
Proof.
  revert c. induction evs as [|ev evs IH]; intros c Hk; [done|].
  rewrite replayCache_cons. apply IH. destruct ev; try done.
  destruct (decide (relDir = k)) as [->|Hne].
  - rewrite lookup_insert_eq. eauto.
  - by rewrite lookup_insert_ne.
Qed.

Lemma replayCacheFile_none (evs : list (Event F)) cf :
  Forall (fun ev => ~ isWriteCache ev) evs -> replayCacheFile evs cf = cf.
Proof.
  revert cf. induction evs as [|ev evs IH]; intros cf Hall; [done|].
  apply Forall_cons in Hall as [Hev Hall].
  rewrite replayCacheFile_cons, IH by done.
  by destruct ev.
Qed.

Lemma replayFiles_none (evs : list (Event F)) f :
  Forall (fun ev => ~ isWriteDescriptor ev) evs -> replayFiles evs f = f.
Proof.
  revert f. induction evs as [|ev evs IH]; intros f Hall; [done|].
  apply Forall_cons in Hall as [Hev Hall].
  rewrite replayFiles_cons, IH by done.
  by destruct ev.
Qed.

Lemma emits_weaken (P Q : Event F -> Prop) {A} (m : M F A) :
  (forall ev, P ev -> Q ev) -> emits P m -> emits Q m.
Proof.
  intros HPQ Hm s. destruct (Hm s) as (evs & Ht & HP & Hrest).
  exists evs. split; [done|]. split; [|done].
  eapply Forall_impl; eauto.
Qed.

Lemma emits_nothing (P : Event F -> Prop) {A} (m : M F A) :
  (forall s, snd (m s) = s) -> emits P m.
Proof.
  intros H s. exists []. rewrite H, app_nil_r. by repeat split.
Qed.

Lemma emits_ret (P : Event F -> Prop) {A} (a : A) : emits P (mret a : M F A).
Proof. by apply emits_nothing. Qed.

Lemma emits_throw (P : Event F -> Prop) {A} e : emits P (throw e : M F A).
Proof. by apply emits_nothing. Qed.

Lemma emits_get (P : Event F -> Prop) : emits P (get : M F _).
Proof. by apply emits_nothing. Qed.

Lemma emits_existsSync (P : Event F -> Prop) path : emits P (existsSync (F:=F) path).
Proof. by apply emits_nothing. Qed.

Lemma emits_readFile (P : Event F -> Prop) path : emits P (readFile (F:=F) path).
Proof.
  apply emits_nothing. intros s. unfold readFile, mbind, M_bind, get. simpl.
  by destruct (files s !! path) as [[]|].
Qed.

Lemma emits_getImageFiles (P : Event F -> Prop) w exts dir maxDepth :
  emits P (getImageFiles (F:=F) w exts dir maxDepth).
Proof.
  apply emits_nothing. intros s. unfold getImageFiles.
  by destruct (walk w exts _ _ _ _ _) as [[]|].
Qed.

Lemma emits_modifyStats (P : Event F -> Prop) f : emits P (modifyStats (F:=F) f).
Proof. intros s. exists []. simpl. rewrite app_nil_r. by repeat split. Qed.

Lemma emits_emit (P : Event F -> Prop) ev :
  P ev -> ~ isWriteCache ev -> ~ isWriteDescriptor ev ->
  (forall k b, ev <> CacheSet k b) ->
  emits P (emit ev).
Proof.
  intros HP H1 H2 H3 s. exists [ev]. simpl.
  split; [done|]. split; [by constructor|].
  destruct ev; try done; exfalso; eauto.
  - by eapply H3.
Qed.

Lemma emits_cacheSet (P : Event F -> Prop) k b :
  P (CacheSet k b) -> emits P (cacheSet k b).
Proof.
  intros HP s. exists [CacheSet k b]. simpl.
  split; [done|]. split; [by constructor|]. done.
Qed.

Lemma emits_writeDescriptor (P : Event F -> Prop) w path content :
  P (WriteDescriptor path content) -> emits P (writeDescriptor w path content).
Proof.
  intros HP s. unfold writeDescriptor. destruct (canWrite w path).
  - exists [WriteDescriptor path content]. simpl.
    split; [done|]. split; [by constructor|]. done.
  - exists []. simpl. rewrite app_nil_r. by repeat split.
Qed.

Lemma emits_writeCacheFile (P : Event F -> Prop) w path c :
  P (WriteCache c) -> emits P (writeCacheFile w path c).
Proof.
  intros HP s. unfold writeCacheFile. destruct (canWrite w path).
  - exists [WriteCache c]. simpl.
    split; [done|]. split; [by constructor|]. done.
  - exists []. simpl. rewrite app_nil_r. by repeat split.
Qed.

Lemma emits_bind (P : Event F -> Prop) {A B} (m : M F A) (f : A -> M F B) :
  emits P m -> (forall a, emits P (f a)) -> emits P (m ≫= f).
Proof.
  intros Hm Hf s. destruct (Hm s) as (e1 & Ht1 & HP1 & Hc1 & Hf1 & Hcf1).
  unfold mbind, M_bind. destruct (m s) as [[a|e] s1]; simpl in *.
  - destruct (Hf a s1) as (e2 & Ht2 & HP2 & Hc2 & Hf2 & Hcf2).
    exists (e1 ++ e2).
    rewrite Ht2, Ht1, Hc2, Hc1, Hf2, Hf1, Hcf2, Hcf1.
    rewrite replayCache_app, replayFiles_app, replayCacheFile_app, app_assoc.
    split; [done|]. split; [by apply Forall_app|]. done.
  - by exists e1.
Qed.

Lemma emits_forEach (P : Event F -> Prop) {A B} (l : list A)
    (body : B -> A -> M F B) b :
  (forall b x, x ∈ l -> emits P (body b x)) -> emits P (forEach l body b).
Proof.
  revert b. induction l as [|x l IH]; intros b Hbody; simpl.
  - apply emits_ret.
  - apply emits_bind.
    + apply Hbody. by left.
    + intros b'. apply IH. intros b'' y Hy. apply Hbody. by right.
Qed.

Lemma emits_if (P : Event F -> Prop) {A} (c : bool) (m1 m2 : M F A) :
  emits P m1 -> emits P m2 -> emits P (if c then m1 else m2).
Proof. by destruct c. Qed.

(** A loop over an appended list is the two loops in sequence. *)
Lemma forEach_app {A B} (l1 l2 : list A) (body : B -> A -> M F B) b s :
  forEach (l1 ++ l2) body b s = (b' ← forEach l1 body b; forEach l2 body b') s.
Proof.
  revert b s. induction l1 as [|x l1 IH]; intros b s; simpl.
  - done.
  - unfold mbind, M_bind in *.
    destruct (body b x s) as [[b'|e] s']; [|done].
    by rewrite IH.
Qed.

(** The nested loops of [main] are one loop over the concatenation. *)
Lemma forEach_concat {A B C} (ls : list C) (g : C -> list A)
    (body : B -> A -> M F B) b s :
  forEach ls (fun b x => forEach (g x) body b) b s
  = forEach (concat (List.map g ls)) body b s.
Proof.
  revert b s. induction ls as [|l ls IH]; intros b s; simpl; [done|].
  rewrite forEach_app. unfold mbind, M_bind.
  destruct (forEach (g l) body b s) as [[b'|e] s']; [|done].
  apply IH.
Qed.

(** A loop stops at the first element whose body throws. *)
Lemma forEach_throw {A B} (pre post : list A) (x : A)
    (body : B -> A -> M F B) b s b1 s1 e s2 :
  forEach pre body b s = (Ok b1, s1) ->
  body b1 x s1 = (Throw e, s2) ->
  forEach (pre ++ x :: post) body b s = (Throw e, s2).
Proof.
  intros Hpre Hx. rewrite forEach_app. unfold mbind, M_bind.
  rewrite Hpre. simpl. unfold mbind, M_bind. by rewrite Hx.
Qed.

(** [getImageFiles] gives [walk] enough fuel: the recursion is at most
    [maxDepth - 1] calls deep. *)
Lemma walk_fuel w exts fuel maxDepth current depth found :
  maxDepth - depth - 1 <= Z.of_nat fuel ->
  walk w exts fuel maxDepth current depth found <> None.
Proof.
  revert current depth found.
  induction fuel as [|fuel IH]; intros current depth found Hfuel.
  - simpl. destruct (readdir w current) as [entries|]; [|done].
    revert found. induction entries as [|entry rest IHr]; intros found; [done|].
    destruct (kind entry).
    + destruct (hasImageExtension w exts (name entry)); apply IHr.
    + destruct (Z.ltb_spec (depth + 1) maxDepth); [lia | apply IHr].
    + apply IHr.
  - simpl. destruct (readdir w current) as [entries|]; [|done].
    revert found. induction entries as [|entry rest IHr]; intros found; [done|].
    destruct (kind entry).
    + destruct (hasImageExtension w exts (name entry)); apply IHr.
    + destruct (Z.ltb_spec (depth + 1) maxDepth); [|apply IHr].
      specialize (IH (path_join current (name entry)) (depth + 1) found ltac:(lia)).
      destruct (walk w exts fuel maxDepth _ _ _) as [[found'|e]|]; [apply IHr|done|done].
    + apply IHr.
Qed.

Lemma getImageFiles_fuel w exts dir maxDepth :
  walk w exts (Z.to_nat maxDepth) maxDepth dir 0 [] <> None.
Proof. apply walk_fuel. lia. Qed.

End RunFacts.

(** ** Facts about the timestamp generation *)

Module MtimeFacts.
Import Mtime.

Section Script.

Variable CONFIG : Config.
Variable DRY_RUN : bool.
Variable w : World.

Local Abbreviation processBundle := (processBundle CONFIG DRY_RUN w).
Local Abbreviation mainStep := (mainStep CONFIG DRY_RUN w).
Local Abbreviation main := (main CONFIG DRY_RUN w).
Local Abbreviation inventoryOf := (inventoryOf CONFIG w).
Local Abbreviation relDirOf := (relDirOf w).
Local Abbreviation allDirs := (allDirs CONFIG w).

Lemma scanImagesForBundle_pure absDir s :
  scanImagesForBundle CONFIG w absDir (MAXDEPTH CONFIG) s = (inventoryOf absDir, s).
Proof.
  unfold scanImagesForBundle, Mtime.inventoryOf, getImageFiles, mbind, M_bind.
  by destruct (walk w _ _ _ _ _ _) as [[found|e]|].
Qed.

Ltac emits_auto :=
  repeat first
    [ apply emits_ret | apply emits_throw | apply emits_get
    | apply emits_existsSync | apply emits_readFile | apply emits_modifyStats
    | apply emits_getImageFiles
    | apply emits_cacheSet; unfold bundleEvents; simpl; by intuition
    | apply emits_writeDescriptor; unfold bundleEvents; simpl; by intuition
    | apply emits_emit; [unfold bundleEvents; simpl; by intuition | simpl; tauto | simpl; tauto | done]
    | apply emits_bind; [|intros ?]
    | apply emits_if ].

Lemma processBundle_emits absDir :
  emits (bundleEvents (eq (relative w absDir)) DRY_RUN) (processBundle absDir).
Proof.
  unfold Mtime.processBundle, scanImagesForBundle. cbv zeta.
  destruct DRY_RUN; emits_auto.
Qed.

Local Abbreviation visited := (visited CONFIG w).

Lemma mainStep_emits anyFound dir :
  dir ∈ allDirs -> emits (bundleEvents visited DRY_RUN) (mainStep anyFound dir).
Proof.
  intros Hdir. unfold Mtime.mainStep.
  destruct (statSync w dir) as [statsDir|]; [|apply emits_ret].
  destruct (st_isDirectory statsDir); simpl; [|apply emits_ret].
  apply emits_bind; [apply emits_modifyStats|intros _].
  apply emits_bind; [|intros _; apply emits_ret].
  eapply emits_weaken; [|apply processBundle_emits].
  intros ev (H1 & H2 & H3 & H4). split; [done|]. split; [done|]. split; [|done].
  destruct ev; try done. simpl in *. exists dir. split; [done|].
  by rewrite <- H3.
Qed.

Lemma mainLoop_emits anyFound :
  emits (bundleEvents visited DRY_RUN) (forEach allDirs mainStep anyFound).
Proof. apply emits_forEach. intros b x Hx. by apply mainStep_emits. Qed.

(** [main], with its nested loops flattened. *)
Lemma main_unfold s :
  main s =
  match forEach allDirs mainStep false (withEvent s LogHeader) with
  | (Throw e, s1) => (Throw e, s1)
  | (Ok anyFound, s1) =>
      let s2 := if anyFound then s1 else withEvent s1 LogNoneFound in
      if canWrite w CACHE_PATH then
        let c := CacheJson CACHE_VERSION (Some (cache s2)) in
        let s3 := withEvent (withCacheFile s2 (Some c)) (WriteCache c) in
        (Ok tt, withEvent s3 (LogFooter (stats s3)))
      else (Throw (WriteFileError CACHE_PATH), s2)
  end.
Proof.
  unfold Mtime.main. unfold mbind at 1. unfold M_bind at 1. simpl.
  fold (withEvent s LogHeader).
  unfold mbind at 1. unfold M_bind at 1.
  rewrite forEach_concat. fold allDirs.
  destruct (forEach allDirs mainStep false (withEvent s LogHeader))
    as [[anyFound|e] s1]; [|done].
  unfold mbind, M_bind, writeCacheFile. destruct anyFound; simpl.
  - by destruct (canWrite w CACHE_PATH).
  - by destruct (canWrite w CACHE_PATH).
Qed.

(** *** The loop for [maxMtimeMs] *)

Lemma maxMtime_fold (inv : gmap str (Entry Z)) keys a :
  let r := fold_left (maxMtimeStep inv) keys a in
  a <= r /\
  (forall key e, key ∈ keys -> inv !! key = Some e -> mtimeMs e <= r) /\
  (r = a \/ exists key e, key ∈ keys /\ inv !! key = Some e /\ mtimeMs e = r).
Proof.
  revert a. induction keys as [|k keys IH]; intros a; simpl.
  - split; [lia|]. split; [|by left]. intros key e Hin. by apply elem_of_nil in Hin.
  - destruct (IH (maxMtimeStep inv a k)) as (Hle & Hub & Hatt).
    assert (Hstep : a <= maxMtimeStep inv a k).
    { unfold maxMtimeStep. destruct (inv !! k) as [e|]; [|lia].
      destruct (Z.ltb_spec a (fp e)); lia. }
    split; [lia|]. split.
    + intros key e Hin Hkey. apply elem_of_cons in Hin as [->|Hin]; [|by eapply Hub].
      assert (fp e <= maxMtimeStep inv a k); [|lia].
      unfold maxMtimeStep. rewrite Hkey. destruct (Z.ltb_spec a (fp e)); lia.
    + destruct Hatt as [Heq|(key & e & Hin & Hkey & Hfp)].
      * rewrite Heq. unfold maxMtimeStep.
        destruct (inv !! k) as [e|] eqn:Ek; [|by left].
        destruct (Z.ltb_spec a (fp e)); [|by left].
        right. exists k, e. split; [by left|]. done.
      * right. exists key, e. split; [by right|]. done.
Qed.

(** The loop starts from zero: its result is the maximum of zero and the
    timestamps. *)
Lemma maxMtime_spec (inv : gmap str (Entry Z)) :
  0 <= maxMtime inv /\
  (forall key e, inv !! key = Some e -> mtimeMs e <= maxMtime inv) /\
  (maxMtime inv = 0 \/ exists key e, inv !! key = Some e /\ mtimeMs e = maxMtime inv).
Proof.
  unfold maxMtime.
  destruct (maxMtime_fold inv (elements (dom inv)) 0) as (H0 & Hub & Hatt).
  split; [done|]. split.
  - intros key e Hkey. apply (Hub key e); [|done].
    apply elem_of_elements, elem_of_dom. eauto.
  - destruct Hatt as [?|(key & e & _ & ? & ?)]; [by left|right; eauto].
Qed.

(** With an image that is not older than the epoch, the loop computes the
    maximum timestamp. *)
Lemma maxMtime_isMax (inv : gmap str (Entry Z)) key e :
  inv !! key = Some e -> 0 <= mtimeMs e -> isMaxMtime (maxMtime inv) inv.
Proof.
  intros Hkey Hpos. destruct (maxMtime_spec inv) as (H0 & Hub & Hatt).
  split; [|done].
  destruct Hatt as [Hz|(key' & e' & ? & ?)]; [|eauto].
  exists key, e. split; [done|]. specialize (Hub key e Hkey). lia.
Qed.

Lemma isNewerISO_spec newVal currentVal :
  isNewerISO newVal currentVal = true <->
  currentVal = [] \/ str_gtb newVal currentVal = true.
Proof.
  unfold isNewerISO. destruct currentVal as [|c cur].
  - split; [by left|done].
  - split; [by right|]. by intros [?|?].
Qed.

(** One step of a monadic computation applied to a state. *)
Ltac exec :=
  repeat first
    [ rewrite bind_unfold
    | rewrite mret_eq | rewrite throw_eq | rewrite get_eq | rewrite emit_eq
    | rewrite modifyStats_eq | rewrite cacheSet_eq | rewrite existsSync_eq
    | rewrite readFile_eq | rewrite writeDescriptor_eq
    | rewrite scanImagesForBundle_pure
    | progress cbv beta iota ].

(** [processBundle] in direct style: what it returns and the state it
    leaves, by cases. *)
Lemma processBundle_eq absDir s :
  processBundle absDir s =
  let relDir := relative w absDir in
  let indexFile := path_join absDir (lit "index.md") in
  let relIndexFile := relative w indexFile in
  match files s !! indexFile with
  | None => (Ok Skipped, withEvent s (LogNoIndex relDir))
  | Some file =>
      match inventoryOf absDir with
      | Throw e => (Throw e, s)
      | Ok currentImages =>
          if (length (elements (dom currentImages)) =? 0)%nat then
            (Ok NoImages,
             withEvent
               (withCache
                  (withStats (withEvent s (LogNoImages relDir)) (incrNoImage (stats s)))
                  (<[relDir := {| images := Some ∅ |}]> (cache s)))
               (CacheSet relDir {| images := Some ∅ |}))
          else
            let d := diffImages (prevImagesOf (cache s) relDir) currentImages in
            let s1 := withStats s (addDiff d (stats s)) in
            let newLastmod := formatLocalISO (tz w) (maxMtime currentImages) in
            match file with
            | Unreadable => (Throw (ReadFileError indexFile), s1)
            | Text raw =>
                let fm := parseFrontmatter (FRONTMATTER_DELIM CONFIG) raw in
                let entry := {| images := Some currentImages |} in
                let put := fun s' : State Z =>
                  withEvent (withCache s' (<[relDir := entry]> (cache s')))
                    (CacheSet relDir entry) in
                if negb (valid fm) then
                  (Ok InvalidDescriptor, put (withEvent s1 (LogInvalid relIndexFile)))
                else if negb (isNewerISO newLastmod (currentLastmod fm)) then
                  (Ok Unchanged,
                   put (withStats
                          (withEvent s1 (LogCurrent relIndexFile (currentLastmod fm) d))
                          (incrUnchanged (stats s1))))
                else
                  let s2 := withEvent (withStats s1 (incrUpdated (stats s1)))
                              (LogUpdate relIndexFile (currentLastmod fm) newLastmod d) in
                  if DRY_RUN then
                    (Ok Updated, put (withEvent s2 (LogDryRunNote relIndexFile)))
                  else
                    let newContent :=
                      buildNewContent (FRONTMATTER_DELIM CONFIG)
                        (fmLines fm) (bodyLines fm) newLastmod in
                    if canWrite w indexFile then
                      let s3 := withEvent
                                  (withFiles s2 (<[indexFile := Text newContent]> (files s2)))
                                  (WriteDescriptor indexFile newContent) in
                      (Ok Updated,
                       put (if GIT_ADD_ENABLED CONFIG
                            then withEvent s3 (GitAdd relIndexFile) else s3))
                    else (Throw (WriteFileError indexFile), s2)
            end
      end
  end.
Proof.
  unfold Mtime.processBundle. cbv zeta. exec.
  destruct (files s !! path_join absDir (lit "index.md")) as [file|] eqn:Efile.
  2: { rewrite bool_decide_eq_false_2 by (by intros [? ?]). cbn [negb]. by exec. }
  rewrite bool_decide_eq_true_2 by eauto. cbn [negb]. exec.
  destruct (inventoryOf absDir) as [currentImages|e]; [|done].
  exec. destruct (length (elements (dom currentImages)) =? 0)%nat.
  { by exec. }
  exec. cbn [files withStats]. rewrite Efile.
  destruct file as [raw|]; [|done]. exec.
  destruct (valid (parseFrontmatter (FRONTMATTER_DELIM CONFIG) raw)); cbn [negb].
  2: { by exec. }
  destruct (isNewerISO _ _); cbn [negb].
  2: { by exec. }
  exec. destruct DRY_RUN.
  { by exec. }
  exec. cbn [files withStats withEvent].
  destruct (canWrite w _); [|done]. exec.
  destruct (GIT_ADD_ENABLED CONFIG); by exec.
Qed.

End Script.

End MtimeFacts.

(** ** Facts about the checksum generation *)

Module HashFacts.
Import Hash.

Section Script.

Variable CONFIG : Config.
Variable DRY_RUN : bool.
Variable w : World.

Local Abbreviation processBundle := (processBundle CONFIG DRY_RUN w).
Local Abbreviation mainStep := (mainStep CONFIG DRY_RUN w).
Local Abbreviation main := (main CONFIG DRY_RUN w).
Local Abbreviation inventoryOf := (inventoryOf CONFIG w).
Local Abbreviation relDirOf := (relDirOf w).
Local Abbreviation allDirs := (allDirs CONFIG w).
Local Abbreviation visited := (visited CONFIG w).

Lemma hash_scan_pure absDir s :
  scanImagesForBundle CONFIG w absDir (MAXDEPTH CONFIG) s = (inventoryOf absDir, s).
Proof.
  unfold scanImagesForBundle, Hash.inventoryOf, getImageFiles, mbind, M_bind.
  by destruct (walk w _ _ _ _ _ _) as [[found|e]|].
Qed.

Ltac emits_auto :=
  repeat first
    [ apply emits_ret | apply emits_throw | apply emits_get
    | apply emits_existsSync | apply emits_readFile | apply emits_modifyStats
    | apply emits_getImageFiles
    | apply emits_cacheSet; unfold bundleEvents; simpl; by intuition
    | apply emits_writeDescriptor; unfold bundleEvents; simpl; by intuition
    | apply emits_emit; [unfold bundleEvents; simpl; by intuition | simpl; tauto | simpl; tauto | done]
    | apply emits_bind; [|intros ?]
    | apply emits_if ].

Lemma hash_processBundle_emits absDir :
  emits (bundleEvents (eq (relative w absDir)) DRY_RUN) (processBundle absDir).
Proof.
  unfold Hash.processBundle, scanImagesForBundle. cbv zeta.
  destruct DRY_RUN; emits_auto.
Qed.

Lemma hash_mainStep_emits anyFound dir :
  dir ∈ allDirs -> emits (bundleEvents visited DRY_RUN) (mainStep anyFound dir).
Proof.
  intros Hdir. unfold Hash.mainStep.
  destruct (statSync w dir) as [statsDir|]; [|apply emits_ret].
  destruct (st_isDirectory statsDir); simpl; [|apply emits_ret].
  apply emits_bind; [apply emits_modifyStats|intros _].
  apply emits_bind; [|intros _; apply emits_ret].
  eapply emits_weaken; [|apply hash_processBundle_emits].
  intros ev (H1 & H2 & H3 & H4). split; [done|]. split; [done|]. split; [|done].
  destruct ev; try done. simpl in *. exists dir. split; [done|].
  by rewrite <- H3.
Qed.

Lemma hash_mainLoop_emits anyFound :
  emits (bundleEvents visited DRY_RUN) (forEach allDirs mainStep anyFound).
Proof. apply emits_forEach. intros b x Hx. by apply hash_mainStep_emits. Qed.

(** [main], with its nested loops flattened. *)
Lemma hash_main_unfold s :
  main s =
  match forEach allDirs mainStep false (withEvent s LogHeader) with
  | (Throw e, s1) => (Throw e, s1)
  | (Ok anyFound, s1) =>
      let s2 := if anyFound then s1 else withEvent s1 LogNoneFound in
      if DRY_RUN then
        let s3 := withEvent s2 LogDryRunCache in
        (Ok tt, withEvent s3 (LogFooter (stats s3)))
      else if canWrite w CACHE_PATH then
        let c := CacheJson CACHE_VERSION (Some (cache s2)) in
        let s3 := withEvent (withCacheFile s2 (Some c)) (WriteCache c) in
        (Ok tt, withEvent s3 (LogFooter (stats s3)))
      else (Throw (WriteFileError CACHE_PATH), s2)
  end.
Proof.
  unfold Hash.main. unfold mbind at 1. unfold M_bind at 1. simpl.
  fold (withEvent s LogHeader).
  unfold mbind at 1. unfold M_bind at 1.
  rewrite forEach_concat. fold allDirs.
  destruct (forEach allDirs mainStep false (withEvent s LogHeader))
    as [[anyFound|e] s1]; [|done].
  unfold mbind, M_bind, writeCacheFile. destruct anyFound, DRY_RUN; simpl; try done.
  - by destruct (canWrite w CACHE_PATH).
  - by destruct (canWrite w CACHE_PATH).
Qed.

Ltac exec :=
  repeat first
    [ rewrite bind_unfold
    | rewrite mret_eq | rewrite throw_eq | rewrite get_eq | rewrite emit_eq
    | rewrite modifyStats_eq | rewrite cacheSet_eq | rewrite existsSync_eq
    | rewrite readFile_eq | rewrite writeDescriptor_eq
    | rewrite hash_scan_pure
    | progress cbv beta iota ].

(** [processBundle] in direct style: what it returns and the state it
    leaves, by cases. *)
Lemma hash_processBundle_eq absDir s :
  processBundle absDir s =
  let relDir := relative w absDir in
  let indexFile := path_join absDir (lit "index.md") in
  let relIndexFile := relative w indexFile in
  match files s !! indexFile with
  | None => (Ok Skipped, withEvent s (LogNoIndex relDir))
  | Some file =>
      match inventoryOf absDir with
      | Throw e => (Throw e, s)
      | Ok currentImages =>
          if (length (elements (dom currentImages)) =? 0)%nat then
            (Ok NoImages,
             withEvent
               (withCache
                  (withStats (withEvent s (LogNoImages relDir)) (incrNoImage (stats s)))
                  (<[relDir := {| images := Some ∅ |}]> (cache s)))
               (CacheSet relDir {| images := Some ∅ |}))
          else
            let d := diffImages (prevImagesOf (cache s) relDir) currentImages in
            let s1 := withStats s (addDiff d (stats s)) in
            let entry := {| images := Some currentImages |} in
            let put := fun s' : State str =>
              withEvent (withCache s' (<[relDir := entry]> (cache s')))
                (CacheSet relDir entry) in
            match file with
            | Unreadable => (Throw (ReadFileError indexFile), s1)
            | Text raw =>
                let fm := parseFrontmatter (FRONTMATTER_DELIM CONFIG) raw in
                if added d + changed d + deleted d =? 0 then
                  let s2 := if valid fm then s1
                            else withEvent s1 (LogInvalid relIndexFile) in
                  (Ok Unchanged,
                   put (withStats
                          (withEvent s2 (LogCurrent relIndexFile (currentLastmod fm) d))
                          (incrUnchanged (stats s1))))
                else if negb (valid fm) then
                  (Ok InvalidDescriptor, put (withEvent s1 (LogInvalid relIndexFile)))
                else
                  let newLastmod := formatLocalISO (tz w) (now w relDir) in
                  if negb (isNewerISO newLastmod (currentLastmod fm)) then
                    (Ok Unchanged,
                     put (withStats
                            (withEvent s1 (LogCurrent relIndexFile (currentLastmod fm) d))
                            (incrUnchanged (stats s1))))
                  else
                    let s2 := withEvent (withStats s1 (incrUpdated (stats s1)))
                                (LogUpdate relIndexFile (currentLastmod fm) newLastmod d) in
                    if DRY_RUN then
                      (Ok Updated, put (withEvent s2 (LogDryRunNote relIndexFile)))
                    else
                      let newContent :=
                        buildNewContent (FRONTMATTER_DELIM CONFIG)
                          (fmLines fm) (bodyLines fm) newLastmod in
                      if canWrite w indexFile then
                        let s3 := withEvent
                                    (withFiles s2 (<[indexFile := Text newContent]> (files s2)))
                                    (WriteDescriptor indexFile newContent) in
                        (Ok Updated,
                         put (if GIT_ADD_ENABLED CONFIG
                              then withEvent s3 (GitAdd relIndexFile) else s3))
                      else (Throw (WriteFileError indexFile), s2)
            end
      end
  end.
Proof.
  unfold Hash.processBundle. cbv zeta. exec.
  destruct (files s !! path_join absDir (lit "index.md")) as [file|] eqn:Efile.
  2: { rewrite bool_decide_eq_false_2 by (by intros [? ?]). cbn [negb]. by exec. }
  rewrite bool_decide_eq_true_2 by eauto. cbn [negb]. exec.
  destruct (inventoryOf absDir) as [currentImages|e]; [|done].
  exec. destruct (length (elements (dom currentImages)) =? 0)%nat.
  { by exec. }
  exec. destruct (_ =? 0).
  { exec. cbn [files withStats]. rewrite Efile.
    destruct file as [raw|]; [|done]. exec.
    destruct (valid _); cbn [negb]; by exec. }
  exec. cbn [files withStats]. rewrite Efile.
  destruct file as [raw|]; [|done]. exec.
  destruct (valid (parseFrontmatter (FRONTMATTER_DELIM CONFIG) raw)); cbn [negb].
  2: { by exec. }
  destruct (isNewerISO _ _); cbn [negb].
  2: { by exec. }
  exec. destruct DRY_RUN.
  { by exec. }
  exec. cbn [files withStats withEvent].
  destruct (canWrite w _); [|done]. exec.
  destruct (GIT_ADD_ENABLED CONFIG); by exec.
Qed.

(** The cache object after [processBundle] returns: but for a bundle
    without [index.md], the entry of the bundle is the current inventory. *)
Lemma hash_processBundle_cache absDir s t s' :
  processBundle absDir s = (Ok t, s') ->
  t <> Skipped ->
  exists currentImages,
    inventoryOf absDir = Ok currentImages /\
    cache s' = <[relative w absDir := {| images := Some currentImages |}]> (cache s).
Proof.
  unfold Hash.processBundle. cbv zeta. exec.
  destruct (files s !! path_join absDir (lit "index.md")) as [file|] eqn:Efile.
  2: { rewrite bool_decide_eq_false_2 by (by intros [? ?]). cbn [negb]. exec.
       intros [= <- <-]. done. }
  rewrite bool_decide_eq_true_2 by eauto. cbn [negb]. exec.
  destruct (inventoryOf absDir) as [currentImages|e]; [|done].
  exec. destruct (length (elements (dom currentImages)) =? 0)%nat eqn:Elen.
  { exec. intros [= <- <-] _. exists currentImages. split; [done|].
    by rewrite (no_keys_empty currentImages Elen). }
  exec. destruct (_ =? 0).
  { exec. cbn [files withStats]. rewrite Efile.
    destruct file as [raw|]; [|done]. exec.
    destruct (valid _); cbn [negb]; exec; intros [= <- <-] _; eauto. }
  exec. cbn [files withStats]. rewrite Efile.
  destruct file as [raw|]; [|done]. exec.
  destruct (valid (parseFrontmatter (FRONTMATTER_DELIM CONFIG) raw)); cbn [negb].
  2: { exec. intros [= <- <-] _. eauto. }
  destruct (isNewerISO _ _); cbn [negb].
  2: { exec. intros [= <- <-] _. eauto. }
  exec. destruct DRY_RUN.
  { exec. intros [= <- <-] _. eauto. }
  exec. cbn [files withStats withEvent].
  destruct (canWrite w _); [|done]. exec.
  destruct (GIT_ADD_ENABLED CONFIG); exec; intros [= <- <-] _; eauto.
Qed.

End Script.

End HashFacts.

(** * The claims *)

(** A concrete string has no occurrence of a code unit. *)
Ltac not_in_literal :=
  vm_compute;
  let H := fresh in
  intros H;
  repeat (apply elem_of_cons in H as [H|H]; [discriminate H|]);
  by apply elem_of_nil in H.

(** ** Descriptor editor *)

(** C6, as amended.  For a header and a body obtained from a valid
    descriptor, and a value [X] without line feed and without double quote
    that neither begins nor ends with white space, parsing the text that
    [buildNewContent] renders yields [X] as the current lastmod value.  (The
    delimiter is assumed not to be the rendered lastmod line itself.) *)
Theorem lastmod_round_trip (DELIM content X : str) :
  valid (parseFrontmatter DELIM content) = true ->
  nl ∉ X -> dquote ∉ X -> trim X = X -> DELIM <> lastmodLine X ->
  currentLastmod
    (parseFrontmatter DELIM
       (buildNewContent DELIM (fmLines (parseFrontmatter DELIM content))
          (bodyLines (parseFrontmatter DELIM content)) X)) = X.
Proof.
  intros Hv HnlX HqX HtX HD.
  destruct (parseFrontmatter_valid_wf DELIM content Hv) as (Hfm & Hbody & Hnd & HDnl & HDt).
  rewrite parse_buildNewContent by done. cbn [currentLastmod].
  by rewrite remove_dquotes_quoted.
Qed.

Lemma lastmod_round_trip_witness :
  currentLastmod
    (parseFrontmatter (lit "---")
       (buildNewContent (lit "---")
          (fmLines (parseFrontmatter (lit "---") (Examples.descriptor Examples.oldLastmod)))
          (bodyLines (parseFrontmatter (lit "---") (Examples.descriptor Examples.oldLastmod)))
          (lit "2025-06-01T00:00:00+00:00")))
  = lit "2025-06-01T00:00:00+00:00".
Proof.
  apply (lastmod_round_trip (lit "---") (Examples.descriptor Examples.oldLastmod)
           (lit "2025-06-01T00:00:00+00:00")).
  - reflexivity.
  - not_in_literal.
  - not_in_literal.
  - reflexivity.
  - discriminate.
Defined.

(** C6 as stated fails: a value with a leading blank has neither a line
    feed nor a double quote, and comes back without the blank. *)
Lemma lastmod_round_trip_leading_blank :
  let DELIM := lit "---" in
  let p := parseFrontmatter DELIM (Examples.descriptor Examples.oldLastmod) in
  let X := lit " 2025" in
  valid p = true /\ (nl ∉ X) /\ (dquote ∉ X) /\
  currentLastmod
    (parseFrontmatter DELIM (buildNewContent DELIM (fmLines p) (bodyLines p) X))
  = lit "2025" /\
  lit "2025" <> X.
Proof.
  cbv zeta. split; [reflexivity|]. split; [not_in_literal|]. split; [not_in_literal|].
  split; [reflexivity | discriminate].
Qed.



(** C9.  When the first delimiter of a valid descriptor is not its first
    line, the lines in front of it are not part of what [parseFrontmatter]
    returns, and the text rendered from the parse consists of the delimiter,
    the new header, the delimiter and the body: it begins with the
    delimiter line and the lines in front of the first delimiter are gone. *)
Theorem preamble_dropped (DELIM content X : str) (fmStart : Z) (rest : list Z) :
  valid (parseFrontmatter DELIM content) = true ->
  delimIndices DELIM (split_nl content) = fmStart :: rest ->
  0 < fmStart ->
  let fm := fmLines (parseFrontmatter DELIM content) in
  let body := bodyLines (parseFrontmatter DELIM content) in
  exists pre d1 d2,
    Z.of_nat (length pre) = fmStart /\
    split_nl content = pre ++ d1 :: fm ++ d2 :: body /\
    buildNewContent DELIM fm body X
      = join_nl (DELIM :: newFmLines fm X ++ DELIM :: orEmptyLine body) /\
    (nl ∉ X ->
     split_nl (buildNewContent DELIM fm body X)
       = DELIM :: newFmLines fm X ++ DELIM :: orEmptyLine body).
Proof.
  intros Hv Hidx Hpos fm body.
  destruct (parseFrontmatter_valid_wf DELIM content Hv) as (Hfm & Hbody & Hnd & HDnl & HDt).
  destruct (parseFrontmatter_valid DELIM content Hv)
    as (pre & d1 & d2 & Hl & Hpre & Hd1 & _ & Hd2 & _).
  exists pre, d1, d2. split; [|split; [done|split]].
  - rewrite Hl, delimIndices_from, delimIndicesFrom_skip, delimIndicesFrom_cons, Hd1
      in Hidx by done.
    simpl in Hidx. by inversion Hidx.
  - rewrite newFmLines_replaceFirst. apply buildNewContent_join.
  - intros HX. rewrite newFmLines_replaceFirst. by apply buildNewContent_lines.
Qed.

Lemma preamble_dropped_witness :
  let DELIM := lit "---" in
  let X := lit "2025-06-01T00:00:00+00:00" in
  let p := parseFrontmatter DELIM Examples.descriptorWithPreamble in
  exists pre d1 d2,
    Z.of_nat (length pre) = 2 /\
    split_nl Examples.descriptorWithPreamble
      = pre ++ d1 :: fmLines p ++ d2 :: bodyLines p /\
    buildNewContent DELIM (fmLines p) (bodyLines p) X
      = join_nl (DELIM :: newFmLines (fmLines p) X ++ DELIM :: orEmptyLine (bodyLines p)) /\
    (nl ∉ X ->
     split_nl (buildNewContent DELIM (fmLines p) (bodyLines p) X)
       = DELIM :: newFmLines (fmLines p) X ++ DELIM :: orEmptyLine (bodyLines p)).
Proof.
  cbv zeta.
  apply (preamble_dropped (lit "---") Examples.descriptorWithPreamble
           (lit "2025-06-01T00:00:00+00:00") 2 [4]).
  - reflexivity.
  - reflexivity.
  - reflexivity.
Defined.

(** The descriptor with two lines in front of its first delimiter, parsed
    and rendered: the output starts at the delimiter. *)
Example preamble_dropped_example :
  let DELIM := lit "---" in
  let p := parseFrontmatter DELIM Examples.descriptorWithPreamble in
  split_nl Examples.descriptorWithPreamble
    = [lit "<!-- draft -->"; lit ""; lit "---"; lit "title: Gallery"; lit "---"; lit "Text"] /\
  split_nl (buildNewContent DELIM (fmLines p) (bodyLines p) (lit "2025"))
    = [lit "---"; lit "title: Gallery"; lastmodLine (lit "2025"); lit "---"; lit "Text"].
Proof. cbv zeta. split; vm_compute; reflexivity. Qed.

(** ** Diff engine *)

(** C8.  Swapping the two inventories swaps the counts of added and of
    deleted entries. *)
Theorem diffImages_swap {F : Type} `{EqDecision F} (A B : gmap str (Entry F)) :
  added (diffImages A B) = deleted (diffImages B A) /\
  deleted (diffImages A B) = added (diffImages B A).
Proof.
  rewrite !diffImages_added, !diffImages_deleted. done.
Qed.

(** ** Timestamp format *)

(** C5, as amended.  For two instants that are formatted with the same
    offset and whose local years have four digits, the formatted string of
    the first is lexicographically less than that of the second exactly when
    the first lies in an earlier whole second. *)
Theorem formatLocalISO_order (tz : Z -> Z) (t1 t2 : Z) :
  tz t1 = tz t2 ->
  1000 <= JSDate.getFullYear tz t1 <= 9999 ->
  1000 <= JSDate.getFullYear tz t2 <= 9999 ->
  str_ltb (formatLocalISO tz t1) (formatLocalISO tz t2) = true
  <-> secondOf t1 < secondOf t2.
Proof.
  intros Htz H1 H2.
  rewrite formatLocalISO_ltb, dateFields_order by done.
  apply Z.ltb_lt.
Qed.

Lemma formatLocalISO_order_witness :
  str_ltb (formatLocalISO (fun _ => 60) 1748736000000)
          (formatLocalISO (fun _ => 60) 1748736001000) = true
  <-> secondOf 1748736000000 < secondOf 1748736001000.
Proof.
  apply (formatLocalISO_order (fun _ => 60) 1748736000000 1748736001000).
  - reflexivity.
  - vm_compute. split; discriminate.
  - vm_compute. split; discriminate.
Defined.

(** C5 as stated fails: two instants of one second, the first before the
    second, have the same formatted string. *)
Lemma formatLocalISO_same_second :
  let tz := fun _ : Z => 0 in
  0 < 1 /\
  formatLocalISO tz 0 = lit "1970-01-01T00:00:00+00:00" /\
  formatLocalISO tz 1 = lit "1970-01-01T00:00:00+00:00" /\
  str_ltb (formatLocalISO tz 0) (formatLocalISO tz 1) = false.
Proof. cbv zeta. split; [lia|]. split; [reflexivity|]. split; reflexivity. Qed.

(** When the offset changes between two instants the order of the strings
    can even be reversed: the hour that is repeated when summer time ends
    (here 2025-10-26 in a zone that goes from +02:00 to +01:00). *)
Lemma formatLocalISO_offset_change :
  let tz := fun t : Z => if t <? 1761440400000 then 120 else 60 in
  1761438600000 < 1761442200000 /\
  formatLocalISO tz 1761438600000 = lit "2025-10-26T02:30:00+02:00" /\
  formatLocalISO tz 1761442200000 = lit "2025-10-26T02:30:00+01:00" /\
  str_ltb (formatLocalISO tz 1761442200000) (formatLocalISO tz 1761438600000) = true.
Proof. cbv zeta. split; [lia|]. split; [reflexivity|]. split; reflexivity. Qed.

(** ** Runs of the timestamp generation *)

Section MtimeClaims.

Import Mtime MtimeFacts.

Variable CONFIG : Config.
Variable DRY_RUN : bool.
Variable w : World.

(** The events appended to a trace, read off nested state updates. *)
Ltac solve_trace :=
  first
    [ exists []; split; [by rewrite app_nil_r|]
    | eexists; split;
      [ cbn [trace withEvent withCache withStats withFiles withCacheFile];
        rewrite <- ?app_assoc; reflexivity |] ].

(** C3, as amended.  Whatever [processBundle] does, it appends events to
    the trace such that: when it returns from a bundle without [index.md],
    or throws, the cache object is as before and was not assigned to; when it
    returns otherwise (no images, unchanged, invalid front matter, updated),
    the entry of the bundle was assigned exactly once, and it is the current
    inventory.  A descriptor that cannot be read makes it throw. *)
Theorem cache_entry_set_once (absDir : str) (s : State Z) (r : Result Terminal)
    (s' : State Z) :
  processBundle CONFIG DRY_RUN w absDir s = (r, s') ->
  let relDir := relative w absDir in
  let indexFile := path_join absDir (lit "index.md") in
  (exists evs, trace s' = trace s ++ evs /\
    match r with
    | Ok Skipped => cacheSets evs = [] /\ cache s' = cache s
    | Ok _ =>
        exists currentImages,
          inventoryOf CONFIG w absDir = Ok currentImages /\
          cacheSets evs = [(relDir, {| images := Some currentImages |})] /\
          cache s' = <[relDir := {| images := Some currentImages |}]> (cache s)
    | Throw _ => cacheSets evs = [] /\ cache s' = cache s
    end) /\
  (files s !! indexFile = Some Unreadable ->
   forall currentImages,
     inventoryOf CONFIG w absDir = Ok currentImages -> currentImages <> ∅ ->
     r = Throw (ReadFileError indexFile)).
Proof.
  rewrite processBundle_eq. cbv zeta.
  destruct (files s !! path_join absDir (lit "index.md")) as [file|] eqn:Efile.
  2: { intros [= <- <-]. split; [|done]. solve_trace. done. }
  destruct (inventoryOf CONFIG w absDir) as [currentImages|e] eqn:Einv.
  2: { intros [= <- <-]. split; [|done]. solve_trace. done. }
  destruct (length (elements (dom currentImages)) =? 0)%nat eqn:Elen.
  { rewrite (no_keys_empty currentImages Elen).
    intros [= <- <-]. split.
    - solve_trace. by exists ∅.
    - intros _ inv [= <-] Hne. done. }
  destruct file as [raw|].
  2: { intros [= <- <-]. split.
       - solve_trace. done.
       - by intros _ inv [= <-] _. }
  destruct (valid (parseFrontmatter (FRONTMATTER_DELIM CONFIG) raw)); cbn [negb].
  2: { intros [= <- <-]. split; [|done]. solve_trace. by exists currentImages. }
  destruct (isNewerISO _ _); cbn [negb].
  2: { intros [= <- <-]. split; [|done]. solve_trace. by exists currentImages. }
  destruct DRY_RUN.
  { intros [= <- <-]. split; [|done]. solve_trace. by exists currentImages. }
  destruct (canWrite w _).
  2: { intros [= <- <-]. split; [|done]. solve_trace. done. }
  destruct (GIT_ADD_ENABLED CONFIG); intros [= <- <-]; (split; [|done]);
    solve_trace; by exists currentImages.
Qed.

(** A directory that cannot be listed makes the scanner throw. *)
Lemma inventoryOf_unlistable absDir :
  readdir w absDir = None ->
  inventoryOf CONFIG w absDir = Throw (ReaddirError absDir).
Proof.
  intros H. unfold Mtime.inventoryOf.
  destruct (Z.to_nat (MAXDEPTH CONFIG)); simpl; by rewrite H.
Qed.

(** Each of the named failures makes [processBundle] throw. *)
Lemma processBundle_failure absDir s e :
  bundleFailure CONFIG DRY_RUN w absDir s e ->
  exists s', processBundle CONFIG DRY_RUN w absDir s = (Throw e, s').
Proof.
  intros [[file Hfile] Hcause]. rewrite processBundle_eq. cbv zeta. rewrite Hfile.
  destruct Hcause as [Hinv|(inv & Hinv & Hne & Hcause)]; rewrite Hinv; [by eexists|].
  destruct (length (elements (dom inv)) =? 0)%nat eqn:Elen.
  { by apply no_keys_empty in Elen. }
  destruct Hcause as [[Hu ->]|(raw & Hraw & Hvalid & Hnewer & Hdry & Hwrite & ->)].
  - rewrite Hfile in Hu. injection Hu as ->. by eexists.
  - rewrite Hfile in Hraw. injection Hraw as ->.
    rewrite Hvalid, Hnewer, Hdry, Hwrite. cbn [negb]. by eexists.
Qed.

(** The events of the loop of [main] and of the load of the cache contain
    no footer and no write of the cache file. *)
Lemma mainLoop_no_persist files0 cacheFile0 anyFound (r : Result bool) s1 :
  forEach (allDirs CONFIG w) (mainStep CONFIG DRY_RUN w) anyFound
    (withEvent (initialState CACHE_VERSION files0 cacheFile0) LogHeader) = (r, s1) ->
  cacheFile s1 = cacheFile0 /\
  Forall (fun ev => ~ isLogFooter ev /\ ~ isWriteCache ev) (trace s1).
Proof.
  intros Hloop.
  destruct (mainLoop_emits CONFIG DRY_RUN w anyFound
              (withEvent (initialState CACHE_VERSION files0 cacheFile0) LogHeader))
    as (evs & Htrace & Hevs & _ & _ & Hcf).
  rewrite Hloop in Htrace, Hcf. simpl in Htrace, Hcf.
  assert (Hnone : Forall (fun ev : Event Z => ~ isWriteCache ev) evs).
  { eapply Forall_impl; [exact Hevs|]. by intros ev (? & _). }
  rewrite replayCacheFile_none in Hcf by done.
  split.
  - rewrite Hcf. unfold initialState.
    by destruct (loadCache CACHE_VERSION cacheFile0).
  - rewrite Htrace. apply Forall_app. split.
    + unfold initialState, loadCache.
      destruct cacheFile0 as [[|version [bundles|]]|]; simpl;
        try destruct (version =? CACHE_VERSION); simpl;
        repeat constructor; simpl; tauto.
    + eapply Forall_impl; [exact Hevs|]. intros ev (? & ? & _). tauto.
Qed.

(** C2, as amended.  A failure while one bundle is processed is not
    isolated.  When the loop of [main] has processed the directories [pre]
    and the next one is a directory whose processing fails (a directory of
    the bundle cannot be listed, or the descriptor cannot be read, or it
    cannot be written), then [processBundle] throws, and the run ends there
    with exit code 1: the directories [post] are not processed, the cache
    file is not written and the footer with the statistics is not printed. *)
Theorem bundle_failure_aborts_run (files0 : gmap str FileContent)
    (cacheFile0 : option (CacheFile Z)) (pre post : list str) (dir : str)
    (anyFound : bool) (s1 : State Z) (statsDir : FileStat) (e : Error) :
  allDirs CONFIG w = pre ++ dir :: post ->
  forEach pre (mainStep CONFIG DRY_RUN w) false
    (withEvent (initialState CACHE_VERSION files0 cacheFile0) LogHeader)
    = (Ok anyFound, s1) ->
  statSync w dir = Some statsDir -> st_isDirectory statsDir = true ->
  bundleFailure CONFIG DRY_RUN w (resolve w (cleanDir dir))
    (withStats s1 (incrTotal (stats s1))) e ->
  exists s2,
    processBundle CONFIG DRY_RUN w (resolve w (cleanDir dir))
      (withStats s1 (incrTotal (stats s1))) = (Throw e, s2) /\
    script CONFIG DRY_RUN w files0 cacheFile0 = (1, withEvent s2 (LogUnexpected e)) /\
    cacheFile s2 = cacheFile0 /\
    Forall (fun ev => ~ isLogFooter ev /\ ~ isWriteCache ev) (trace s2).
Proof.
  intros Hdirs Hpre Hstat Hisdir Hfail.
  destruct (processBundle_failure _ _ _ Hfail) as [s2 Hs2].
  exists s2. split; [done|].
  assert (Hstep : mainStep CONFIG DRY_RUN w anyFound dir s1 = (Throw e, s2)).
  { unfold Mtime.mainStep. rewrite Hstat, Hisdir. cbn [negb].
    rewrite bind_unfold, modifyStats_eq. cbv beta iota.
    rewrite bind_unfold, Hs2. done. }
  pose proof (forEach_throw pre post dir _ _ _ _ _ _ _ Hpre Hstep) as Hloop.
  rewrite <- Hdirs in Hloop.
  split.
  - unfold script, runMain. by rewrite main_unfold, Hloop.
  - by apply (mainLoop_no_persist files0 cacheFile0 false (Throw e)).
Qed.

(** The cache object and the trace after the loop of [main]. *)
Lemma mainLoop_cache (files0 : gmap str FileContent) (loaded : gmap str (Bundle Z))
    (r : Result bool) (s1 : State Z) :
  forEach (allDirs CONFIG w) (mainStep CONFIG DRY_RUN w) false
    (withEvent (initialState CACHE_VERSION files0
                  (Some (CacheJson CACHE_VERSION (Some loaded)))) LogHeader) = (r, s1) ->
  exists evs,
    trace s1 = [LogHeader] ++ evs /\
    cache s1 = replayCache evs loaded /\
    Forall (bundleEvents (visited CONFIG w) DRY_RUN) evs.
Proof.
  intros Hloop.
  destruct (mainLoop_emits CONFIG DRY_RUN w false
              (withEvent (initialState CACHE_VERSION files0
                  (Some (CacheJson CACHE_VERSION (Some loaded)))) LogHeader))
    as (evs & Htrace & Hevs & Hcache & _ & _).
  rewrite Hloop in Htrace, Hcache. by exists evs.
Qed.

Lemma elem_of_snoc_ne {A} (l : list A) (x y : A) : x <> y -> x ∈ l ++ [y] -> x ∈ l.
Proof.
  intros Hne Hin. apply elem_of_app in Hin as [?|Hin]; [done|].
  apply elem_of_cons in Hin as [?|Hin]; [done|]. by apply elem_of_nil in Hin.
Qed.

(** C10.  After a run, the cache file holds, for every key that the run did
    not assign to, the entry that was loaded; the run assigns only to keys of
    directories it visits; and every loaded entry has an entry in the cache
    file.  (A run that completes has written the cache object to the file; a
    run that throws has left the loaded file.) *)
Theorem cache_entries_kept (files0 : gmap str FileContent)
    (loaded : gmap str (Bundle Z)) :
  let s' := snd (script CONFIG DRY_RUN w files0
                   (Some (CacheJson CACHE_VERSION (Some loaded)))) in
  exists persisted,
    cacheFile s' = Some (CacheJson CACHE_VERSION (Some persisted)) /\
    (fst (script CONFIG DRY_RUN w files0
            (Some (CacheJson CACHE_VERSION (Some loaded)))) = 0 ->
     persisted = cache s') /\
    (forall k, (forall b, CacheSet k b ∉ trace s') -> persisted !! k = loaded !! k) /\
    (forall k b, CacheSet k b ∈ trace s' -> visited CONFIG w k) /\
    (forall k, is_Some (loaded !! k) -> is_Some (persisted !! k)).
Proof.
  cbv zeta. unfold script, runMain. rewrite main_unfold.
  set (s0 := withEvent (initialState CACHE_VERSION files0
                          (Some (CacheJson CACHE_VERSION (Some loaded)))) LogHeader).
  destruct (forEach (allDirs CONFIG w) (mainStep CONFIG DRY_RUN w) false s0)
    as [r s1] eqn:Hloop.
  destruct (mainLoop_cache _ _ _ _ Hloop) as (evs & Htrace & Hcache & Hevs).
  destruct (mainLoop_no_persist _ _ _ _ _ Hloop) as [Hcf _].
  assert (Hvisited : forall k b, CacheSet (F:=Z) k b ∈ evs -> visited CONFIG w k).
  { intros k b Hin. rewrite Forall_forall in Hevs.
    destruct (Hevs _ Hin) as (_ & _ & Hkey & _). exact Hkey. }
  assert (Hin1 : forall k b, CacheSet (F:=Z) k b ∈ trace s1 -> CacheSet k b ∈ evs).
  { intros k b Hin. rewrite Htrace in Hin.
    apply elem_of_cons in Hin as [?|Hin]; done. }
  destruct r as [anyFound|e].
  - cbv zeta. destruct (canWrite w CACHE_PATH).
    + exists (replayCache evs loaded). cbn [snd fst].
      split; [by destruct anyFound; cbn; rewrite Hcache|].
      split; [intros _; by destruct anyFound; cbn; rewrite Hcache|].
      assert (Hin3 : forall k b,
        CacheSet (F:=Z) k b ∈ trace (if anyFound then s1 else withEvent s1 LogNoneFound)
        -> CacheSet k b ∈ evs).
      { intros k b Hin. destruct anyFound; [by apply Hin1|].
        apply Hin1. by apply elem_of_snoc_ne in Hin. }
      split; [|split].
      * intros k Hk. apply replayCache_other. intros b Hin. apply (Hk b).
        cbn [trace withEvent withCacheFile].
        apply elem_of_app. left. apply elem_of_app. left.
        destruct anyFound; cbn [trace withEvent]; rewrite Htrace.
        -- by right.
        -- apply elem_of_app. left. by right.
      * intros k b Hin. cbn [trace withEvent withCacheFile] in Hin.
        apply elem_of_snoc_ne in Hin; [|done].
        apply elem_of_snoc_ne in Hin; [|done].
        apply (Hvisited k b). by apply Hin3.
      * intros k. apply replayCache_is_Some.
    + exists loaded. cbn [snd fst].
      split; [by destruct anyFound; cbn; rewrite Hcf|].
      split; [done|]. split; [done|]. split; [|done].
      intros k b Hin. cbn [trace withEvent] in Hin.
      apply elem_of_snoc_ne in Hin; [|done].
      apply (Hvisited k b).
      destruct anyFound; [by apply Hin1|].
      apply Hin1. by apply elem_of_snoc_ne in Hin.
  - exists loaded. cbn [snd fst]. split; [by cbn; rewrite Hcf|].
    split; [done|]. split; [done|]. split; [|done].
    intros k b Hin. cbn [trace withEvent] in Hin.
    apply elem_of_snoc_ne in Hin; [|done].
    apply (Hvisited k b). by apply Hin1.
Qed.

End MtimeClaims.

(** *** Concrete runs of the timestamp generation *)

Section MtimeRuns.

Import Examples.

Lemma cache_entry_set_once_witness :
  let w := world true true 1748736000000 in
  let s := initialState Mtime.CACHE_VERSION files0 None in
  let res := Mtime.processBundle config false w dirA s in
  fst res = Ok Updated /\
  exists evs, trace (snd res) = trace s ++ evs /\
    exists currentImages,
      Mtime.inventoryOf config w dirA = Ok currentImages /\
      cacheSets evs = [(dirA, {| images := Some currentImages |})] /\
      cache (snd res) = <[dirA := {| images := Some currentImages |}]> (cache s).
Proof.
  cbv zeta. split; [vm_compute; reflexivity|].
  exact (proj1 (cache_entry_set_once config false (world true true 1748736000000) dirA
    (initialState Mtime.CACHE_VERSION files0 None) (Ok Updated)
    (snd (Mtime.processBundle config false (world true true 1748736000000) dirA
            (initialState Mtime.CACHE_VERSION files0 None)))
    ltac:(vm_compute; reflexivity))).
Defined.

(** C3 as stated fails: the bundle [a] has one image, its descriptor cannot
    be read; [processBundle] throws and the cache has no entry for [a]. *)
Lemma unreadable_descriptor_no_cache_entry :
  let w := world true true 1748736000000 in
  let s := initialState Mtime.CACHE_VERSION filesUnreadableA None in
  let res := Mtime.processBundle config false w dirA s in
  Mtime.inventoryOf config w dirA
    = Ok {[ imgA := {| fp := 1748736000000; e_size := 100 |} ]} /\
  fst res = Throw (ReadFileError indexA) /\
  cache (snd res) !! dirA = None /\
  cacheSets (trace (snd res)) = [].
Proof. cbv zeta. repeat split; vm_compute; reflexivity. Qed.

Lemma bundle_failure_aborts_run_witness :
  let w := world false true 1748736000000 in
  let s1 := withEvent (initialState Mtime.CACHE_VERSION files0 None) LogHeader in
  exists s2,
    Mtime.processBundle config false w dirA (withStats s1 (incrTotal (stats s1)))
      = (Throw (ReaddirError dirA), s2) /\
    Mtime.script config false w files0 None
      = (1, withEvent s2 (LogUnexpected (ReaddirError dirA))) /\
    cacheFile s2 = None /\
    Forall (fun ev => ~ isLogFooter ev /\ ~ isWriteCache ev) (trace s2).
Proof.
  cbv zeta.
  apply (bundle_failure_aborts_run config false (world false true 1748736000000)
           files0 None [] [lit "content/galleries/b/"] (lit "content/galleries/a/")
           false
           (withEvent (initialState Mtime.CACHE_VERSION files0 None) LogHeader)
           {| st_isDirectory := true; st_mtimeMs := 0; st_size := 4096 |}
           (ReaddirError dirA)).
  - reflexivity.
  - reflexivity.
  - reflexivity.
  - reflexivity.
  - split.
    + exists (Text (descriptor oldLastmod)). vm_compute. reflexivity.
    + left. vm_compute. reflexivity.
Defined.

(** C2 as stated fails: the directory of the first bundle cannot be listed;
    the run ends with exit code 1, the second bundle is not processed, no
    cache file is written and no footer is printed. *)
Lemma unlistable_bundle_ends_run :
  let w := world false true 1748736000000 in
  let res := Mtime.script config false w files0 None in
  Mtime.allDirs config w = [lit "content/galleries/a/"; lit "content/galleries/b/"] /\
  fst res = 1 /\
  trace (snd res) = [LogHeader; LogUnexpected (ReaddirError dirA)] /\
  cacheFile (snd res) = None /\
  cache (snd res) = ∅ /\
  files (snd res) = files0.
Proof. cbv zeta. repeat split; vm_compute; reflexivity. Qed.

(** The entry of the bundle that is gone is in the cache file after the run. *)
Lemma gone_bundle_entry_kept :
  let w := world true true 1748736000000 in
  let s' := snd (Mtime.script config false w files0
                   (Some (CacheJson Mtime.CACHE_VERSION (Some loaded0)))) in
  exists persisted,
    cacheFile s' = Some (CacheJson Mtime.CACHE_VERSION (Some persisted)) /\
    persisted !! goneDir = loaded0 !! goneDir /\
    is_Some (persisted !! dirA) /\ is_Some (persisted !! dirB).
Proof.
  cbv zeta. eexists. split; [vm_compute; reflexivity|].
  split; [vm_compute; reflexivity|]. split; vm_compute; eauto.
Qed.

End MtimeRuns.

(** ** Dry runs *)

(** C1, as amended.  In the checksum generation a dry run of [main] leaves
    the cache file and the descriptor files as they were, while
    [processBundle] still assigns the current inventory to the entry of every
    bundle it processes.  In the timestamp generation a dry run of [main]
    leaves the descriptor files as they were, and when it completes the cache
    file has been written: it holds the cache object. *)
Theorem dry_run_effects (CONFIG : Config) (w : World) (sh : State str) (sm : State Z) :
  (cacheFile (snd (Hash.main CONFIG true w sh)) = cacheFile sh /\
   files (snd (Hash.main CONFIG true w sh)) = files sh /\
   (forall absDir s t s',
      Hash.processBundle CONFIG true w absDir s = (Ok t, s') -> t <> Skipped ->
      exists currentImages,
        Hash.inventoryOf CONFIG w absDir = Ok currentImages /\
        cache s' = <[relative w absDir := {| images := Some currentImages |}]> (cache s)))
  /\
  (files (snd (Mtime.main CONFIG true w sm)) = files sm /\
   (fst (Mtime.main CONFIG true w sm) = Ok tt ->
    cacheFile (snd (Mtime.main CONFIG true w sm))
    = Some (CacheJson Mtime.CACHE_VERSION
              (Some (cache (snd (Mtime.main CONFIG true w sm))))))).
Proof.
  split.
  - rewrite HashFacts.hash_main_unfold.
    destruct (HashFacts.hash_mainLoop_emits CONFIG true w false (withEvent sh LogHeader))
      as (evs & _ & Hevs & _ & Hfiles & Hcf).
    assert (Hnw : Forall (fun ev : Event str => ~ isWriteCache ev) evs).
    { eapply Forall_impl; [exact Hevs|]. by intros ev (? & _). }
    assert (Hnd : Forall (fun ev : Event str => ~ isWriteDescriptor ev) evs).
    { eapply Forall_impl; [exact Hevs|]. intros ev (_ & _ & _ & H). by apply H. }
    rewrite replayFiles_none in Hfiles by done.
    rewrite replayCacheFile_none in Hcf by done.
    destruct (forEach _ _ _ _) as [[anyFound|e] s1]; simpl in Hfiles, Hcf.
    + split; [by destruct anyFound|]. split; [by destruct anyFound|].
      intros absDir s t s'. apply HashFacts.hash_processBundle_cache.
    + split; [done|]. split; [done|].
      intros absDir s t s'. apply HashFacts.hash_processBundle_cache.
  - rewrite MtimeFacts.main_unfold.
    destruct (MtimeFacts.mainLoop_emits CONFIG true w false (withEvent sm LogHeader))
      as (evs & _ & Hevs & _ & Hfiles & _).
    assert (Hnd : Forall (fun ev : Event Z => ~ isWriteDescriptor ev) evs).
    { eapply Forall_impl; [exact Hevs|]. intros ev (_ & _ & _ & H). by apply H. }
    rewrite replayFiles_none in Hfiles by done.
    destruct (forEach _ _ _ _) as [[anyFound|e] s1]; simpl in Hfiles.
    + cbv zeta. destruct (canWrite w Mtime.CACHE_PATH).
      * split; [by destruct anyFound|]. intros _. by destruct anyFound.
      * split; [by destruct anyFound|]. done.
    + split; [done|]. done.
Qed.

(** C1 as stated fails: a dry run of the timestamp generation, started
    without a cache file, ends with a cache file; the descriptors, which were
    to be updated, are as before. *)
Lemma dry_run_writes_cache_file :
  let w := Examples.world true true 1748736000000 in
  let res := Mtime.script Examples.config true w Examples.files0 None in
  fst res = 0 /\
  updatedBundles (stats (snd res)) = 2 /\
  files (snd res) = Examples.files0 /\
  cacheFile (snd res)
    = Some (CacheJson Mtime.CACHE_VERSION (Some (cache (snd res)))) /\
  cacheFile (snd res) <> None.
Proof.
  cbv zeta. split; [vm_compute; reflexivity|]. split; [vm_compute; reflexivity|].
  split; [vm_compute; reflexivity|]. split; [vm_compute; reflexivity|].
  vm_compute. discriminate.
Qed.

(** The same run of the checksum generation leaves no cache file. *)
Lemma dry_run_hash_no_cache_file :
  let w := Examples.world true true 1748736000000 in
  let res := Hash.script Examples.config true w Examples.files0 None in
  fst res = 0 /\
  updatedBundles (stats (snd res)) = 2 /\
  files (snd res) = Examples.files0 /\
  cacheFile (snd res) = None /\
  is_Some (cache (snd res) !! Examples.dirA).
Proof.
  cbv zeta. split; [vm_compute; reflexivity|]. split; [vm_compute; reflexivity|].
  split; [vm_compute; reflexivity|]. split; [vm_compute; reflexivity|].
  vm_compute. eauto.
Qed.

(** ** The decision of the timestamp generation *)

Section Decision.

Import Mtime MtimeFacts.

Variable CONFIG : Config.
Variable DRY_RUN : bool.
Variable w : World.

(** The rule of step 5, for a bundle with images and a readable, valid
    descriptor: the candidate is the formatted result of the loop of step 3;
    the bundle is updated exactly when the current value is empty or the
    candidate is the greater string, whatever the cache holds; an update
    that is not a dry run writes the rendered descriptor, no update leaves the
    files alone.  The loop of step 3 yields the maximum timestamp when some
    image is not older than the epoch. *)
Lemma lastmod_decision (absDir raw : str) (currentImages : gmap str (Entry Z))
    (s : State Z) :
  let indexFile := path_join absDir (lit "index.md") in
  let fm := parseFrontmatter (FRONTMATTER_DELIM CONFIG) raw in
  let candidate := formatLocalISO (tz w) (maxMtime currentImages) in
  files s !! indexFile = Some (Text raw) ->
  inventoryOf CONFIG w absDir = Ok currentImages ->
  currentImages <> ∅ ->
  valid fm = true ->
  ((forall key e, currentImages !! key = Some e -> 0 <= mtimeMs e ->
      isMaxMtime (maxMtime currentImages) currentImages) /\
   (currentLastmod fm = [] \/ str_gtb candidate (currentLastmod fm) = true ->
    DRY_RUN = true \/ canWrite w indexFile = true ->
    fst (processBundle CONFIG DRY_RUN w absDir s) = Ok Updated /\
    files (snd (processBundle CONFIG DRY_RUN w absDir s))
    = if DRY_RUN then files s
      else <[indexFile :=
               Text (buildNewContent (FRONTMATTER_DELIM CONFIG)
                       (fmLines fm) (bodyLines fm) candidate)]> (files s)) /\
   (~ (currentLastmod fm = [] \/ str_gtb candidate (currentLastmod fm) = true) ->
    fst (processBundle CONFIG DRY_RUN w absDir s) = Ok Unchanged /\
    files (snd (processBundle CONFIG DRY_RUN w absDir s)) = files s)).
Proof.
  intros indexFile fm candidate Hfile Hinv Hne Hvalid.
  split; [intros key e; apply maxMtime_isMax|].
  rewrite processBundle_eq. cbv zeta. fold indexFile. rewrite Hfile, Hinv.
  destruct (length (elements (dom currentImages)) =? 0)%nat eqn:Elen.
  { by apply no_keys_empty in Elen. }
  fold fm. rewrite Hvalid. cbn [negb]. fold candidate.
  pose proof (isNewerISO_spec candidate (currentLastmod fm)) as Hspec.
  destruct (isNewerISO candidate (currentLastmod fm)); cbn [negb].
  - split.
    + intros _ Hwrite. destruct DRY_RUN; [done|].
      destruct Hwrite as [?|Hwrite]; [done|]. rewrite Hwrite.
      by destruct (GIT_ADD_ENABLED CONFIG).
    + intros Hno. exfalso. apply Hno. by apply Hspec.
  - split.
    + intros Hyes. apply Hspec in Hyes. done.
    + done.
Qed.

End Decision.

(** C4 fails on the code for images older than the epoch, since the loop for
    the maximum starts from zero.  The only image of the bundle was modified
    one second before the epoch, and the descriptor carries exactly that time:
    the maximum timestamp, formatted, ties with the current value, yet the
    candidate is the epoch and the descriptor is rewritten. *)
Theorem candidate_not_before_epoch :
  let w := Examples.world true true (-1000) in
  let s := initialState Mtime.CACHE_VERSION Examples.filesBeforeEpoch None in
  let inventory : gmap str (Entry Z) :=
    {[ Examples.imgA := {| fp := -1000; e_size := 100 |} ]} in
  let res := Mtime.processBundle Examples.config false w Examples.dirA s in
  Mtime.inventoryOf Examples.config w Examples.dirA = Ok inventory /\
  Mtime.isMaxMtime (-1000) inventory /\
  formatLocalISO (tz w) (-1000) = Examples.beforeEpoch /\
  currentLastmod (parseFrontmatter (lit "---") (Examples.descriptor Examples.beforeEpoch))
    = Examples.beforeEpoch /\
  Mtime.maxMtime inventory = 0 /\
  fst res = Ok Updated /\
  files (snd res) !! Examples.indexA
    = Some (Text (Examples.descriptor (lit "1970-01-01T00:00:00+00:00"))).
Proof.
  cbv zeta. split; [vm_compute; reflexivity|]. split.
  { split.
    - exists Examples.imgA, {| fp := -1000; e_size := 100 |}.
      split; [|done]. apply lookup_singleton_eq.
    - intros key e Hkey. apply lookup_singleton_Some in Hkey as [_ <-]. simpl. lia. }
  split; [vm_compute; reflexivity|]. split; [vm_compute; reflexivity|].
  split; [vm_compute; reflexivity|]. split; vm_compute; reflexivity.
Qed.

(** ** Runs of the checksum generation

    The statements about runs hold for the checksum generation as well. *)

Section HashClaims.

Import Hash HashFacts.

Variable CONFIG : Config.
Variable DRY_RUN : bool.
Variable w : World.

(** The events appended to a trace, read off nested state updates. *)
Ltac solve_trace :=
  first
    [ exists []; split; [by rewrite app_nil_r|]
    | eexists; split;
      [ cbn [trace withEvent withCache withStats withFiles withCacheFile];
        rewrite <- ?app_assoc; reflexivity |] ].

(** Whatever [processBundle] does, it appends events to
    the trace such that: when it returns from a bundle without [index.md],
    or throws, the cache object is as before and was not assigned to; when it
    returns otherwise (no images, unchanged, invalid front matter, updated),
    the entry of the bundle was assigned exactly once, and it is the current
    inventory.  A descriptor that cannot be read makes it throw. *)
Lemma hash_cache_entry_set_once (absDir : str) (s : State str) (r : Result Terminal)
    (s' : State str) :
  processBundle CONFIG DRY_RUN w absDir s = (r, s') ->
  let relDir := relative w absDir in
  let indexFile := path_join absDir (lit "index.md") in
  (exists evs, trace s' = trace s ++ evs /\
    match r with
    | Ok Skipped => cacheSets evs = [] /\ cache s' = cache s
    | Ok _ =>
        exists currentImages,
          inventoryOf CONFIG w absDir = Ok currentImages /\
          cacheSets evs = [(relDir, {| images := Some currentImages |})] /\
          cache s' = <[relDir := {| images := Some currentImages |}]> (cache s)
    | Throw _ => cacheSets evs = [] /\ cache s' = cache s
    end) /\
  (files s !! indexFile = Some Unreadable ->
   forall currentImages,
     inventoryOf CONFIG w absDir = Ok currentImages -> currentImages <> ∅ ->
     r = Throw (ReadFileError indexFile)).
Proof.
  rewrite hash_processBundle_eq. cbv zeta.
  destruct (files s !! path_join absDir (lit "index.md")) as [file|] eqn:Efile.
  2: { intros [= <- <-]. split; [|done]. solve_trace. done. }
  destruct (inventoryOf CONFIG w absDir) as [currentImages|e] eqn:Einv.
  2: { intros [= <- <-]. split; [|done]. solve_trace. done. }
  destruct (length (elements (dom currentImages)) =? 0)%nat eqn:Elen.
  { rewrite (no_keys_empty currentImages Elen).
    intros [= <- <-]. split.
    - solve_trace. by exists ∅.
    - intros _ inv [= <-] Hne. done. }
  destruct file as [raw|].
  2: { intros [= <- <-]. split.
       - solve_trace. done.
       - by intros _ inv [= <-] _. }
  destruct (_ =? 0).
  { destruct (valid _); intros [= <- <-]; (split; [|done]);
      solve_trace; by exists currentImages. }
  destruct (valid (parseFrontmatter (FRONTMATTER_DELIM CONFIG) raw)); cbn [negb].
  2: { intros [= <- <-]. split; [|done]. solve_trace. by exists currentImages. }
  destruct (isNewerISO _ _); cbn [negb].
  2: { intros [= <- <-]. split; [|done]. solve_trace. by exists currentImages. }
  destruct DRY_RUN.
  { intros [= <- <-]. split; [|done]. solve_trace. by exists currentImages. }
  destruct (canWrite w _).
  2: { intros [= <- <-]. split; [|done]. solve_trace. done. }
  destruct (GIT_ADD_ENABLED CONFIG); intros [= <- <-]; (split; [|done]);
    solve_trace; by exists currentImages.
Qed.

(** A directory that cannot be listed makes the scanner throw. *)
Lemma hash_inventoryOf_unlistable absDir :
  readdir w absDir = None ->
  inventoryOf CONFIG w absDir = Throw (ReaddirError absDir).
Proof.
  intros H. unfold Hash.inventoryOf.
  destruct (Z.to_nat (MAXDEPTH CONFIG)); simpl; by rewrite H.
Qed.

(** Each of the named failures makes [processBundle] throw. *)
Lemma hash_processBundle_failure absDir s e :
  bundleFailure CONFIG DRY_RUN w absDir s e ->
  exists s', processBundle CONFIG DRY_RUN w absDir s = (Throw e, s').
Proof.
  intros [[file Hfile] Hcause]. rewrite hash_processBundle_eq. cbv zeta. rewrite Hfile.
  destruct Hcause as [Hinv|(inv & Hinv & Hne & Hcause)]; rewrite Hinv; [by eexists|].
  destruct (length (elements (dom inv)) =? 0)%nat eqn:Elen.
  { by apply no_keys_empty in Elen. }
  destruct Hcause as [[Hu ->]|(raw & Hraw & Hdiff & Hvalid & Hnewer & Hdry & Hwrite & ->)].
  - rewrite Hfile in Hu. injection Hu as ->. by eexists.
  - rewrite Hfile in Hraw. injection Hraw as ->.
    rewrite Hdiff, Hvalid, Hnewer, Hdry, Hwrite. cbn [negb]. by eexists.
Qed.

(** The events of the loop of [main] and of the load of the cache contain
    no footer and no write of the cache file. *)
Lemma hash_mainLoop_no_persist files0 cacheFile0 anyFound (r : Result bool) s1 :
  forEach (allDirs CONFIG w) (mainStep CONFIG DRY_RUN w) anyFound
    (withEvent (initialState CACHE_VERSION files0 cacheFile0) LogHeader) = (r, s1) ->
  cacheFile s1 = cacheFile0 /\
  Forall (fun ev => ~ isLogFooter ev /\ ~ isWriteCache ev) (trace s1).
Proof.
  intros Hloop.
  destruct (hash_mainLoop_emits CONFIG DRY_RUN w anyFound
              (withEvent (initialState CACHE_VERSION files0 cacheFile0) LogHeader))
    as (evs & Htrace & Hevs & _ & _ & Hcf).
  rewrite Hloop in Htrace, Hcf. simpl in Htrace, Hcf.
  assert (Hnone : Forall (fun ev : Event str => ~ isWriteCache ev) evs).
  { eapply Forall_impl; [exact Hevs|]. by intros ev (? & _). }
  rewrite replayCacheFile_none in Hcf by done.
  split.
  - rewrite Hcf. unfold initialState.
    by destruct (loadCache CACHE_VERSION cacheFile0).
  - rewrite Htrace. apply Forall_app. split.
    + unfold initialState, loadCache.
      destruct cacheFile0 as [[|version [bundles|]]|]; simpl;
        try destruct (version =? CACHE_VERSION); simpl;
        repeat constructor; simpl; tauto.
    + eapply Forall_impl; [exact Hevs|]. intros ev (? & ? & _). tauto.
Qed.

(** A failure while one bundle is processed is not
    isolated.  When the loop of [main] has processed the directories [pre]
    and the next one is a directory whose processing fails (a directory of
    the bundle cannot be listed, or the descriptor cannot be read, or it
    cannot be written), then [processBundle] throws, and the run ends there
    with exit code 1: the directories [post] are not processed, the cache
    file is not written and the footer with the statistics is not printed. *)
Lemma hash_bundle_failure_aborts_run (files0 : gmap str FileContent)
    (cacheFile0 : option (CacheFile str)) (pre post : list str) (dir : str)
    (anyFound : bool) (s1 : State str) (statsDir : FileStat) (e : Error) :
  allDirs CONFIG w = pre ++ dir :: post ->
  forEach pre (mainStep CONFIG DRY_RUN w) false
    (withEvent (initialState CACHE_VERSION files0 cacheFile0) LogHeader)
    = (Ok anyFound, s1) ->
  statSync w dir = Some statsDir -> st_isDirectory statsDir = true ->
  bundleFailure CONFIG DRY_RUN w (resolve w (cleanDir dir))
    (withStats s1 (incrTotal (stats s1))) e ->
  exists s2,
    processBundle CONFIG DRY_RUN w (resolve w (cleanDir dir))
      (withStats s1 (incrTotal (stats s1))) = (Throw e, s2) /\
    script CONFIG DRY_RUN w files0 cacheFile0 = (1, withEvent s2 (LogUnexpected e)) /\
    cacheFile s2 = cacheFile0 /\
    Forall (fun ev => ~ isLogFooter ev /\ ~ isWriteCache ev) (trace s2).
Proof.
  intros Hdirs Hpre Hstat Hisdir Hfail.
  destruct (hash_processBundle_failure _ _ _ Hfail) as [s2 Hs2].
  exists s2. split; [done|].
  assert (Hstep : mainStep CONFIG DRY_RUN w anyFound dir s1 = (Throw e, s2)).
  { unfold Hash.mainStep. rewrite Hstat, Hisdir. cbn [negb].
    rewrite bind_unfold, modifyStats_eq. cbv beta iota.
    rewrite bind_unfold, Hs2. done. }
  pose proof (forEach_throw pre post dir _ _ _ _ _ _ _ Hpre Hstep) as Hloop.
  rewrite <- Hdirs in Hloop.
  split.
  - unfold script, runMain. by rewrite hash_main_unfold, Hloop.
  - by apply (hash_mainLoop_no_persist files0 cacheFile0 false (Throw e)).
Qed.

(** The cache object and the trace after the loop of [main]. *)
Lemma hash_mainLoop_cache (files0 : gmap str FileContent) (loaded : gmap str (Bundle str))
    (r : Result bool) (s1 : State str) :
  forEach (allDirs CONFIG w) (mainStep CONFIG DRY_RUN w) false
    (withEvent (initialState CACHE_VERSION files0
                  (Some (CacheJson CACHE_VERSION (Some loaded)))) LogHeader) = (r, s1) ->
  exists evs,
    trace s1 = [LogHeader] ++ evs /\
    cache s1 = replayCache evs loaded /\
    Forall (bundleEvents (visited CONFIG w) DRY_RUN) evs.
Proof.
  intros Hloop.
  destruct (hash_mainLoop_emits CONFIG DRY_RUN w false
              (withEvent (initialState CACHE_VERSION files0
                  (Some (CacheJson CACHE_VERSION (Some loaded)))) LogHeader))
    as (evs & Htrace & Hevs & Hcache & _ & _).
  rewrite Hloop in Htrace, Hcache. by exists evs.
Qed.

(** After a run, the cache file holds, for every key that the run did
    not assign to, the entry that was loaded; the run assigns only to keys of
    directories it visits; and every loaded entry has an entry in the cache
    file.  (A run that completes and is not a dry run has written the cache
    object to the file; a dry run and a run that throws have left the loaded
    file.) *)
Lemma hash_cache_entries_kept (files0 : gmap str FileContent)
    (loaded : gmap str (Bundle str)) :
  let s' := snd (script CONFIG DRY_RUN w files0
                   (Some (CacheJson CACHE_VERSION (Some loaded)))) in
  exists persisted,
    cacheFile s' = Some (CacheJson CACHE_VERSION (Some persisted)) /\
    (fst (script CONFIG DRY_RUN w files0
            (Some (CacheJson CACHE_VERSION (Some loaded)))) = 0 ->
     DRY_RUN = false -> persisted = cache s') /\
    (forall k, (forall b, CacheSet k b ∉ trace s') -> persisted !! k = loaded !! k) /\
    (forall k b, CacheSet k b ∈ trace s' -> visited CONFIG w k) /\
    (forall k, is_Some (loaded !! k) -> is_Some (persisted !! k)).
Proof.
  cbv zeta. unfold script, runMain. rewrite hash_main_unfold.
  set (s0 := withEvent (initialState CACHE_VERSION files0
                          (Some (CacheJson CACHE_VERSION (Some loaded)))) LogHeader).
  destruct (forEach (allDirs CONFIG w) (mainStep CONFIG DRY_RUN w) false s0)
    as [r s1] eqn:Hloop.
  destruct (hash_mainLoop_cache _ _ _ _ Hloop) as (evs & Htrace & Hcache & Hevs).
  destruct (hash_mainLoop_no_persist _ _ _ _ _ Hloop) as [Hcf _].
  assert (Hvisited : forall k b, CacheSet (F:=str) k b ∈ evs -> visited CONFIG w k).
  { intros k b Hin. rewrite Forall_forall in Hevs.
    destruct (Hevs _ Hin) as (_ & _ & Hkey & _). exact Hkey. }
  assert (Hin1 : forall k b, CacheSet (F:=str) k b ∈ trace s1 -> CacheSet k b ∈ evs).
  { intros k b Hin. rewrite Htrace in Hin.
    apply elem_of_cons in Hin as [?|Hin]; done. }
  destruct r as [anyFound|e].
  - cbv zeta. destruct DRY_RUN eqn:Hdry.
    { exists loaded. cbn [snd fst].
      split; [by destruct anyFound; cbn; rewrite Hcf|].
      split; [done|]. split; [done|]. split; [|done].
      intros k b Hin. cbn [trace withEvent] in Hin.
      apply elem_of_snoc_ne in Hin; [|done].
      apply elem_of_snoc_ne in Hin; [|done].
      apply (Hvisited k b).
      destruct anyFound; [by apply Hin1|].
      apply Hin1. by apply elem_of_snoc_ne in Hin. }
    destruct (canWrite w CACHE_PATH).
    + exists (replayCache evs loaded). cbn [snd fst].
      split; [by destruct anyFound; cbn; rewrite Hcache|].
      split; [intros _ _; by destruct anyFound; cbn; rewrite Hcache|].
      assert (Hin3 : forall k b,
        CacheSet (F:=str) k b ∈ trace (if anyFound then s1 else withEvent s1 LogNoneFound)
        -> CacheSet k b ∈ evs).
      { intros k b Hin. destruct anyFound; [by apply Hin1|].
        apply Hin1. by apply elem_of_snoc_ne in Hin. }
      split; [|split].
      * intros k Hk. apply replayCache_other. intros b Hin. apply (Hk b).
        cbn [trace withEvent withCacheFile].
        apply elem_of_app. left. apply elem_of_app. left.
        destruct anyFound; cbn [trace withEvent]; rewrite Htrace.
        -- by right.
        -- apply elem_of_app. left. by right.
      * intros k b Hin. cbn [trace withEvent withCacheFile] in Hin.
        apply elem_of_snoc_ne in Hin; [|done].
        apply elem_of_snoc_ne in Hin; [|done].
        apply (Hvisited k b). by apply Hin3.
      * intros k. apply replayCache_is_Some.
    + exists loaded. cbn [snd fst].
      split; [by destruct anyFound; cbn; rewrite Hcf|].
      split; [done|]. split; [done|]. split; [|done].
      intros k b Hin. cbn [trace withEvent] in Hin.
      apply elem_of_snoc_ne in Hin; [|done].
      apply (Hvisited k b).
      destruct anyFound; [by apply Hin1|].
      apply Hin1. by apply elem_of_snoc_ne in Hin.
  - exists loaded. cbn [snd fst]. split; [by cbn; rewrite Hcf|].
    split; [done|]. split; [done|]. split; [|done].
    intros k b Hin. cbn [trace withEvent] in Hin.
    apply elem_of_snoc_ne in Hin; [|done].
    apply (Hvisited k b). by apply Hin1.
Qed.

End HashClaims.

(** * Further properties of the code *)

(** ** Descriptor editor *)

Section DescriptorMore.

Variable DELIM : str.

Lemma delimIndicesFrom_length k lines :
  length (delimIndicesFrom DELIM k lines) = length (List.filter (isDelim DELIM) lines).
Proof.
  revert k. induction lines as [|l ls IH]; intros k; [done|].
  rewrite delimIndicesFrom_cons, length_app, IH. simpl.
  by destruct (isDelim DELIM l).
Qed.

Lemma delimIndicesFrom_ge k lines :
  Forall (fun i => Z.of_nat k <= i) (delimIndicesFrom DELIM k lines).
Proof.
  revert k. induction lines as [|l ls IH]; intros k.
  - constructor.
  - rewrite delimIndicesFrom_cons. apply Forall_app. split.
    + destruct (isDelim DELIM l); repeat constructor. lia.
    + eapply Forall_impl; [apply IH|]. simpl. intros i Hi. lia.
Qed.

(** The indices that the filter keeps are increasing: the second one is
    greater than the first. *)
Lemma delimIndices_increasing lines a b rest :
  delimIndices DELIM lines = a :: b :: rest -> a < b.
Proof.
  rewrite delimIndices_from. intros H.
  destruct (delimIndicesFrom_first DELIM 0 lines a (b :: rest) H)
    as (pre & d & post & _ & _ & _ & -> & Hrest).
  pose proof (delimIndicesFrom_ge (0 + length pre + 1) post) as Hge.
  rewrite <- Hrest in Hge. apply Forall_cons in Hge as [Hb _]. lia.
Qed.

Lemma parseFrontmatter_cases (content : str) :
  (valid (parseFrontmatter DELIM content) = true
   <-> (2 <= length (List.filter (isDelim DELIM) (split_nl content)))%nat) /\
  (valid (parseFrontmatter DELIM content) = false ->
   parseFrontmatter DELIM content
   = {| currentLastmod := []; fmLines := []; bodyLines := split_nl content;
        valid := false |}).
Proof.
  unfold parseFrontmatter.
  pose proof (delimIndicesFrom_length 0 (split_nl content)) as Hlen.
  rewrite <- delimIndices_from in Hlen.
  destruct (delimIndices DELIM (split_nl content)) as [|a [|b rest]] eqn:E.
  - simpl in *. split; [|done]. split; [done|lia].
  - simpl in *. split; [|done]. split; [done|lia].
  - pose proof (delimIndices_increasing _ _ _ _ E) as Hlt.
    destruct (Z.leb_spec b a); [lia|]. simpl in *.
    split; [|done]. split; [lia|done].
Qed.

(** X1.  [parseFrontmatter] finds a descriptor valid exactly when at least
    two of its lines, trimmed, are the delimiter (the test that the second
    index is greater than the first never fails).  For any other text it
    returns an empty current value, no header, and all the lines as the
    body. *)
Theorem parseFrontmatter_valid_iff (content : str) :
  let p := parseFrontmatter DELIM content in
  (valid p = true
   <-> (2 <= length (List.filter (isDelim DELIM) (split_nl content)))%nat) /\
  (valid p = false ->
   currentLastmod p = [] /\ fmLines p = [] /\ bodyLines p = split_nl content).
Proof.
  cbv zeta. destruct (parseFrontmatter_cases content) as [Hiff Hinv].
  split; [done|]. intros Hv. by rewrite (Hinv Hv).
Qed.

Lemma extractLastmod_clean lines :
  Forall (fun l => nl ∉ l) lines ->
  trim (extractLastmod lines) = extractLastmod lines /\
  (dquote ∉ extractLastmod lines) /\ (nl ∉ extractLastmod lines).
Proof.
  induction 1 as [|l ls Hl Hls IH]; simpl.
  - split; [done|]. split; apply not_elem_of_nil.
  - destruct (isLastmodLine l); [|done].
    split; [apply trim_idem|]. split.
    + intros Hin. apply trim_elem in Hin.
      unfold remove_dquotes in Hin. apply list_elem_of_In, filter_In in Hin as [_ Hin].
      by rewrite N.eqb_refl in Hin.
    + intros Hin. apply trim_elem in Hin.
      unfold remove_dquotes in Hin. apply list_elem_of_In, filter_In in Hin as [Hin _].
      apply list_elem_of_In in Hin.
      unfold replace_lastmod_prefix in Hin.
      destruct (startsWith l (lit "lastmod:")); [|done].
      apply dropWhile_sublist in Hin.
      apply Hl. apply list_elem_of_lookup_1 in Hin as [i Hi].
      rewrite lookup_drop in Hi. by eapply list_elem_of_lookup_2.
Qed.

(** X2.  The current value that [parseFrontmatter] returns, for any text
    and any delimiter, has no white space at its ends, no double quote and
    no line feed. *)
Theorem currentLastmod_clean (content : str) :
  let v := currentLastmod (parseFrontmatter DELIM content) in
  trim v = v /\ (dquote ∉ v) /\ (nl ∉ v).
Proof.
  cbv zeta.
  destruct (valid (parseFrontmatter DELIM content)) eqn:Hv.
  - destruct (parseFrontmatter_valid_wf DELIM content Hv) as (Hfm & _).
    destruct (parseFrontmatter_valid DELIM content Hv)
      as (pre & d1 & d2 & _ & _ & _ & _ & _ & ->).
    by apply extractLastmod_clean.
  - destruct (parseFrontmatter_cases content) as [_ Hinv].
    rewrite (Hinv Hv). cbn [currentLastmod]. split; [done|].
    split; apply not_elem_of_nil.
Qed.

Lemma replaceFirst_twice fm X Y :
  replaceFirst (replaceFirst fm X) Y = replaceFirst fm Y.
Proof.
  induction fm as [|l fm IH]; cbn [replaceFirst].
  - by rewrite isLastmodLine_lastmodLine.
  - destruct (isLastmodLine l) eqn:E; cbn [replaceFirst].
    + by rewrite isLastmodLine_lastmodLine.
    + by rewrite E, IH.
Qed.

Lemma orEmptyLine_idem ls : orEmptyLine (orEmptyLine ls) = orEmptyLine ls.
Proof. by destruct ls. Qed.

(** X3.  Updates compose: rendering a valid descriptor with the value [X],
    parsing the result and rendering it with [Y] gives the text that
    rendering the first parse with [Y] gives.  (The delimiter is not itself
    a lastmod line.) *)
Theorem buildNewContent_twice (content X Y : str) :
  valid (parseFrontmatter DELIM content) = true ->
  nl ∉ X -> isLastmodLine DELIM = false ->
  let p := parseFrontmatter DELIM content in
  let once := buildNewContent DELIM (fmLines p) (bodyLines p) X in
  let p' := parseFrontmatter DELIM once in
  valid p' = true /\
  buildNewContent DELIM (fmLines p') (bodyLines p') Y
  = buildNewContent DELIM (fmLines p) (bodyLines p) Y.
Proof.
  intros Hv HX HD. cbv zeta.
  destruct (parseFrontmatter_valid_wf DELIM content Hv) as (Hfm & Hbody & Hnd & HDnl & HDt).
  rewrite parse_buildNewContent; try done.
  2: { intros ->. by rewrite isLastmodLine_lastmodLine in HD. }
  cbn [valid fmLines bodyLines]. split; [done|].
  by rewrite !buildNewContent_join, replaceFirst_twice, orEmptyLine_idem.
Qed.

(** X4.  With a delimiter that has white space at an end, or a line feed
    inside, no descriptor is valid: a trimmed line never equals it. *)
Theorem delimiter_with_blanks_never_valid (content : str) :
  trim DELIM <> DELIM \/ nl ∈ DELIM ->
  valid (parseFrontmatter DELIM content) = false.
Proof.
  intros Hbad. destruct (valid (parseFrontmatter DELIM content)) eqn:Hv; [|done].
  destruct (parseFrontmatter_valid_wf DELIM content Hv) as (_ & _ & _ & HDnl & HDt).
  by destruct Hbad.
Qed.

End DescriptorMore.

Lemma buildNewContent_twice_witness :
  let DELIM := lit "---" in
  let p := parseFrontmatter DELIM (Examples.descriptor Examples.oldLastmod) in
  let once := buildNewContent DELIM (fmLines p) (bodyLines p) (lit "2025-06-01") in
  let p' := parseFrontmatter DELIM once in
  valid p' = true /\
  buildNewContent DELIM (fmLines p') (bodyLines p') (lit "2026-01-01")
  = buildNewContent DELIM (fmLines p) (bodyLines p) (lit "2026-01-01").
Proof.
  cbv zeta.
  apply (buildNewContent_twice (lit "---") (Examples.descriptor Examples.oldLastmod)
           (lit "2025-06-01") (lit "2026-01-01")).
  - reflexivity.
  - not_in_literal.
  - reflexivity.
Defined.

Lemma delimiter_with_blanks_never_valid_witness :
  valid (parseFrontmatter (lit " ---")
           (join_nl [lit " ---"; lit "title: Gallery"; lit " ---"; lit "Text"])) = false.
Proof.
  apply (delimiter_with_blanks_never_valid (lit " ---")).
  left. vm_compute. discriminate.
Defined.

(** ** Diff engine *)

Section DiffMore.
Context {F : Type} `{EqDecision F}.

Lemma entry_eq (p c : Entry F) : fp p = fp c -> e_size p = e_size c -> p = c.
Proof. destruct p, c. simpl. by intros -> ->. Qed.

Lemma elem_of_changedKeys (A B : gmap str (Entry F)) k :
  k ∈ changedKeys A B <->
  exists p c, A !! k = Some p /\ B !! k = Some c /\ p <> c.
Proof.
  unfold changedKeys. rewrite elem_of_filter, elem_of_dom. unfold entryChanged.
  split.
  - intros [Hc [c Hk]]. rewrite Hk in Hc.
    destruct (A !! k) as [p|]; [|done].
    apply bool_decide_unpack in Hc.
    exists p, c. split; [done|]. split; [done|].
    intros ->. by destruct Hc.
  - intros (p & c & Hp & Hc & Hne). rewrite Hp, Hc. split; [|eauto].
    apply bool_decide_pack.
    destruct (decide (fp p = fp c)) as [Hf|Hf]; [|by left].
    destruct (decide (e_size p = e_size c)) as [Hs|Hs]; [|by right].
    exfalso. apply Hne. by apply entry_eq.
Qed.

Lemma diffStep_changed (A B : gmap str (Entry F)) k a c :
  snd (diffStep (dom A) A B k (a, c))
  = if entryChanged A B k then c + 1 else c.
Proof.
  unfold diffStep, entryChanged.
  destruct (decide (k ∉ dom A)) as [Hout|Hin].
  - apply not_elem_of_dom in Hout. by rewrite Hout.
  - destruct (A !! k) as [p|]; [|done].
    destruct (B !! k) as [q|]; [|done].
    destruct (decide _) as [Hd|Hd].
    + by rewrite bool_decide_eq_true_2.
    + by rewrite bool_decide_eq_false_2.
Qed.

Lemma diffImages_changed (A B : gmap str (Entry F)) :
  changed (diffImages A B) = Z.of_nat (size (changedKeys A B)).
Proof.
  unfold diffImages, changedKeys.
  set (P := fun key => Is_true (entryChanged A B key)).
  assert (Hfold :
    snd (set_fold (diffStep (dom A) A B) (0, 0) (dom B))
    = Z.of_nat (size (filter P (dom B)))).
  { apply (set_fold_ind_L
      (fun (r : Z * Z) (X : gset str) => snd r = Z.of_nat (size (filter P X)))).
    - cbn beta. rewrite filter_empty_L by apply _. by rewrite size_empty.
    - intros x X [a c] Hx Hc. cbn beta in *. simpl in Hc.
      rewrite diffStep_changed, Hc, filter_union_L, filter_singleton_L by apply _.
      destruct (decide (P x)) as [HP|HP]; unfold P in HP.
      + apply Is_true_true in HP. rewrite HP.
        rewrite size_union, size_singleton; [lia|].
        apply disjoint_singleton_l. intros Hin. apply elem_of_filter in Hin as [_ ?].
        done.
      + apply Is_true_false in HP. rewrite HP.
        by rewrite (left_id_L ∅ (∪)). }
  destruct (set_fold (diffStep (dom A) A B) (0, 0) (dom B)) as [a c].
  simpl in *. done.
Qed.

(** X5.  What [diffImages] counts: [added] is the number of keys of the
    current inventory that the previous one lacks, [deleted] the number of
    keys of the previous inventory that the current one lacks, and [changed]
    the number of keys that both have with entries that differ in the
    fingerprint or in the size. *)
Theorem diffImages_spec (prevImages currentImages : gmap str (Entry F)) :
  let d := diffImages prevImages currentImages in
  added d = Z.of_nat (size (dom currentImages ∖ dom prevImages)) /\
  deleted d = Z.of_nat (size (dom prevImages ∖ dom currentImages)) /\
  exists K : gset str,
    changed d = Z.of_nat (size K) /\
    forall key, key ∈ K <->
      exists prev curr,
        prevImages !! key = Some prev /\ currentImages !! key = Some curr /\
        (fp prev <> fp curr \/ e_size prev <> e_size curr).
Proof.
  cbv zeta. destruct (diffImages_counts prevImages currentImages) as [Ha Hd].
  split; [done|]. split; [done|].
  exists (changedKeys prevImages currentImages).
  split; [apply diffImages_changed|].
  intros key. rewrite elem_of_changedKeys. split.
  - intros (p & c & Hp & Hc & Hne). exists p, c. split; [done|]. split; [done|].
    destruct (decide (fp p = fp c)) as [Hf|Hf]; [|by left].
    destruct (decide (e_size p = e_size c)) as [Hs|Hs]; [|by right].
    exfalso. apply Hne. by apply entry_eq.
  - intros (p & c & Hp & Hc & Hne). exists p, c. split; [done|]. split; [done|].
    intros ->. by destruct Hne.
Qed.

Lemma diffImages_zero (prevImages currentImages : gmap str (Entry F)) :
  added (diffImages prevImages currentImages)
    + changed (diffImages prevImages currentImages)
    + deleted (diffImages prevImages currentImages) = 0
  <-> prevImages = currentImages.
Proof.
  split.
  - destruct (diffImages_counts prevImages currentImages) as [Ha Hd].
    pose proof (diffImages_changed prevImages currentImages) as Hc.
    intros Hz.
    assert (Ha0 : size (dom currentImages ∖ dom prevImages) = 0%nat) by lia.
    assert (Hd0 : size (dom prevImages ∖ dom currentImages) = 0%nat) by lia.
    assert (Hc0 : size (changedKeys prevImages currentImages) = 0%nat) by lia.
    apply size_empty_inv in Ha0, Hd0, Hc0.
    apply leibniz_equiv in Ha0, Hd0, Hc0.
    apply map_eq. intros k.
    destruct (prevImages !! k) as [p|] eqn:Ep, (currentImages !! k) as [c|] eqn:Ec.
    + f_equal.
      destruct (decide (fp p = fp c)) as [Hf|Hf];
        [destruct (decide (e_size p = e_size c)) as [Hs|Hs]; [by apply entry_eq|]|];
        exfalso;
        (assert (k ∈ changedKeys prevImages currentImages) as Hin
           by (apply elem_of_changedKeys; exists p, c;
               split; [done|]; split; [done|]; by intros ->));
        rewrite Hc0 in Hin; by apply elem_of_empty in Hin.
    + assert (k ∈ dom prevImages ∖ dom currentImages) as Hin.
      { apply elem_of_difference. split; [apply elem_of_dom; eauto|].
        by apply not_elem_of_dom. }
      rewrite Hd0 in Hin. by apply elem_of_empty in Hin.
    + assert (k ∈ dom currentImages ∖ dom prevImages) as Hin.
      { apply elem_of_difference. split; [apply elem_of_dom; eauto|].
        by apply not_elem_of_dom. }
      rewrite Ha0 in Hin. by apply elem_of_empty in Hin.
    + done.
  - intros ->. by rewrite diffImages_refl.
Qed.

(** X6.  [diffImages] counts no difference at all exactly when the two
    inventories are equal: the same keys, and under every key the same
    fingerprint and the same size. *)
Theorem diffImages_zero_iff (prevImages currentImages : gmap str (Entry F)) :
  let d := diffImages prevImages currentImages in
  added d + changed d + deleted d = 0 <-> prevImages = currentImages.
Proof. cbv zeta. apply diffImages_zero. Qed.

Lemma changedKeys_subseteq (A B : gmap str (Entry F)) :
  changedKeys A B ⊆ dom A ∩ dom B.
Proof.
  intros k Hk. apply elem_of_changedKeys in Hk as (p & c & Hp & Hc & _).
  apply elem_of_intersection. split; apply elem_of_dom; eauto.
Qed.

(** X7.  The counts of [diffImages] are not negative and balance: added
    and changed entries are entries of the current inventory, deleted and
    changed ones are entries of the previous inventory, and the size of the
    current inventory plus the deleted entries is the size of the previous
    one plus the added entries. *)
Theorem diffImages_balance (prevImages currentImages : gmap str (Entry F)) :
  let d := diffImages prevImages currentImages in
  0 <= added d /\ 0 <= changed d /\ 0 <= deleted d /\
  added d + changed d <= Z.of_nat (size currentImages) /\
  deleted d + changed d <= Z.of_nat (size prevImages) /\
  Z.of_nat (size currentImages) + deleted d = Z.of_nat (size prevImages) + added d.
Proof.
  cbv zeta. destruct (diffImages_counts prevImages currentImages) as [Ha Hd].
  pose proof (diffImages_changed prevImages currentImages) as Hc.
  pose proof (changedKeys_subseteq prevImages currentImages) as Hsub.
  apply subseteq_size in Hsub.
  rewrite <- (size_dom currentImages), <- (size_dom prevImages).
  set (A := dom prevImages) in *. set (B := dom currentImages) in *.
  assert (HB : size B = (size (B ∖ A) + size (A ∩ B))%nat).
  { rewrite <- size_union.
    - f_equal. apply leibniz_equiv. intros k.
      rewrite elem_of_union, elem_of_difference, elem_of_intersection.
      destruct (decide (k ∈ A)); tauto.
    - intros k. rewrite elem_of_difference, elem_of_intersection. tauto. }
  assert (HA : size A = (size (A ∖ B) + size (A ∩ B))%nat).
  { rewrite <- size_union.
    - f_equal. apply leibniz_equiv. intros k.
      rewrite elem_of_union, elem_of_difference, elem_of_intersection.
      destruct (decide (k ∈ B)); tauto.
    - intros k. rewrite elem_of_difference, elem_of_intersection. tauto. }
  lia.
Qed.

End DiffMore.

Lemma diffImages_nonneg {F : Type} `{EqDecision F} (A B : gmap str (Entry F)) :
  0 <= added (diffImages A B) /\ 0 <= changed (diffImages A B) /\
  0 <= deleted (diffImages A B).
Proof.
  destruct (diffImages_counts A B) as [-> ->]. rewrite diffImages_changed. lia.
Qed.

(** ** Timestamp format and comparison *)

Section FormatMore.

Variable tz : Z -> Z.














(** The local time of an instant depends on its whole second only. *)
Lemma LocalTime_second t : JSDate.LocalTime tz t / 1000 = t / 1000 + tz t * 60.
Proof.
  unfold JSDate.LocalTime, JSDate.msPerMinute.
  replace (t + tz t * 60000) with (t + tz t * 60 * 1000) by lia.
  apply Z_div_plus. lia.
Qed.

Lemma dateFields_same_second t1 t2 :
  tz t1 = tz t2 -> secondOf t1 = secondOf t2 -> dateFields tz t1 = dateFields tz t2.
Proof.
  unfold secondOf. intros Htz Hs.
  pose proof (LocalTime_second t1) as H1. pose proof (LocalTime_second t2) as H2.
  rewrite Htz, Hs, <- H2 in H1.
  destruct (JSDateFacts.second_fields (JSDate.LocalTime tz t1)) as (E1 & h1 & m1 & s1).
  destruct (JSDateFacts.second_fields (JSDate.LocalTime tz t2)) as (E2 & h2 & m2 & s2).
  assert (HD : JSDate.Day (JSDate.LocalTime tz t1) = JSDate.Day (JSDate.LocalTime tz t2))
    by lia.
  destruct (JSDateFacts.civil_same_day _ _ HD) as (HY & HM & HDt).
  unfold dateFields, JSDate.getFullYear, JSDate.getMonth, JSDate.getDate,
    JSDate.getHours, JSDate.getMinutes, JSDate.getSeconds.
  rewrite HY, HM, HDt.
  assert (JSDate.HourFromTime (JSDate.LocalTime tz t1)
          = JSDate.HourFromTime (JSDate.LocalTime tz t2)) as -> by lia.
  assert (JSDate.MinFromTime (JSDate.LocalTime tz t1)
          = JSDate.MinFromTime (JSDate.LocalTime tz t2)) as -> by lia.
  assert (JSDate.SecFromTime (JSDate.LocalTime tz t1)
          = JSDate.SecFromTime (JSDate.LocalTime tz t2)) as -> by lia.
  done.
Qed.

Lemma formatLocalISO_dateFields t1 t2 :
  tz t1 = tz t2 -> dateFields tz t1 = dateFields tz t2 ->
  formatLocalISO tz t1 = formatLocalISO tz t2.
Proof.
  intros Htz Hf. rewrite !formatLocalISO_fields, Htz.
  unfold dateFields in Hf. injection Hf as -> -> -> -> -> ->. done.
Qed.

(** X9.  For two instants that are formatted with the same offset and
    whose local years have four digits, the formatted strings are equal
    exactly when the instants lie in the same whole second. *)
Theorem formatLocalISO_eq_iff (t1 t2 : Z) :
  tz t1 = tz t2 ->
  1000 <= JSDate.getFullYear tz t1 <= 9999 ->
  1000 <= JSDate.getFullYear tz t2 <= 9999 ->
  formatLocalISO tz t1 = formatLocalISO tz t2 <-> secondOf t1 = secondOf t2.
Proof.
  intros Htz HY1 HY2. split.
  - intros Heq.
    pose proof (formatLocalISO_ltb tz t1 t2 Htz HY1 HY2) as H12.
    pose proof (formatLocalISO_ltb tz t2 t1 (eq_sym Htz) HY2 HY1) as H21.
    rewrite dateFields_order in H12, H21 by done.
    rewrite Heq, str_ltb_irrefl in H12, H21.
    symmetry in H12, H21. apply Z.ltb_ge in H12, H21. lia.
  - intros Hs. apply formatLocalISO_dateFields; [done|].
    by apply dateFields_same_second.
Qed.

(** X10.  The shape of the formatted string, for a local year of four
    digits and an offset of less than a hundred hours: four digits of the
    year, hyphen, two digits of the month, hyphen, two digits of the day, the
    letter T, hours, minutes and seconds with two digits each and colons
    between them, the sign of the offset, and hours and minutes of the offset
    with a colon; 25 code units in all.  The month is between 1 and 12, the
    day between 1 and 31, the hour below 24, minute and second below 60. *)
Theorem formatLocalISO_shape (t : Z) :
  1000 <= JSDate.getFullYear tz t <= 9999 -> -6000 < tz t < 6000 ->
  let two := fun n : Z => [digit (n / 10); digit (n mod 10)] in
  let y := JSDate.getFullYear tz t in
  formatLocalISO tz t
  = [digit (y / 1000); digit (y / 100 mod 10); digit (y / 10 mod 10); digit (y mod 10)]
      ++ lit "-" ++ two (JSDate.getMonth tz t + 1)
      ++ lit "-" ++ two (JSDate.getDate tz t)
      ++ lit "T" ++ two (JSDate.getHours tz t)
      ++ lit ":" ++ two (JSDate.getMinutes tz t)
      ++ lit ":" ++ two (JSDate.getSeconds tz t)
      ++ (if 0 <=? tz t then lit "+" else lit "-")
      ++ two (Z.abs (tz t) / 60) ++ lit ":" ++ two (Z.abs (tz t) mod 60) /\
  length (formatLocalISO tz t) = 25%nat /\
  1 <= JSDate.getMonth tz t + 1 <= 12 /\ 1 <= JSDate.getDate tz t <= 31 /\
  0 <= JSDate.getHours tz t <= 23 /\ 0 <= JSDate.getMinutes tz t <= 59 /\
  0 <= JSDate.getSeconds tz t <= 59.
Proof.
  intros HY Htz. cbv zeta.
  destruct (dateFields_ranges tz t) as (M & D & h & m & s).
  match goal with |- ?A /\ _ => assert (Heq : A); [|split; [exact Heq|]] end.
  { rewrite formatLocalISO_fields. unfold offsetSuffix.
    rewrite year_digits by done.
    rewrite !pad_digits; try done.
    - pose proof (Z.mod_pos_bound (Z.abs (tz t)) 60). lia.
    - split; [apply Z.div_pos; lia|].
      assert (Z.abs (tz t) / 60 < 100); [|lia].
      apply Z.div_lt_upper_bound; lia. }
  split.
  { rewrite Heq. by destruct (0 <=? tz t). }
  unfold JSDate.getMonth, JSDate.getDate, JSDate.getHours, JSDate.getMinutes,
    JSDate.getSeconds.
  pose proof (JSDateFacts.MonthFromTime_range (JSDate.LocalTime tz t)).
  pose proof (JSDateFacts.DateFromTime_range (JSDate.LocalTime tz t)).
  pose proof (JSDateFacts.second_fields (JSDate.LocalTime tz t)). lia.
Qed.

End FormatMore.

Section CompareMore.

Lemma str_ltb_asym a b : str_ltb a b = true -> str_ltb b a = false.
Proof.
  revert b. induction a as [|x a IH]; intros [|y b]; simpl; try done.
  destruct (N.ltb_spec x y), (N.ltb_spec y x); try done; try lia. apply IH.
Qed.

Lemma str_ltb_trans a b c :
  str_ltb a b = true -> str_ltb b c = true -> str_ltb a c = true.
Proof.
  revert b c. induction a as [|x a IH]; intros [|y b] [|z c]; simpl; try done.
  destruct (N.ltb_spec x y), (N.ltb_spec y x), (N.ltb_spec y z), (N.ltb_spec z y),
    (N.ltb_spec x z), (N.ltb_spec z x); try done; try lia.
  apply IH.
Qed.

Lemma str_ltb_total a b : a <> b -> str_ltb a b = true \/ str_ltb b a = true.
Proof.
  revert b. induction a as [|x a IH]; intros [|y b] Hne.
  - done.
  - by left.
  - by right.
  - simpl. destruct (N.ltb_spec x y), (N.ltb_spec y x); try lia; try (by left);
      try (by right).
    apply IH. intros ->. apply Hne. f_equal. lia.
Qed.

(** X11.  On values that are not empty, [isNewerISO] is a strict total
    order: no value is newer than itself, of two values at most one is newer
    than the other, newer than is transitive, and of two different values one
    is newer than the other. *)
Theorem isNewerISO_strict_order (a b c : str) :
  a <> [] -> b <> [] -> c <> [] ->
  isNewerISO a a = false /\
  (isNewerISO a b = true -> isNewerISO b a = false) /\
  (isNewerISO a b = true -> isNewerISO b c = true -> isNewerISO a c = true) /\
  (a <> b -> isNewerISO a b = true \/ isNewerISO b a = true).
Proof.
  intros Ha Hb Hc. unfold isNewerISO, str_gtb.
  destruct a as [|x a], b as [|y b], c as [|z c]; try done.
  split; [apply str_ltb_irrefl|]. split; [apply str_ltb_asym|].
  split.
  - intros H1 H2. by eapply str_ltb_trans.
  - intros Hne. destruct (str_ltb_total (x :: a) (y :: b) Hne); auto.
Qed.

End CompareMore.

Lemma formatLocalISO_eq_iff_witness :
  formatLocalISO (fun _ => 60) 1748736000000 = formatLocalISO (fun _ => 60) 1748736000999
  <-> secondOf 1748736000000 = secondOf 1748736000999.
Proof.
  apply (formatLocalISO_eq_iff (fun _ => 60) 1748736000000 1748736000999).
  - reflexivity.
  - vm_compute. split; discriminate.
  - vm_compute. split; discriminate.
Defined.

Lemma formatLocalISO_shape_witness :
  formatLocalISO (fun _ => -330) 1748736000000 = lit "2025-05-31T18:30:00-05:30" /\
  length (formatLocalISO (fun _ => -330) 1748736000000) = 25%nat.
Proof.
  pose proof (formatLocalISO_shape (fun _ => -330) 1748736000000
                ltac:(vm_compute; split; discriminate) ltac:(lia)) as H.
  cbv zeta in H. split; [reflexivity|exact (proj1 (proj2 H))].
Defined.

Lemma isNewerISO_strict_order_witness :
  isNewerISO (lit "2025-06-01T00:00:00+00:00") (lit "2025-06-01T00:00:00+00:00") = false.
Proof.
  exact (proj1 (isNewerISO_strict_order (lit "2025-06-01T00:00:00+00:00")
                  (lit "2024-01-01T00:00:00+00:00") (lit "2023-01-01T00:00:00+00:00")
                  ltac:(discriminate) ltac:(discriminate) ltac:(discriminate))).
Defined.

(** ** Inventory scanner *)

Section ScanMore.

Variable w : World.
Variable EXTENSIONS : list str.
Variable maxDepth : Z.

Local Abbreviation walkLoop := (walkLoop w EXTENSIONS maxDepth).
Local Abbreviation scannedFrom := (scannedFrom w maxDepth).
Local Abbreviation foundIn := (foundIn w EXTENSIONS maxDepth).
Local Abbreviation unlistableIn := (unlistableIn w maxDepth).
Local Abbreviation entryYields := (entryYields w EXTENSIONS maxDepth).
Local Abbreviation walkSpec := (walkSpec w EXTENSIONS maxDepth).

Lemma walk_eq fuel current depth found :
  walk w EXTENSIONS fuel maxDepth current depth found =
  match readdir w current with
  | None => Some (Throw (ReaddirError current))
  | Some entries =>
      walkLoop
        (match fuel with
         | O => fun _ _ _ => None
         | S fuel' => walk w EXTENSIONS fuel' maxDepth
         end) current depth entries found
  end.
Proof.
  destruct fuel as [|fuel]; simpl.
  - destruct (readdir w current) as [entries|]; [|done].
    revert found. induction entries as [|entry rest IH]; intros found; [done|].
    simpl. destruct (kind entry).
    + destruct (hasImageExtension _ _ _); apply IH.
    + destruct (depth + 1 <? maxDepth); [done|apply IH].
    + apply IH.
  - destruct (readdir w current) as [entries|]; [|done].
    revert found. induction entries as [|entry rest IH]; intros found; [done|].
    simpl. destruct (kind entry).
    + destruct (hasImageExtension _ _ _); apply IH.
    + destruct (depth + 1 <? maxDepth); [|apply IH].
      destruct (walk w EXTENSIONS fuel maxDepth _ _ _) as [[found'|e]|]; [apply IH|done|done].
    + apply IH.
Qed.

Lemma foundIn_entries current depth entries rel :
  readdir w current = Some entries ->
  foundIn current depth rel <->
  exists entry, entry ∈ entries /\ entryYields current depth entry rel.
Proof.
  intros Hdir. split.
  - intros (c & d & es & entry & Hs & Hes & Hin & Hk & Hext & ->).
    inversion Hs as [|? ? es' entry' ? ? Hes' Hin' Hk' Hd' Hs']; subst.
    + rewrite Hdir in Hes. injection Hes as <-.
      exists entry. split; [done|]. left. done.
    + rewrite Hdir in Hes'. injection Hes' as <-.
      exists entry'. split; [done|]. right. split; [done|]. split; [done|].
      exists c, d, es, entry. done.
  - intros (entry & Hin & [(Hk & Hext & ->)|(Hk & Hd & Hf)]).
    + exists current, depth, entries, entry. split; [constructor|]. done.
    + destruct Hf as (c & d & es & entry' & Hs & Hrest).
      exists c, d, es, entry'. split; [|done].
      by eapply scanned_below.
Qed.

Lemma unlistableIn_entries current depth entries e :
  readdir w current = Some entries ->
  unlistableIn current depth e <->
  exists entry, entry ∈ entries /\ kind entry = KindDirectory /\ depth + 1 < maxDepth /\
    unlistableIn (path_join current (name entry)) (depth + 1) e.
Proof.
  intros Hdir. split.
  - intros (c & d & Hs & Hnone & ->).
    inversion Hs as [|? ? es' entry' ? ? Hes' Hin' Hk' Hd' Hs']; subst.
    + congruence.
    + rewrite Hdir in Hes'. injection Hes' as <-.
      exists entry'. split; [done|]. split; [done|]. split; [done|].
      by exists c, d.
  - intros (entry & Hin & Hk & Hd & (c & d & Hs & Hnone & ->)).
    exists c, d. split; [|done]. by eapply scanned_below.
Qed.

Lemma walkLoop_spec rec current depth :
  walkSpec rec ->
  forall rest found,
    match walkLoop rec current depth rest found with
    | Some (Ok found') =>
        (exists new, found' = found ++ new /\
           forall rel, rel ∈ new <->
             exists entry, entry ∈ rest /\ entryYields current depth entry rel) /\
        (forall entry e, entry ∈ rest -> kind entry = KindDirectory ->
           depth + 1 < maxDepth ->
           ~ unlistableIn (path_join current (name entry)) (depth + 1) e)
    | Some (Throw e) =>
        exists entry, entry ∈ rest /\ kind entry = KindDirectory /\
          depth + 1 < maxDepth /\
          unlistableIn (path_join current (name entry)) (depth + 1) e
    | None => True
    end.
Proof.
  intros Hrec. induction rest as [|entry rest IH]; intros found.
  - simpl. split.
    + exists []. split; [by rewrite app_nil_r|].
      intros rel. split.
      * intros Hin. by apply elem_of_nil in Hin.
      * intros (entry & Hin & _). by apply elem_of_nil in Hin.
    + intros entry e Hin. by apply elem_of_nil in Hin.
  - assert (Hskip : forall found0,
      ~ (exists rel, entryYields current depth entry rel) ->
      ~ (kind entry = KindDirectory /\ depth + 1 < maxDepth) ->
      match walkLoop rec current depth rest found0 with
      | Some (Ok found') =>
          (exists new, found' = found0 ++ new /\
             forall rel, rel ∈ new <->
               exists entry0, entry0 ∈ entry :: rest /\
                 entryYields current depth entry0 rel) /\
          (forall entry0 e, entry0 ∈ entry :: rest -> kind entry0 = KindDirectory ->
             depth + 1 < maxDepth ->
             ~ unlistableIn (path_join current (name entry0)) (depth + 1) e)
      | Some (Throw e) =>
          exists entry0, entry0 ∈ entry :: rest /\ kind entry0 = KindDirectory /\
            depth + 1 < maxDepth /\
            unlistableIn (path_join current (name entry0)) (depth + 1) e
      | None => True
      end).
    { intros found0 Hno Hnodir. specialize (IH found0).
      destruct (walkLoop rec current depth rest found0) as [[found'|e]|]; [| |done].
      - destruct IH as [(new & -> & Hnew) Hok]. split.
        + exists new. split; [done|].
          intros rel. rewrite Hnew. split.
          * intros (entry0 & Hin & Hy). exists entry0. split; [by right|done].
          * intros (entry0 & Hin & Hy). apply elem_of_cons in Hin as [->|Hin].
            -- exfalso. apply Hno. eauto.
            -- eauto.
        + intros entry0 e Hin Hk Hd. apply elem_of_cons in Hin as [->|Hin].
          * exfalso. by apply Hnodir.
          * by apply Hok.
      - destruct IH as (entry0 & Hin & Hrest). exists entry0. split; [by right|done]. }
    simpl. destruct (kind entry) eqn:Ek.
    + destruct (hasImageExtension w EXTENSIONS (name entry)) eqn:Eext.
      * specialize (IH (found ++ [relative w (path_join current (name entry))])).
        destruct (walkLoop rec current depth rest _) as [[found'|e]|]; [| |done].
        -- destruct IH as [(new & -> & Hnew) Hok]. split.
           ++ exists (relative w (path_join current (name entry)) :: new).
              split; [by rewrite <- app_assoc|].
              intros rel. rewrite elem_of_cons, Hnew. split.
              ** intros [->|(entry0 & Hin & Hy)].
                 --- exists entry. split; [by left|]. left. done.
                 --- exists entry0. split; [by right|done].
              ** intros (entry0 & Hin & Hy). apply elem_of_cons in Hin as [->|Hin].
                 --- left. destruct Hy as [(_ & _ & ->)|(Hk & _)]; [done|congruence].
                 --- right. eauto.
           ++ intros entry0 e Hin Hk Hd. apply elem_of_cons in Hin as [->|Hin].
              ** congruence.
              ** by apply Hok.
        -- destruct IH as (entry0 & Hin & Hrest). exists entry0. split; [by right|done].
      * apply Hskip.
        -- intros (rel & [(_ & Hext & _)|(Hk & _)]); congruence.
        -- intros [Hk _]. congruence.
    + destruct (Z.ltb_spec (depth + 1) maxDepth) as [Hd|Hd].
      * pose proof (Hrec (path_join current (name entry)) (depth + 1) found) as Hcall.
        destruct (rec (path_join current (name entry)) (depth + 1) found)
          as [[found1|e]|]; [| |done].
        -- destruct Hcall as [(new1 & -> & Hnew1) Hok1].
           specialize (IH (found ++ new1)).
           destruct (walkLoop rec current depth rest _) as [[found'|e]|]; [| |done].
           ++ destruct IH as [(new & -> & Hnew) Hok]. split.
              ** exists (new1 ++ new). split; [by rewrite <- app_assoc|].
                 intros rel. rewrite elem_of_app, Hnew1, Hnew. split.
                 --- intros [Hf|(entry0 & Hin & Hy)].
                     +++ exists entry. split; [by left|]. right. done.
                     +++ exists entry0. split; [by right|done].
                 --- intros (entry0 & Hin & Hy). apply elem_of_cons in Hin as [->|Hin].
                     +++ left. destruct Hy as [(Hk & _)|(_ & _ & Hf)]; [congruence|done].
                     +++ right. eauto.
              ** intros entry0 e Hin Hk Hd0. apply elem_of_cons in Hin as [->|Hin].
                 --- apply Hok1.
                 --- by apply Hok.
           ++ destruct IH as (entry0 & Hin & Hrest).
              exists entry0. split; [by right|done].
        -- exists entry. split; [by left|]. done.
      * apply Hskip.
        -- intros (rel & [(Hk & _)|(_ & Hlt & _)]); [congruence|lia].
        -- intros [_ Hlt]. lia.
    + apply Hskip.
      * intros (rel & [(Hk & _)|(Hk & _)]); congruence.
      * intros [Hk _]. congruence.
Qed.

Lemma walk_spec fuel : walkSpec (walk w EXTENSIONS fuel maxDepth).
Proof.
  assert (Hstep : forall rec, walkSpec rec ->
    forall current depth found,
      match
        match readdir w current with
        | None => Some (Throw (ReaddirError current))
        | Some entries => walkLoop rec current depth entries found
        end
      with
      | Some (Ok found') =>
          (exists new, found' = found ++ new /\
             forall rel, rel ∈ new <-> foundIn current depth rel) /\
          (forall e, ~ unlistableIn current depth e)
      | Some (Throw e) => unlistableIn current depth e
      | None => True
      end).
  { intros rec Hrec current depth found.
    destruct (readdir w current) as [entries|] eqn:Hdir.
    - pose proof (walkLoop_spec _ current depth Hrec entries found) as Hloop.
      destruct (walkLoop _ current depth entries found) as [[found'|e]|]; [| |done].
      + destruct Hloop as [(new & -> & Hnew) Hok]. split.
        * exists new. split; [done|].
          intros rel. rewrite Hnew. symmetry. by apply foundIn_entries.
        * intros e He.
          apply (unlistableIn_entries current depth entries) in He
            as (entry & Hin & Hk & Hd & He); [|done].
          by eapply Hok.
      + by apply (unlistableIn_entries current depth entries).
    - exists current, depth. split; [constructor|done]. }
  induction fuel as [|fuel IH]; intros current depth found; rewrite walk_eq.
  - apply Hstep. by intros ? ? ?.
  - by apply Hstep.
Qed.

Lemma walkLoop_flat rec current depth entries found :
  maxDepth <= depth + 1 ->
  walkLoop rec current depth entries found
  = Some (Ok (found ++ imageFilesOf w EXTENSIONS current entries)).
Proof.
  intros Hd. revert found.
  induction entries as [|entry rest IH]; intros found.
  - simpl. by rewrite app_nil_r.
  - unfold imageFilesOf in *. simpl. destruct (kind entry).
    + destruct (hasImageExtension w EXTENSIONS (name entry)).
      * rewrite IH. simpl. by rewrite <- app_assoc.
      * apply IH.
    + destruct (Z.ltb_spec (depth + 1) maxDepth); [lia|apply IH].
    + apply IH.
Qed.

Lemma getImageFiles_found {F : Type} (dir : str) (s : State F) :
  match getImageFiles w EXTENSIONS dir maxDepth s with
  | (Ok found, s') =>
      s' = s /\
      (forall rel, rel ∈ found <-> foundIn dir 0 rel) /\
      (forall e, ~ unlistableIn dir 0 e)
  | (Throw e, s') => s' = s /\ unlistableIn dir 0 e
  end.
Proof.
  unfold getImageFiles.
  pose proof (walk_spec (Z.to_nat maxDepth) dir 0 []) as Hspec.
  pose proof (getImageFiles_fuel w EXTENSIONS dir maxDepth) as Hfuel.
  destruct (walk w EXTENSIONS (Z.to_nat maxDepth) maxDepth dir 0 []) as [[found|e]|]; [| |done].
  - destruct Hspec as [(new & -> & Hnew) Hok]. simpl. done.
  - done.
Qed.

(** X12.  [getImageFiles] leaves the state as it is.  When it returns, the
    paths it returns are exactly the paths of the files with an image
    extension in the directories that the walk lists (the directory itself,
    and the subdirectories down to the depth that [maxDepth] allows), and
    every one of these directories could be listed.  When it throws, the
    error is that of a directory of the walk that could not be listed. *)
Theorem getImageFiles_spec {F : Type} (dir : str) (s : State F) :
  match getImageFiles w EXTENSIONS dir maxDepth s with
  | (Ok found, s') =>
      s' = s /\
      (forall rel, rel ∈ found <-> foundIn dir 0 rel) /\
      (forall e, ~ unlistableIn dir 0 e)
  | (Throw e, s') => s' = s /\ unlistableIn dir 0 e
  end.
Proof. apply getImageFiles_found. Qed.

(** X13.  With a [maxDepth] of at most one (zero and negative values
    included), [getImageFiles] lists the directory itself only: it returns
    the image files among its entries, in the order of the listing, and no
    subdirectory is read. *)
Theorem getImageFiles_flat {F : Type} (dir : str) (entries : list Dirent) (s : State F) :
  maxDepth <= 1 -> readdir w dir = Some entries ->
  getImageFiles w EXTENSIONS dir maxDepth s = (Ok (imageFilesOf w EXTENSIONS dir entries), s).
Proof.
  intros Hd Hdir. unfold getImageFiles. rewrite walk_eq, Hdir.
  rewrite walkLoop_flat by lia. done.
Qed.

End ScanMore.

Section InventoryMore.

Variable CONFIG : Config.
Variable w : World.

Lemma mtime_scan_fold (found : list str) (m : gmap str (Entry Z)) (rel : str) :
  fold_left (Mtime.scanStep w) found m !! rel =
  if decide (rel ∈ found) then
    match statSync w (resolve w rel) with
    | Some st => Some {| fp := st_mtimeMs st; e_size := st_size st |}
    | None => m !! rel
    end
  else m !! rel.
Proof.
  revert m. induction found as [|x found IH]; intros m; cbn [fold_left].
  - rewrite decide_False; [done|]. apply not_elem_of_nil.
  - rewrite IH. unfold Mtime.scanStep.
    destruct (decide (rel ∈ found)) as [Hin|Hout].
    + rewrite decide_True by (by right).
      destruct (statSync w (resolve w rel)) as [st|] eqn:Est; [done|].
      destruct (decide (x = rel)) as [->|Hne].
      * by rewrite Est.
      * destruct (statSync w (resolve w x)); [|done]. by rewrite lookup_insert_ne.
    + destruct (decide (x = rel)) as [->|Hne].
      * rewrite decide_True by (by left).
        destruct (statSync w (resolve w rel)) as [st|]; [|done].
        by rewrite lookup_insert_eq.
      * rewrite decide_False.
        2: { intros Hin. apply elem_of_cons in Hin as [?|?]; done. }
        destruct (statSync w (resolve w x)); [|done]. by rewrite lookup_insert_ne.
Qed.

(** X14.  The inventory that [scanImagesForBundle] of the timestamp
    generation returns has an entry under a path exactly when
    [getImageFiles] found the path and [statSync] succeeds on it; the entry
    holds the modification time and the size of that result.  A file whose
    [statSync] throws is left out, without an error. *)
Theorem scanImagesForBundle_spec (absDir : str) (s : State Z) :
  match Mtime.scanImagesForBundle CONFIG w absDir (Mtime.MAXDEPTH CONFIG) s with
  | (Ok currentImages, s') =>
      s' = s /\
      forall rel e, currentImages !! rel = Some e <->
        foundIn w (Mtime.EXTENSIONS CONFIG w) (Mtime.MAXDEPTH CONFIG) absDir 0 rel /\
        exists st, statSync w (resolve w rel) = Some st /\
          e = {| fp := st_mtimeMs st; e_size := st_size st |}
  | (Throw e, s') =>
      s' = s /\ unlistableIn w (Mtime.MAXDEPTH CONFIG) absDir 0 e
  end.
Proof.
  unfold Mtime.scanImagesForBundle. rewrite bind_unfold.
  pose proof (getImageFiles_found w (Mtime.EXTENSIONS CONFIG w) (Mtime.MAXDEPTH CONFIG)
                absDir s) as Hspec.
  destruct (getImageFiles w _ absDir _ s) as [[found|e] s']; [|done].
  destruct Hspec as (-> & Hfound & _). rewrite mret_eq. split; [done|].
  intros rel e. rewrite mtime_scan_fold, <- Hfound.
  destruct (decide (rel ∈ found)) as [Hin|Hout].
  - destruct (statSync w (resolve w rel)) as [st|].
    + split.
      * intros [= <-]. split; [done|]. eauto.
      * intros (_ & st' & [= <-] & ->). done.
    + rewrite lookup_empty. split; [done|]. by intros (_ & st' & ? & _).
  - rewrite lookup_empty. split; [done|]. by intros (? & _).
Qed.

Lemma hash_scan_fold (found : list str) (m : gmap str (Entry str)) (rel : str) :
  fold_left (Hash.scanStep w) found m !! rel =
  if decide (rel ∈ found) then
    match statSync w (resolve w rel), hashFile w (resolve w rel) with
    | Some st, Some h => Some {| fp := h; e_size := st_size st |}
    | _, _ => m !! rel
    end
  else m !! rel.
Proof.
  revert m. induction found as [|x found IH]; intros m; cbn [fold_left].
  - rewrite decide_False; [done|]. apply not_elem_of_nil.
  - rewrite IH. unfold Hash.scanStep. cbv zeta.
    destruct (decide (rel ∈ found)) as [Hin|Hout].
    + rewrite decide_True by (by right).
      destruct (statSync w (resolve w rel)) as [st|] eqn:Est,
        (hashFile w (resolve w rel)) as [h|] eqn:Eh; try done.
      all: destruct (decide (x = rel)) as [->|Hne]; [by rewrite Est, ?Eh|].
      all: destruct (statSync w (resolve w x)), (hashFile w (resolve w x)); try done.
      all: by rewrite lookup_insert_ne.
    + destruct (decide (x = rel)) as [->|Hne].
      * rewrite decide_True by (by left).
        destruct (statSync w (resolve w rel)) as [st|], (hashFile w (resolve w rel)) as [h|];
          try done.
        by rewrite lookup_insert_eq.
      * rewrite decide_False.
        2: { intros Hin. apply elem_of_cons in Hin as [?|?]; done. }
        destruct (statSync w (resolve w x)), (hashFile w (resolve w x)); try done.
        by rewrite lookup_insert_ne.
Qed.

(** X15.  The inventory that [scanImagesForBundle] of the checksum
    generation returns has an entry under a path exactly when
    [getImageFiles] found the path and both [statSync] and [hashFile] succeed
    on it; the entry holds that hash and the size.  A file on which one of
    the two fails is left out, without an error. *)
Theorem hash_scanImagesForBundle_spec (absDir : str) (s : State str) :
  match Hash.scanImagesForBundle CONFIG w absDir (Hash.MAXDEPTH CONFIG) s with
  | (Ok currentImages, s') =>
      s' = s /\
      forall rel e, currentImages !! rel = Some e <->
        foundIn w (Hash.EXTENSIONS CONFIG w) (Hash.MAXDEPTH CONFIG) absDir 0 rel /\
        exists st h,
          statSync w (resolve w rel) = Some st /\ hashFile w (resolve w rel) = Some h /\
          e = {| fp := h; e_size := st_size st |}
  | (Throw e, s') =>
      s' = s /\ unlistableIn w (Hash.MAXDEPTH CONFIG) absDir 0 e
  end.
Proof.
  unfold Hash.scanImagesForBundle. rewrite bind_unfold.
  pose proof (getImageFiles_found w (Hash.EXTENSIONS CONFIG w) (Hash.MAXDEPTH CONFIG)
                absDir s) as Hspec.
  destruct (getImageFiles w _ absDir _ s) as [[found|e] s']; [|done].
  destruct Hspec as (-> & Hfound & _). rewrite mret_eq. split; [done|].
  intros rel e. rewrite hash_scan_fold, <- Hfound.
  destruct (decide (rel ∈ found)) as [Hin|Hout].
  - destruct (statSync w (resolve w rel)) as [st|], (hashFile w (resolve w rel)) as [h|].
    + split.
      * intros [= <-]. split; [done|]. eauto.
      * intros (_ & st' & h' & [= <-] & [= <-] & ->). done.
    + rewrite lookup_empty. split; [done|]. by intros (_ & st' & h' & _ & ? & _).
    + rewrite lookup_empty. split; [done|]. by intros (_ & st' & h' & ? & _).
    + rewrite lookup_empty. split; [done|]. by intros (_ & st' & h' & ? & _).
  - rewrite lookup_empty. split; [done|]. by intros (? & _).
Qed.

End InventoryMore.

Lemma getImageFiles_flat_witness :
  getImageFiles (F:=Z) (Examples.world true true 0) [lit "jpg"; lit "png"] Examples.dirA 1
    (initialState Mtime.CACHE_VERSION Examples.files0 None)
  = (Ok (imageFilesOf (Examples.world true true 0) [lit "jpg"; lit "png"] Examples.dirA
           (Examples.fileEntries (lit "one.jpg"))),
     initialState Mtime.CACHE_VERSION Examples.files0 None).
Proof.
  apply (getImageFiles_flat (F:=Z) (Examples.world true true 0) [lit "jpg"; lit "png"] 1
           Examples.dirA (Examples.fileEntries (lit "one.jpg"))).
  - lia.
  - reflexivity.
Defined.

(** ** Processing one bundle *)

Section LoopFacts.
Context {F : Type}.

Lemma forEach_invariant {A B} (I : State F -> Prop) (l : list A)
    (body : B -> A -> M F B) :
  (forall b x s, x ∈ l -> I s -> I (snd (body b x s))) ->
  forall b s, I s -> I (snd (forEach l body b s)).
Proof.
  induction l as [|x l IH]; intros Hbody b s Hs; simpl; [done|].
  rewrite bind_unfold.
  pose proof (Hbody b x s ltac:(by left) Hs) as Hx.
  destruct (body b x s) as [[b'|e] s']; simpl in *; [|done].
  apply IH; [|done]. intros b0 y s0 Hy. apply Hbody. by right.
Qed.

End LoopFacts.

Section CleanDir.

Lemma endsWith_snoc (s : str) (c : N) : endsWith (s ++ [c]) [c] = true.
Proof.
  unfold endsWith. rewrite reverse_snoc. change (reverse [c]) with [c].
  cbn [startsWith]. rewrite N.eqb_refl. by destruct (reverse s).
Qed.

Lemma endsWith_inv (s : str) (c : N) :
  endsWith s [c] = true -> exists s', s = s' ++ [c].
Proof.
  unfold endsWith. change (reverse [c]) with [c].
  destruct (reverse s) as [|x r] eqn:E; cbn [startsWith]; [done|].
  destruct (N.eqb_spec c x) as [->|]; [|done]. intros _.
  exists (reverse r). rewrite <- (reverse_involutive s), E. by rewrite reverse_cons.
Qed.

Lemma slice_drop_last {A} (l : list A) (x : A) : slice (l ++ [x]) 0 (-1) = l.
Proof.
  unfold slice, relIndex. rewrite length_app. cbn [length].
  destruct (Z.ltb_spec 0 0); [lia|]. destruct (Z.ltb_spec (-1) 0); [|lia].
  rewrite Z.min_l by lia. rewrite Z.max_l by lia.
  change (Z.to_nat 0) with 0%nat. rewrite drop_0.
  replace (Z.to_nat (Z.of_nat (length l + 1) + -1 - 0)) with (length l) by lia.
  by rewrite take_app_length.
Qed.

(** X16.  [cleanDir] removes one separator from the end of a path and
    nothing else: a path with a separator appended comes back as it was, a
    path that does not end with the separator is returned unchanged, and in
    any case the result is the path or the path without its last separator. *)
Theorem cleanDir_spec (dir : str) :
  cleanDir (dir ++ lit "/") = dir /\
  (endsWith dir (lit "/") = false -> cleanDir dir = dir) /\
  (cleanDir dir = dir \/ dir = cleanDir dir ++ lit "/").
Proof.
  change (lit "/") with [47%N]. unfold cleanDir. split; [|split].
  - change (lit "/") with [47%N]. by rewrite endsWith_snoc, slice_drop_last.
  - change (lit "/") with [47%N]. by intros ->.
  - change (lit "/") with [47%N].
    destruct (endsWith dir [47%N]) eqn:E; [|by left].
    apply endsWith_inv in E as [s' ->]. right. by rewrite slice_drop_last.
Qed.

End CleanDir.

Section MtimeAgain.
Import Mtime MtimeFacts.

Variable CONFIG : Config.
Variable w : World.




End MtimeAgain.

Section HashDecision.
Import Hash HashFacts.

Variable CONFIG : Config.
Variable DRY_RUN : bool.
Variable w : World.

(** X18.  The decision of the checksum generation, for a bundle with
    images and a readable descriptor.  When the inventory equals the
    inventory of the cache entry, the bundle is unchanged and no file is
    written, whatever the descriptor holds.  Otherwise an invalid descriptor
    ends the processing without a write; a valid one is updated exactly when
    its current value is empty or less than the formatted reading of the
    clock, and then the rendered descriptor is written unless the run is a
    dry run; a write that fails throws. *)
Theorem hash_lastmod_decision (absDir raw : str) (currentImages : gmap str (Entry str))
    (s : State str) :
  let relDir := relative w absDir in
  let indexFile := path_join absDir (lit "index.md") in
  let fm := parseFrontmatter (FRONTMATTER_DELIM CONFIG) raw in
  let candidate := formatLocalISO (tz w) (now w relDir) in
  let r := processBundle CONFIG DRY_RUN w absDir s in
  files s !! indexFile = Some (Text raw) ->
  inventoryOf CONFIG w absDir = Ok currentImages ->
  currentImages <> ∅ ->
  (prevImagesOf (cache s) relDir = currentImages ->
   fst r = Ok Unchanged /\ files (snd r) = files s) /\
  (prevImagesOf (cache s) relDir <> currentImages ->
   (valid fm = false -> fst r = Ok InvalidDescriptor /\ files (snd r) = files s) /\
   (valid fm = true ->
    (isNewerISO candidate (currentLastmod fm) = false ->
     fst r = Ok Unchanged /\ files (snd r) = files s) /\
    (isNewerISO candidate (currentLastmod fm) = true ->
     (DRY_RUN = true -> fst r = Ok Updated /\ files (snd r) = files s) /\
     (DRY_RUN = false -> canWrite w indexFile = true ->
      fst r = Ok Updated /\
      files (snd r)
      = <[indexFile :=
            Text (buildNewContent (FRONTMATTER_DELIM CONFIG)
                    (fmLines fm) (bodyLines fm) candidate)]> (files s)) /\
     (DRY_RUN = false -> canWrite w indexFile = false ->
      fst r = Throw (WriteFileError indexFile) /\ files (snd r) = files s)))).
Proof.
  intros relDir indexFile fm candidate r Hfile Hinv Hne.
  subst r. rewrite hash_processBundle_eq. cbv zeta.
  fold indexFile relDir. rewrite Hfile, Hinv.
  destruct (length (elements (dom currentImages)) =? 0)%nat eqn:Elen.
  { by apply no_keys_empty in Elen. }
  fold fm candidate.
  pose proof (diffImages_zero (prevImagesOf (cache s) relDir) currentImages) as Hz.
  destruct (Z.eqb_spec
              (added (diffImages (prevImagesOf (cache s) relDir) currentImages)
               + changed (diffImages (prevImagesOf (cache s) relDir) currentImages)
               + deleted (diffImages (prevImagesOf (cache s) relDir) currentImages)) 0)
    as [Hzero|Hnz].
  - apply Hz in Hzero. split; [|done]. intros _. by destruct (valid fm).
  - split; [intros Heq; by apply Hz in Heq|]. intros _.
    destruct (valid fm); cbn [negb]; (split; [done|]); [|done]. intros _.
    destruct (isNewerISO candidate (currentLastmod fm)); cbn [negb];
      (split; [done|]); [|done]. intros _.
    destruct DRY_RUN.
    + split; [done|]. split; done.
    + split; [done|]. destruct (canWrite w indexFile).
      * split; [|done]. intros _ _. by destruct (GIT_ADD_ENABLED CONFIG).
      * split; done.
Qed.



End HashDecision.


Lemma hash_lastmod_decision_witness :
  fst (Hash.processBundle Examples.config false MoreExamples.world0 Examples.dirA
         (initialState Hash.CACHE_VERSION Examples.files0 None)) = Ok Updated.
Proof.
  destruct (hash_lastmod_decision Examples.config false MoreExamples.world0 Examples.dirA
              (Examples.descriptor Examples.oldLastmod) MoreExamples.hashInventoryA
              (initialState Hash.CACHE_VERSION Examples.files0 None)
              ltac:(vm_compute; reflexivity) ltac:(vm_compute; reflexivity)
              ltac:(apply map_non_empty_singleton)) as [_ Hchanged].
  destruct Hchanged as [_ Hvalid].
  { intros H. symmetry in H. revert H. apply map_non_empty_singleton. }
  destruct (Hvalid ltac:(vm_compute; reflexivity)) as [_ Hnewer].
  destruct (Hnewer ltac:(vm_compute; reflexivity)) as (_ & Hreal & _).
  exact (proj1 (Hreal eq_refl eq_refl)).
Defined.


(** ** Runs: statistics and the file store *)

Section MtimeLoop.
Import Mtime MtimeFacts.

Variable CONFIG : Config.
Variable DRY_RUN : bool.
Variable w : World.

Lemma processBundle_frame absDir (s : State Z) :
  let s' := snd (processBundle CONFIG DRY_RUN w absDir s) in
  dom (files s') = dom (files s) /\
  forall p, p <> path_join absDir (lit "index.md") -> files s' !! p = files s !! p.
Proof.
  cbv zeta. rewrite processBundle_eq. cbv zeta.
  destruct (files s !! path_join absDir (lit "index.md")) as [file|] eqn:Efile; [|done].
  destruct (inventoryOf CONFIG w absDir) as [currentImages|e]; [|done].
  destruct (length (elements (dom currentImages)) =? 0)%nat; [done|].
  destruct file as [raw|]; [|done].
  destruct (valid _); cbn [negb]; [|done].
  destruct (isNewerISO _ _); cbn [negb]; [|done].
  destruct DRY_RUN; [done|].
  destruct (canWrite w _); [|done].
  assert (Hdom : dom (<[path_join absDir (lit "index.md") :=
                         Text (buildNewContent (FRONTMATTER_DELIM CONFIG)
                                 (fmLines (parseFrontmatter (FRONTMATTER_DELIM CONFIG) raw))
                                 (bodyLines (parseFrontmatter (FRONTMATTER_DELIM CONFIG) raw))
                                 (formatLocalISO (tz w) (maxMtime currentImages)))]>
                      (files s)) = dom (files s)).
  { rewrite dom_insert_L. apply subseteq_union_1_L, singleton_subseteq_l.
    apply elem_of_dom. eauto. }
  destruct (GIT_ADD_ENABLED CONFIG); cbn [snd files withEvent withCache withStats withFiles];
    (split; [done|]); intros p Hp; by rewrite lookup_insert_ne.
Qed.

Lemma processBundle_stats absDir (s : State Z) :
  statsStep (stats s) (stats (snd (processBundle CONFIG DRY_RUN w absDir s))).
Proof.
  rewrite processBundle_eq. cbv zeta. unfold statsStep.
  destruct (files s !! path_join absDir (lit "index.md")) as [file|] eqn:Efile.
  2: { simpl. lia. }
  destruct (inventoryOf CONFIG w absDir) as [currentImages|e].
  2: { simpl. lia. }
  destruct (length (elements (dom currentImages)) =? 0)%nat.
  { simpl. lia. }
  pose proof (diffImages_nonneg (prevImagesOf (cache s) (relative w absDir)) currentImages)
    as (Ha & Hc & Hd).
  destruct file as [raw|].
  2: { simpl. lia. }
  destruct (valid _); cbn [negb].
  2: { simpl. lia. }
  destruct (isNewerISO _ _); cbn [negb].
  2: { simpl. lia. }
  destruct DRY_RUN.
  { simpl. lia. }
  destruct (canWrite w _).
  2: { simpl. lia. }
  destruct (GIT_ADD_ENABLED CONFIG); simpl; lia.
Qed.

Lemma mainStep_frame anyFound dir (s : State Z) :
  let s' := snd (mainStep CONFIG DRY_RUN w anyFound dir s) in
  dom (files s') = dom (files s) /\
  forall p, (isBundleDir w dir = true -> p <> indexFileOf w dir) ->
    files s' !! p = files s !! p.
Proof.
  cbv zeta. unfold mainStep, isBundleDir.
  destruct (statSync w dir) as [statsDir|]; [|done].
  destruct (st_isDirectory statsDir); cbn [negb]; [|done].
  rewrite bind_unfold, modifyStats_eq. cbv beta iota. rewrite bind_unfold.
  pose proof (processBundle_frame (resolve w (cleanDir dir))
                (withStats s (incrTotal (stats s)))) as Hf.
  cbv zeta in Hf.
  destruct (processBundle _ _ _ _ _) as [[t|e] s']; cbn [snd] in *;
    (split; [apply Hf|]); intros p Hp; apply Hf; by apply Hp.
Qed.

Lemma mainStep_stats anyFound dir (s : State Z) :
  statsConsistent (stats s) ->
  let s' := snd (mainStep CONFIG DRY_RUN w anyFound dir s) in
  statsConsistent (stats s') /\
  totalBundles (stats s')
  = totalBundles (stats s) + (if isBundleDir w dir then 1 else 0).
Proof.
  intros Hs. cbv zeta. unfold mainStep, isBundleDir.
  destruct (statSync w dir) as [statsDir|]; [|split; [done|simpl; lia]].
  destruct (st_isDirectory statsDir); cbn [negb]; [|split; [done|simpl; lia]].
  rewrite bind_unfold, modifyStats_eq. cbv beta iota. rewrite bind_unfold.
  pose proof (processBundle_stats (resolve w (cleanDir dir))
                (withStats s (incrTotal (stats s)))) as Hst.
  unfold statsStep, statsConsistent in *.
  destruct (processBundle _ _ _ _ _) as [[t|e] s']; simpl in *; lia.
Qed.

(** The script, with the loops of [main] flattened. *)
Lemma script_eq files0 cacheFile0 :
  script CONFIG DRY_RUN w files0 cacheFile0 =
  match forEach (allDirs CONFIG w) (mainStep CONFIG DRY_RUN w) false
          (withEvent (initialState CACHE_VERSION files0 cacheFile0) LogHeader) with
  | (Throw e, s1) => (1, withEvent s1 (LogUnexpected e))
  | (Ok anyFound, s1) =>
      let s2 := if anyFound then s1 else withEvent s1 LogNoneFound in
      if canWrite w CACHE_PATH then
        let c := CacheJson CACHE_VERSION (Some (cache s2)) in
        let s3 := withEvent (withCacheFile s2 (Some c)) (WriteCache c) in
        (0, withEvent s3 (LogFooter (stats s3)))
      else (1, withEvent s2 (LogUnexpected (WriteFileError CACHE_PATH)))
  end.
Proof.
  unfold script, runMain. rewrite main_unfold.
  destruct (forEach _ _ _ _) as [[anyFound|e] s1]; [|done].
  cbv zeta. by destruct (canWrite w CACHE_PATH).
Qed.

Lemma initialState_files files0 (cacheFile0 : option (CacheFile Z)) :
  files (initialState CACHE_VERSION files0 cacheFile0) = files0 /\
  stats (initialState CACHE_VERSION files0 cacheFile0) = zeroStats /\
  cacheFile (initialState CACHE_VERSION files0 cacheFile0) = cacheFile0.
Proof.
  unfold initialState. by destruct (loadCache CACHE_VERSION cacheFile0).
Qed.

Lemma zeroStats_consistent : statsConsistent zeroStats.
Proof. unfold statsConsistent. simpl. lia. Qed.

Lemma mainLoop_stats (l : list str) anyFound (s : State Z) :
  statsConsistent (stats s) ->
  let r := forEach l (mainStep CONFIG DRY_RUN w) anyFound s in
  statsConsistent (stats (snd r)) /\
  totalBundles (stats (snd r))
    <= totalBundles (stats s) + Z.of_nat (length (List.filter (isBundleDir w) l)) /\
  (forall b, fst r = Ok b ->
     totalBundles (stats (snd r))
     = totalBundles (stats s) + Z.of_nat (length (List.filter (isBundleDir w) l))).
Proof.
  revert anyFound s. induction l as [|dir l IH]; intros anyFound s Hs; cbv zeta.
  - simpl. split; [done|]. split; [lia|]. intros _ _. lia.
  - cbn [forEach]. rewrite bind_unfold.
    destruct (mainStep_stats anyFound dir s Hs) as [Hc Ht].
    destruct (mainStep CONFIG DRY_RUN w anyFound dir s) as [[b|e] s1] eqn:E;
      cbn [snd fst] in *.
    + destruct (IH b s1 Hc) as (Hc' & Hle & Heq). cbv zeta in *.
      cbn [List.filter]. split; [done|].
      destruct (isBundleDir w dir); cbn [length]; split; try lia.
      * intros b' Hb'. rewrite (Heq b' Hb'). lia.
      * intros b' Hb'. rewrite (Heq b' Hb'). lia.
    + split; [done|]. cbn [List.filter]. split; [|done].
      destruct (isBundleDir w dir); cbn [length]; lia.
Qed.

Lemma mtime_run_statistics (files0 : gmap str FileContent)
    (cacheFile0 : option (CacheFile Z)) :
  let r := script CONFIG DRY_RUN w files0 cacheFile0 in
  let directories := List.filter (isBundleDir w) (allDirs CONFIG w) in
  statsConsistent (stats (snd r)) /\
  totalBundles (stats (snd r)) <= Z.of_nat (length directories) /\
  (fst r = 0 ->
   totalBundles (stats (snd r)) = Z.of_nat (length directories) /\
   last (trace (snd r)) = Some (LogFooter (stats (snd r)))).
Proof.
  cbv zeta. rewrite script_eq.
  set (s0 := withEvent (initialState CACHE_VERSION files0 cacheFile0) LogHeader).
  assert (Hs0 : statsConsistent (stats s0)).
  { unfold s0. cbn [stats withEvent].
    destruct (initialState_files files0 cacheFile0) as (_ & -> & _).
    apply zeroStats_consistent. }
  assert (Ht0 : totalBundles (stats s0) = 0).
  { unfold s0. cbn [stats withEvent].
    by destruct (initialState_files files0 cacheFile0) as (_ & -> & _). }
  destruct (mainLoop_stats (allDirs CONFIG w) false s0 Hs0) as (Hc & Hle & Heq).
  cbv zeta in *.
  destruct (forEach _ _ _ s0) as [[anyFound|e] s1]; cbn [fst snd] in *.
  - specialize (Heq anyFound eq_refl).
    cbv zeta. destruct (canWrite w CACHE_PATH); cbn [fst snd].
    + destruct anyFound; cbn [stats withEvent withCacheFile trace];
        (split; [done|]); (split; [lia|]); intros _; (split; [lia|]);
        by rewrite last_snoc.
    + destruct anyFound; cbn [stats withEvent]; (split; [done|]); (split; [lia|]); done.
  - cbn [stats withEvent]. split; [done|]. split; [lia|]. done.
Qed.

Lemma mainLoop_frame (l : list str) anyFound (s : State Z) :
  let s' := snd (forEach l (mainStep CONFIG DRY_RUN w) anyFound s) in
  dom (files s') = dom (files s) /\
  forall p, (forall dir, dir ∈ l -> isBundleDir w dir = true -> p <> indexFileOf w dir) ->
    files s' !! p = files s !! p.
Proof.
  cbv zeta.
  apply (forEach_invariant
    (fun s' : State Z =>
       dom (files s') = dom (files s) /\
       forall p, (forall dir, dir ∈ l -> isBundleDir w dir = true -> p <> indexFileOf w dir) ->
         files s' !! p = files s !! p)); [|done].
  intros b dir s1 Hdir [Hdom Hframe].
  destruct (mainStep_frame b dir s1) as [Hdom1 Hframe1]. cbv zeta in *.
  split; [by rewrite Hdom1|].
  intros p Hp. rewrite Hframe1 by (by apply Hp). by apply Hframe.
Qed.

Lemma mtime_descriptor_frame (files0 : gmap str FileContent)
    (cacheFile0 : option (CacheFile Z)) :
  let s' := snd (script CONFIG DRY_RUN w files0 cacheFile0) in
  dom (files s') = dom files0 /\
  forall p,
    (forall dir, dir ∈ allDirs CONFIG w -> isBundleDir w dir = true ->
       p <> indexFileOf w dir) ->
    files s' !! p = files0 !! p.
Proof.
  cbv zeta. rewrite script_eq.
  set (s0 := withEvent (initialState CACHE_VERSION files0 cacheFile0) LogHeader).
  destruct (mainLoop_frame (allDirs CONFIG w) false s0) as [Hdom Hframe].
  cbv zeta in *.
  assert (Hf0 : files s0 = files0).
  { unfold s0. cbn [files withEvent].
    by destruct (initialState_files files0 cacheFile0) as (-> & _). }
  rewrite Hf0 in Hdom, Hframe.
  destruct (forEach _ _ _ s0) as [[anyFound|e] s1]; cbn [fst snd] in *.
  - cbv zeta. destruct (canWrite w CACHE_PATH), anyFound; done.
  - done.
Qed.

End MtimeLoop.

Section HashLoop.
Import Hash HashFacts.

Variable CONFIG : Config.
Variable DRY_RUN : bool.
Variable w : World.

Lemma hash_processBundle_frame absDir (s : State str) :
  let s' := snd (processBundle CONFIG DRY_RUN w absDir s) in
  dom (files s') = dom (files s) /\
  (forall p, p <> path_join absDir (lit "index.md") -> files s' !! p = files s !! p) /\
  (forall k, k <> relative w absDir -> cache s' !! k = cache s !! k).
Proof.
  cbv zeta. rewrite hash_processBundle_eq. cbv zeta.
  destruct (files s !! path_join absDir (lit "index.md")) as [file|] eqn:Efile; [|done].
  destruct (inventoryOf CONFIG w absDir) as [currentImages|e]; [|done].
  assert (Hput : forall (b : Bundle str) k, k <> relative w absDir ->
            <[relative w absDir := b]> (cache s) !! k = cache s !! k).
  { intros b k Hk. by rewrite lookup_insert_ne. }
  destruct (length (elements (dom currentImages)) =? 0)%nat.
  { cbn [snd files cache withEvent withCache withStats]. split; [done|]. split; [done|].
    apply Hput. }
  destruct file as [raw|]; [|done].
  destruct (_ =? 0).
  { destruct (valid _); cbn [snd files cache withEvent withCache withStats];
      (split; [done|]); (split; [done|]); apply Hput. }
  destruct (valid _); cbn [negb].
  2: { cbn [snd files cache withEvent withCache withStats]. split; [done|].
       split; [done|]. apply Hput. }
  destruct (isNewerISO _ _); cbn [negb].
  2: { cbn [snd files cache withEvent withCache withStats]. split; [done|].
       split; [done|]. apply Hput. }
  destruct DRY_RUN.
  { cbn [snd files cache withEvent withCache withStats]. split; [done|].
    split; [done|]. apply Hput. }
  destruct (canWrite w _); [|done].
  assert (Hdom : forall c, dom (<[path_join absDir (lit "index.md") := c]> (files s))
                           = dom (files s)).
  { intros c. rewrite dom_insert_L. apply subseteq_union_1_L, singleton_subseteq_l.
    apply elem_of_dom. eauto. }
  destruct (GIT_ADD_ENABLED CONFIG);
    cbn [snd files cache withEvent withCache withStats withFiles];
    (split; [apply Hdom|]); (split; [|apply Hput]);
    intros p Hp; by rewrite lookup_insert_ne.
Qed.

Lemma hash_processBundle_stats absDir (s : State str) :
  statsStep (stats s) (stats (snd (processBundle CONFIG DRY_RUN w absDir s))).
Proof.
  rewrite hash_processBundle_eq. cbv zeta. unfold statsStep.
  destruct (files s !! path_join absDir (lit "index.md")) as [file|] eqn:Efile.
  2: { simpl. lia. }
  destruct (inventoryOf CONFIG w absDir) as [currentImages|e].
  2: { simpl. lia. }
  destruct (length (elements (dom currentImages)) =? 0)%nat.
  { simpl. lia. }
  pose proof (diffImages_nonneg (prevImagesOf (cache s) (relative w absDir)) currentImages)
    as (Ha & Hc & Hd).
  destruct file as [raw|].
  2: { simpl. lia. }
  destruct (_ =? 0).
  { destruct (valid _); simpl; lia. }
  destruct (valid _); cbn [negb].
  2: { simpl. lia. }
  destruct (isNewerISO _ _); cbn [negb].
  2: { simpl. lia. }
  destruct DRY_RUN.
  { simpl. lia. }
  destruct (canWrite w _).
  2: { simpl. lia. }
  destruct (GIT_ADD_ENABLED CONFIG); simpl; lia.
Qed.

Lemma hash_mainStep_bundle anyFound dir (s : State str) :
  mainStep CONFIG DRY_RUN w anyFound dir s =
  if isBundleDir w dir then
    match processBundle CONFIG DRY_RUN w (resolve w (cleanDir dir))
            (withStats s (incrTotal (stats s))) with
    | (Ok _, s') => (Ok true, s')
    | (Throw e, s') => (Throw e, s')
    end
  else (Ok anyFound, s).
Proof.
  unfold mainStep, isBundleDir.
  destruct (statSync w dir) as [statsDir|]; [|done].
  destruct (st_isDirectory statsDir); cbn [negb]; [|done].
  rewrite bind_unfold, modifyStats_eq. cbv beta iota. rewrite bind_unfold.
  by destruct (processBundle _ _ _ _ _) as [[t|e] s'].
Qed.

Lemma hash_mainStep_frame anyFound dir (s : State str) :
  let s' := snd (mainStep CONFIG DRY_RUN w anyFound dir s) in
  dom (files s') = dom (files s) /\
  forall p, (isBundleDir w dir = true -> p <> indexFileOf w dir) ->
    files s' !! p = files s !! p.
Proof.
  cbv zeta. rewrite hash_mainStep_bundle.
  destruct (isBundleDir w dir); [|done].
  pose proof (hash_processBundle_frame (resolve w (cleanDir dir))
                (withStats s (incrTotal (stats s)))) as (Hd & Hf & _).
  cbv zeta in *.
  destruct (processBundle _ _ _ _ _) as [[t|e] s']; cbn [snd] in *;
    (split; [apply Hd|]); intros p Hp; apply Hf; by apply Hp.
Qed.

Lemma hash_mainStep_stats anyFound dir (s : State str) :
  statsConsistent (stats s) ->
  let s' := snd (mainStep CONFIG DRY_RUN w anyFound dir s) in
  statsConsistent (stats s') /\
  totalBundles (stats s')
  = totalBundles (stats s) + (if isBundleDir w dir then 1 else 0).
Proof.
  intros Hs. cbv zeta. rewrite hash_mainStep_bundle.
  destruct (isBundleDir w dir); [|split; [done|simpl; lia]].
  pose proof (hash_processBundle_stats (resolve w (cleanDir dir))
                (withStats s (incrTotal (stats s)))) as Hst.
  unfold statsStep, statsConsistent in *.
  destruct (processBundle _ _ _ _ _) as [[t|e] s']; simpl in *; lia.
Qed.

(** The script, with the loops of [main] flattened. *)
Lemma hash_script_eq files0 cacheFile0 :
  script CONFIG DRY_RUN w files0 cacheFile0 =
  match forEach (allDirs CONFIG w) (mainStep CONFIG DRY_RUN w) false
          (withEvent (initialState CACHE_VERSION files0 cacheFile0) LogHeader) with
  | (Throw e, s1) => (1, withEvent s1 (LogUnexpected e))
  | (Ok anyFound, s1) =>
      let s2 := if anyFound then s1 else withEvent s1 LogNoneFound in
      if DRY_RUN then
        let s3 := withEvent s2 LogDryRunCache in
        (0, withEvent s3 (LogFooter (stats s3)))
      else if canWrite w CACHE_PATH then
        let c := CacheJson CACHE_VERSION (Some (cache s2)) in
        let s3 := withEvent (withCacheFile s2 (Some c)) (WriteCache c) in
        (0, withEvent s3 (LogFooter (stats s3)))
      else (1, withEvent s2 (LogUnexpected (WriteFileError CACHE_PATH)))
  end.
Proof.
  unfold script, runMain. rewrite hash_main_unfold.
  destruct (forEach _ _ _ _) as [[anyFound|e] s1]; [|done].
  cbv zeta. destruct DRY_RUN; [done|]. by destruct (canWrite w CACHE_PATH).
Qed.

Lemma hash_initialState_files files0 (cacheFile0 : option (CacheFile str)) :
  files (initialState CACHE_VERSION files0 cacheFile0) = files0 /\
  stats (initialState CACHE_VERSION files0 cacheFile0) = zeroStats /\
  cacheFile (initialState CACHE_VERSION files0 cacheFile0) = cacheFile0.
Proof.
  unfold initialState. by destruct (loadCache CACHE_VERSION cacheFile0).
Qed.

Lemma hash_mainLoop_stats (l : list str) anyFound (s : State str) :
  statsConsistent (stats s) ->
  let r := forEach l (mainStep CONFIG DRY_RUN w) anyFound s in
  statsConsistent (stats (snd r)) /\
  totalBundles (stats (snd r))
    <= totalBundles (stats s) + Z.of_nat (length (List.filter (isBundleDir w) l)) /\
  (forall b, fst r = Ok b ->
     totalBundles (stats (snd r))
     = totalBundles (stats s) + Z.of_nat (length (List.filter (isBundleDir w) l))).
Proof.
  revert anyFound s. induction l as [|dir l IH]; intros anyFound s Hs; cbv zeta.
  - simpl. split; [done|]. split; [lia|]. intros _ _. lia.
  - cbn [forEach]. rewrite bind_unfold.
    destruct (hash_mainStep_stats anyFound dir s Hs) as [Hc Ht].
    destruct (mainStep CONFIG DRY_RUN w anyFound dir s) as [[b|e] s1] eqn:E;
      cbn [snd fst] in *.
    + destruct (IH b s1 Hc) as (Hc' & Hle & Heq). cbv zeta in *.
      cbn [List.filter]. split; [done|].
      destruct (isBundleDir w dir); cbn [length]; split; try lia.
      * intros b' Hb'. rewrite (Heq b' Hb'). lia.
      * intros b' Hb'. rewrite (Heq b' Hb'). lia.
    + split; [done|]. cbn [List.filter]. split; [|done].
      destruct (isBundleDir w dir); cbn [length]; lia.
Qed.

Lemma hash_run_statistics (files0 : gmap str FileContent)
    (cacheFile0 : option (CacheFile str)) :
  let r := script CONFIG DRY_RUN w files0 cacheFile0 in
  let directories := List.filter (isBundleDir w) (allDirs CONFIG w) in
  statsConsistent (stats (snd r)) /\
  totalBundles (stats (snd r)) <= Z.of_nat (length directories) /\
  (fst r = 0 ->
   totalBundles (stats (snd r)) = Z.of_nat (length directories) /\
   last (trace (snd r)) = Some (LogFooter (stats (snd r)))).
Proof.
  cbv zeta. rewrite hash_script_eq.
  set (s0 := withEvent (initialState CACHE_VERSION files0 cacheFile0) LogHeader).
  assert (Hs0 : statsConsistent (stats s0)).
  { unfold s0. cbn [stats withEvent].
    destruct (hash_initialState_files files0 cacheFile0) as (_ & -> & _).
    apply zeroStats_consistent. }
  assert (Ht0 : totalBundles (stats s0) = 0).
  { unfold s0. cbn [stats withEvent].
    by destruct (hash_initialState_files files0 cacheFile0) as (_ & -> & _). }
  destruct (hash_mainLoop_stats (allDirs CONFIG w) false s0 Hs0) as (Hc & Hle & Heq).
  cbv zeta in *.
  destruct (forEach _ _ _ s0) as [[anyFound|e] s1]; cbn [fst snd] in *.
  - specialize (Heq anyFound eq_refl).
    cbv zeta. destruct DRY_RUN; [|destruct (canWrite w CACHE_PATH)]; cbn [fst snd].
    + destruct anyFound; cbn [stats withEvent withCacheFile trace];
        (split; [done|]); (split; [lia|]); intros _; (split; [lia|]);
        by rewrite last_snoc.
    + destruct anyFound; cbn [stats withEvent withCacheFile trace];
        (split; [done|]); (split; [lia|]); intros _; (split; [lia|]);
        by rewrite last_snoc.
    + destruct anyFound; cbn [stats withEvent]; (split; [done|]); (split; [lia|]); done.
  - cbn [stats withEvent]. split; [done|]. split; [lia|]. done.
Qed.

Lemma hash_mainLoop_frame (l : list str) anyFound (s : State str) :
  let s' := snd (forEach l (mainStep CONFIG DRY_RUN w) anyFound s) in
  dom (files s') = dom (files s) /\
  forall p, (forall dir, dir ∈ l -> isBundleDir w dir = true -> p <> indexFileOf w dir) ->
    files s' !! p = files s !! p.
Proof.
  cbv zeta.
  apply (forEach_invariant
    (fun s' : State str =>
       dom (files s') = dom (files s) /\
       forall p, (forall dir, dir ∈ l -> isBundleDir w dir = true -> p <> indexFileOf w dir) ->
         files s' !! p = files s !! p)); [|done].
  intros b dir s1 Hdir [Hdom Hframe].
  destruct (hash_mainStep_frame b dir s1) as [Hdom1 Hframe1]. cbv zeta in *.
  split; [by rewrite Hdom1|].
  intros p Hp. rewrite Hframe1 by (by apply Hp). by apply Hframe.
Qed.

Lemma hash_descriptor_frame (files0 : gmap str FileContent)
    (cacheFile0 : option (CacheFile str)) :
  let s' := snd (script CONFIG DRY_RUN w files0 cacheFile0) in
  dom (files s') = dom files0 /\
  forall p,
    (forall dir, dir ∈ allDirs CONFIG w -> isBundleDir w dir = true ->
       p <> indexFileOf w dir) ->
    files s' !! p = files0 !! p.
Proof.
  cbv zeta. rewrite hash_script_eq.
  set (s0 := withEvent (initialState CACHE_VERSION files0 cacheFile0) LogHeader).
  destruct (hash_mainLoop_frame (allDirs CONFIG w) false s0) as [Hdom Hframe].
  cbv zeta in *.
  assert (Hf0 : files s0 = files0).
  { unfold s0. cbn [files withEvent].
    by destruct (hash_initialState_files files0 cacheFile0) as (-> & _). }
  rewrite Hf0 in Hdom, Hframe.
  destruct (forEach _ _ _ s0) as [[anyFound|e] s1]; cbn [fst snd] in *.
  - cbv zeta. destruct DRY_RUN; [by destruct anyFound|].
    destruct (canWrite w CACHE_PATH), anyFound; done.
  - done.
Qed.

End HashLoop.

Section RunsOfBothGenerations.

Variable CONFIG : Config.
Variable DRY_RUN : bool.
Variable w : World.

(** X20.  The statistics of a run, in both generations that count.  After
    the script, however it ends, no counter is negative, the bundles counted
    as updated, unchanged or without images are at most the total, and the
    total is at most the number of paths that [main] found to be
    directories.  When the script exits with code 0, the total is exactly
    that number, bundles without descriptor included, and the last thing
    printed is the footer with these statistics. *)
Theorem run_statistics (files0 : gmap str FileContent)
    (cacheFileM : option (CacheFile Z)) (cacheFileH : option (CacheFile str)) :
  let directories := List.filter (isBundleDir w) (Mtime.allDirs CONFIG w) in
  (let r := Mtime.script CONFIG DRY_RUN w files0 cacheFileM in
   statsConsistent (stats (snd r)) /\
   totalBundles (stats (snd r)) <= Z.of_nat (length directories) /\
   (fst r = 0 ->
    totalBundles (stats (snd r)) = Z.of_nat (length directories) /\
    last (trace (snd r)) = Some (LogFooter (stats (snd r))))) /\
  (let r := Hash.script CONFIG DRY_RUN w files0 cacheFileH in
   statsConsistent (stats (snd r)) /\
   totalBundles (stats (snd r)) <= Z.of_nat (length directories) /\
   (fst r = 0 ->
    totalBundles (stats (snd r)) = Z.of_nat (length directories) /\
    last (trace (snd r)) = Some (LogFooter (stats (snd r))))).
Proof.
  split.
  - apply mtime_run_statistics.
  - apply hash_run_statistics.
Qed.

(** X21.  What a run leaves alone in the file store, in both generations
    that keep a cache, however the script ends: no file is created or
    removed, and every file that is not the [index.md] of a directory that
    [main] processes has the content it had. *)
Theorem descriptor_frame (files0 : gmap str FileContent)
    (cacheFileM : option (CacheFile Z)) (cacheFileH : option (CacheFile str)) :
  (let s' := snd (Mtime.script CONFIG DRY_RUN w files0 cacheFileM) in
   dom (files s') = dom files0 /\
   forall p,
     (forall dir, dir ∈ Mtime.allDirs CONFIG w -> isBundleDir w dir = true ->
        p <> indexFileOf w dir) ->
     files s' !! p = files0 !! p) /\
  (let s' := snd (Hash.script CONFIG DRY_RUN w files0 cacheFileH) in
   dom (files s') = dom files0 /\
   forall p,
     (forall dir, dir ∈ Hash.allDirs CONFIG w -> isBundleDir w dir = true ->
        p <> indexFileOf w dir) ->
     files s' !! p = files0 !! p).
Proof.
  split.
  - apply mtime_descriptor_frame.
  - apply hash_descriptor_frame.
Qed.

End RunsOfBothGenerations.

(** ** A second run *)

Section MtimeIdempotent.
Import Mtime MtimeFacts.

Variable CONFIG : Config.
Variable w : World.
Hypothesis HDELIM : isLastmodLine (FRONTMATTER_DELIM CONFIG) = false.








End MtimeIdempotent.

Section HashIdempotent.
Import Hash HashFacts.

Variable CONFIG : Config.
Variable w : World.
Hypothesis relative_inj : forall a b : str,
  relative w (resolve w a) = relative w (resolve w b) -> resolve w a = resolve w b.






End HashIdempotent.



(** ** Dry runs and the cache file *)

Section MtimeDryRun.
Import Mtime MtimeFacts.

Variable CONFIG : Config.
Variable w : World.




End MtimeDryRun.

Section HashDryRun.
Import Hash HashFacts.

Variable CONFIG : Config.
Variable w : World.




End HashDryRun.



Section BothGenerations.

Variable CONFIG : Config.
Variable DRY_RUN : bool.
Variable w : World.



End BothGenerations.


(** ** The git generation *)

Section GitFacts.
Import Git.

Variable CONFIG : Config.
Variable w : World.
Variable spawnGit : list str -> SpawnResult.

Lemma getLastGitCommitDate_Some dir images out :
  getLastGitCommitDate spawnGit dir images = Some out ->
  out <> [] /\ trim out = out.
Proof.
  unfold getLastGitCommitDate. cbv zeta.
  destruct (status (spawnGit _)) as [[| |]|]; try done.
  destruct (trim (stdout (spawnGit _))) as [|c o] eqn:E; [done|].
  intros [= <-]. split; [done|]. rewrite <- E. apply trim_idem.
Qed.

Lemma str_eqb_refl (a : str) : str_eqb a a = true.
Proof. unfold str_eqb. by apply bool_decide_eq_true. Qed.

(** X27.  The git generation, after an update.  When [processBundle] has
    rewritten a descriptor with the date of the last commit, the descriptor
    is valid and carries that date as its current value, the value it
    replaced was a different one (earlier or later), and processing the
    bundle again, with the same answer from git, finds the descriptor current
    and writes nothing.  (The date has no line feed and no double quote, and
    the delimiter is not itself a lastmod line.) *)
Theorem git_processBundle_again (dir : str) (files files' : gmap str FileContent)
    (noImages : bool) (current lastmod : str) (gitAdded : bool) :
  isLastmodLine (FRONTMATTER_DELIM CONFIG) = false ->
  (nl ∉ lastmod) -> (dquote ∉ lastmod) ->
  processBundle CONFIG w spawnGit dir files
    = (Ok (Updated noImages current lastmod gitAdded), files') ->
  (exists content,
     files' !! path_join dir (lit "index.md") = Some (Text content) /\
     valid (parseFrontmatter (FRONTMATTER_DELIM CONFIG) content) = true /\
     currentLastmod (parseFrontmatter (FRONTMATTER_DELIM CONFIG) content) = lastmod) /\
  current <> lastmod /\
  processBundle CONFIG w spawnGit dir files' = (Ok (Current noImages lastmod), files').
Proof.
  intros HD Hnl Hq. unfold processBundle. cbv zeta.
  destruct (files !! path_join dir (lit "index.md")) as [file|] eqn:Efile; [|done].
  destruct (getImageFiles CONFIG w dir (MAXDEPTH CONFIG)) as [images|e]; [|done].
  destruct (getLastGitCommitDate spawnGit dir images) as [out|] eqn:Egit; [|done].
  destruct (getLastGitCommitDate_Some _ _ _ Egit) as [Hne Htrim].
  destruct file as [raw|]; [|done].
  destruct (valid (parseFrontmatter (FRONTMATTER_DELIM CONFIG) raw)) eqn:Hv;
    cbn [negb]; [|done].
  destruct (str_eqb _ out) eqn:Heq; [done|].
  destruct (canWrite w _); [|done].
  intros [= <- <- <- <- <-].
  destruct (parseFrontmatter_valid_wf _ raw Hv) as (Hfm & Hbody & Hnd & HDnl & HDt).
  assert (Hparse :
    parseFrontmatter (FRONTMATTER_DELIM CONFIG)
      (buildNewContent (FRONTMATTER_DELIM CONFIG)
         (fmLines (parseFrontmatter (FRONTMATTER_DELIM CONFIG) raw))
         (bodyLines (parseFrontmatter (FRONTMATTER_DELIM CONFIG) raw)) out)
    = {| currentLastmod := out;
         fmLines := replaceFirst
                      (fmLines (parseFrontmatter (FRONTMATTER_DELIM CONFIG) raw)) out;
         bodyLines := orEmptyLine
                        (bodyLines (parseFrontmatter (FRONTMATTER_DELIM CONFIG) raw));
         valid := true |}).
  { rewrite parse_buildNewContent; try done.
    - by rewrite remove_dquotes_quoted, Htrim.
    - intros E. rewrite E, isLastmodLine_lastmodLine in HD. done. }
  split.
  { eexists. rewrite lookup_insert_eq. split; [done|]. by rewrite Hparse. }
  split.
  { unfold str_eqb in Heq. by apply bool_decide_eq_false in Heq. }
  rewrite lookup_insert_eq, Hparse. cbn [valid currentLastmod negb].
  by rewrite str_eqb_refl.
Qed.

End GitFacts.

Section GitRuns.
Import Git.

Variable CONFIG : Config.
Variable w : World.
Variable spawnGit : list str -> SpawnResult.

Lemma git_processBundle_no_date dir files :
  (forall args, status (spawnGit args) <> Some 0) ->
  snd (processBundle CONFIG w spawnGit dir files) = files.
Proof.
  intros Hgit. unfold processBundle. cbv zeta.
  destruct (files !! _) as [file|]; [|done].
  destruct (getImageFiles _ _ _ _) as [images|e]; [|done].
  unfold getLastGitCommitDate. cbv zeta.
  specialize (Hgit ([lit "log"; lit "-1"; lit "--format=%cI"; lit "--"; dir] ++ images)).
  destruct (status (spawnGit _)) as [[| |]|]; done.
Qed.

(** X28.  Without a date from git the git generation changes nothing:
    when every call of git log exits with a status other than 0 (outside a
    repository, or without git), the script leaves every file as it was. *)
Theorem git_no_history_no_change (files : gmap str FileContent) :
  (forall args, status (spawnGit args) <> Some 0) ->
  snd (script CONFIG w spawnGit files) = files.
Proof.
  intros Hgit. unfold script, main.
  assert (Hloop : forall dirs f log,
    snd (mainLoop CONFIG w spawnGit dirs f log) = f).
  { induction dirs as [|dir rest IH]; intros f log; cbn [mainLoop]; [done|].
    destruct (statSync w dir) as [statsDir|]; [|apply IH].
    destruct (st_isDirectory statsDir); cbn [negb]; [|apply IH].
    pose proof (git_processBundle_no_date (cleanDir dir) f Hgit) as Hp.
    destruct (processBundle _ _ _ _ _) as [[o|e] f']; cbn [snd] in Hp; subst f'.
    - apply IH.
    - done. }
  specialize (Hloop (concat (List.map (glob w) (TARGET_DIRS CONFIG))) files []).
  by destruct (mainLoop _ _ _ _ _ _) as [[log|e] f'].
Qed.

End GitRuns.

Lemma git_processBundle_again_witness :
  let files' := snd (Git.processBundle Examples.config MoreExamples.world0
                       MoreExamples.gitAnswers Examples.dirA Examples.files0) in
  Git.processBundle Examples.config MoreExamples.world0 MoreExamples.gitAnswers
    Examples.dirA files'
  = (Ok (Git.Current false MoreExamples.gitDate), files').
Proof.
  cbv zeta.
  refine (proj2 (proj2 (git_processBundle_again Examples.config MoreExamples.world0
            MoreExamples.gitAnswers Examples.dirA Examples.files0 _ false
            Examples.oldLastmod MoreExamples.gitDate true eq_refl _ _ _))).
  - not_in_literal.
  - not_in_literal.
  - vm_compute. reflexivity.
Defined.

Lemma git_no_history_no_change_witness :
  snd (Git.script Examples.config MoreExamples.world0 MoreExamples.gitFails Examples.files0)
  = Examples.files0.
Proof.
  apply (git_no_history_no_change Examples.config MoreExamples.world0
           MoreExamples.gitFails Examples.files0).
  intros args. discriminate.
Defined.
